(** * openfoodfacts-query: the query service and the event ingestor

    A shallow embedding of [src/domain/services/query.service.ts]
    (class [QueryService]) and of the behaviour that the tests of
    [messages.service] pin down, with the properties the specification
    states about them.

    Layout:
    - [Js]: the fragment of JavaScript values and operators the service
      applies to request bodies (truthiness, property access, iteration,
      [Object.entries], sparse array writes);
    - the exception type and the two monads the service runs in: results
      with exceptions, and results with exceptions plus the trace of
      calls made to the stores;
    - [QueryService]: [parseFilter], [getEntityAndColumn], [addMatches],
      [getFilterSql], [obsoleteWhere], [count], [select], [aggregate],
      [find], over a relational mirror given as finite tables;
    - [Messages]: the event ingestor, whose source file
      ([messages.service.ts]) is not among the sources; it is modelled
      from the specification and checked against its tests, which are;
    - the theorems. *)

From Stdlib Require Import List String Ascii ZArith Bool Arith Lia.
From Stdlib Require Import DecimalString DecimalNat Sorted Permutation.
Import ListNotations.

Local Open Scope string_scope.
Local Open Scope list_scope.

(* ================================================================== *)
(** * JavaScript values *)

Module Js.

(** Request bodies arrive as JSON; [JUndefined] is what property access
    yields for an absent key.  Numbers are the integers (none of the
    modelled code does arithmetic on them). *)
#[warnings="-register-all"]
Inductive JsValue : Type :=
| JUndefined
| JNull
| JBool (b : bool)
| JNum (n : Z)
| JStr (s : string)
| JArr (elems : list JsValue)
| JObj (entries : list (string * JsValue)).

(** [if (v)], [!v], [v ? a : b]. *)
Definition truthy (v : JsValue) : bool :=
  match v with
  | JUndefined | JNull => false
  | JBool b => b
  | JNum n => negb (n =? 0)%Z
  | JStr s => negb (s =? "")
  | JArr _ | JObj _ => true
  end.

(** [v === Object(v)]: true of objects and arrays only. *)
Definition isObject (v : JsValue) : bool :=
  match v with
  | JArr _ | JObj _ => true
  | _ => false
  end.

(** [v == null]. *)
Definition isNullish (v : JsValue) : bool :=
  match v with
  | JUndefined | JNull => true
  | _ => false
  end.

(** [a === b] on values that come from two different places: primitives
    compare by value, objects and arrays by identity, so two of them
    obtained separately are never equal. *)
Definition strictEq (a b : JsValue) : bool :=
  match a, b with
  | JUndefined, JUndefined => true
  | JNull, JNull => true
  | JBool x, JBool y => Bool.eqb x y
  | JNum x, JNum y => (x =? y)%Z
  | JStr x, JStr y => (x =? y)
  | _, _ => false
  end.

Definition indexKey (i : nat) : string :=
  NilZero.string_of_uint (Nat.to_uint i).

(** The decimal numeral of a count, as the SQL driver answers a
    [count] column (a [bigint], which it hands over as a string). *)
Definition decimal (n : nat) : string :=
  NilZero.string_of_uint (Nat.to_uint n).

(** What [parseInt] yields: an integer or [NaN]. *)
Inductive Num : Type :=
| Int (n : Z)
| NaN.

Fixpoint indexedFrom {A : Type} (i : nat) (l : list A) : list (string * A) :=
  match l with
  | [] => []
  | x :: l' => (indexKey i, x) :: indexedFrom (S i) l'
  end.

(** The characters of a string, each as a one-character string. *)
Fixpoint chars (s : string) : list JsValue :=
  match s with
  | EmptyString => []
  | String c s' => JStr (String c EmptyString) :: chars s'
  end.

Fixpoint lookup (key : string) (es : list (string * JsValue)) : JsValue :=
  match es with
  | [] => JUndefined
  | (k, v) :: es' => if k =? key then v else lookup key es'
  end.

Fixpoint removeKey (key : string) (es : list (string * JsValue))
  : list (string * JsValue) :=
  match es with
  | [] => []
  | (k, v) :: es' =>
      if k =? key then removeKey key es' else (k, v) :: removeKey key es'
  end.

End Js.
Export Js.

(* ================================================================== *)
(** * Exceptions and effects *)

(** The messages [throwUnprocessableException] is called with.  A
    template string is kept as its interpolated part. *)
Inductive Message : Type :=
| UnableToProcess (whereValue : JsValue)
| TagNotLoaded (tag : string)
| TagNotSupported (tag : string)
| OnlyDescendingPopularity
| ScansNotLoaded
| MultipleCountries.

(** [StoreError] stands for a statement the mirror refuses, and for one
    that is outside what the model of the mirror below answers. *)
Inductive Exn : Type :=
| TypeError
| UnprocessableEntityException (msg : Message)
| StoreError.

Definition Res (A : Type) : Type := (Exn + A)%type.

Definition ok {A} (a : A) : Res A := inr a.
Definition throw {A} (e : Exn) : Res A := inl e.
Definition rbind {A B} (r : Res A) (k : A -> Res B) : Res B :=
  match r with
  | inl e => inl e
  | inr a => k a
  end.

Declare Scope res_scope.
Delimit Scope res_scope with res.
Notation "x <- e ;; k" := (rbind e (fun x => k))
  (at level 61, e at next level, right associativity) : res_scope.
Notation "' p <- e ;; k" := (rbind e (fun x => match x with p => k end))
  (at level 61, p pattern, e at next level, right associativity) : res_scope.
Local Open Scope res_scope.

Definition throwUnprocessableException {A} (message : Message) : Res A :=
  throw (UnprocessableEntityException message).

Fixpoint mapM {A B} (f : A -> Res B) (l : list A) : Res (list B) :=
  match l with
  | [] => ok []
  | x :: l' => y <- f x ;; ys <- mapM f l' ;; ok (y :: ys)
  end.

(** A loop that pushes, on each round, the items [f] yields. *)
Definition flatMapM {A B} (f : A -> Res (list B)) : list A -> Res (list B) :=
  fix loop (l : list A) : Res (list B) :=
    match l with
    | [] => ok []
    | x :: l' => y <- f x ;; ys <- loop l' ;; ok (y ++ ys)
    end.

Module JsOps.

(** [Object.entries(v)]. *)
Definition objectEntries (v : JsValue) : Res (list (string * JsValue)) :=
  match v with
  | JUndefined | JNull => throw TypeError
  | JObj es => ok es
  | JArr l => ok (indexedFrom 0 l)
  | JStr s => ok (indexedFrom 0 (chars s))
  | JBool _ | JNum _ => ok []
  end.

(** [Object.keys(v)] on an object or array. *)
Definition objectKeys (v : JsValue) : Res (list string) :=
  es <- objectEntries v ;; ok (map fst es).

(** [v[key]] for the own properties of [v]; reading a property of
    [null] or [undefined] raises. *)
Definition getProp (v : JsValue) (key : string) : Res JsValue :=
  match v with
  | JUndefined | JNull => throw TypeError
  | JObj es => ok (lookup key es)
  | JArr l =>
      if key =? "length" then ok (JNum (Z.of_nat (List.length l)))
      else ok (lookup key (indexedFrom 0 l))
  | JStr s =>
      if key =? "length" then ok (JNum (Z.of_nat (String.length s)))
      else ok (lookup key (indexedFrom 0 (chars s)))
  | JBool _ | JNum _ => ok JUndefined
  end.

(** [v?.[key]]. *)
Definition getPropOpt (v : JsValue) (key : string) : JsValue :=
  match getProp v key with
  | inr x => x
  | inl _ => JUndefined
  end.

(** [for (const x of v)]: arrays and strings are iterable. *)
Definition iterate (v : JsValue) : Res (list JsValue) :=
  match v with
  | JArr l => ok l
  | JStr s => ok (chars s)
  | _ => throw TypeError
  end.

(** ** [parseInt]

    [parseInt(v)] and [parseInt(v, 10)] turn [v] into a string, skip
    leading white space, read a sign, and (without a radix) take
    ["0x"] or ["0X"] for a hexadecimal prefix; the result is the number
    written by the longest run of digits that follows, [NaN] when
    there is none. *)

Definition isSpace (c : ascii) : bool :=
  let n := nat_of_ascii c in
  (n =? 32)%nat || ((9 <=? n)%nat && (n <=? 13)%nat).

Fixpoint trimStart (s : string) : string :=
  match s with
  | String c s' => if isSpace c then trimStart s' else s
  | EmptyString => EmptyString
  end.

Definition digitOf (radix : Z) (c : ascii) : option Z :=
  let n := Z.of_nat (nat_of_ascii c) in
  let d := if (48 <=? n)%Z && (n <=? 57)%Z then Some (n - 48)%Z
           else if (97 <=? n)%Z && (n <=? 122)%Z then Some (n - 87)%Z
           else if (65 <=? n)%Z && (n <=? 90)%Z then Some (n - 55)%Z
           else None in
  match d with
  | Some d => if (d <? radix)%Z then Some d else None
  | None => None
  end.

(** The number written by the longest run of digits at the head of
    [s], after those already read into [acc]. *)
Fixpoint digitRun (radix : Z) (s : string) (acc : option Z) : option Z :=
  match s with
  | String c s' =>
      match digitOf radix c with
      | Some d =>
          digitRun radix s'
            (Some (radix * match acc with Some a => a | None => 0 end + d)%Z)
      | None => acc
      end
  | EmptyString => acc
  end.

Definition signOf (s : string) : bool * string :=
  match s with
  | String c s' =>
      if Ascii.eqb c "-" then (true, s')
      else if Ascii.eqb c "+" then (false, s') else (false, s)
  | EmptyString => (false, s)
  end.

Definition hexPrefix (s : string) : bool :=
  match s with
  | String c s' =>
      Ascii.eqb c "0" &&
      match s' with
      | String x _ => Ascii.eqb x "x" || Ascii.eqb x "X"
      | EmptyString => false
      end
  | EmptyString => false
  end.

Definition radixOf (radix10 : bool) (s : string) : Z * string :=
  if negb radix10 && hexPrefix s
  then (16%Z, match s with String _ (String _ s') => s' | _ => s end)
  else (10%Z, s).

Definition parseIntString (radix10 : bool) (s : string) : Num :=
  let (negative, s) := signOf (trimStart s) in
  let (radix, s) := radixOf radix10 s in
  match digitRun radix s None with
  | Some n => Int (if negative : bool then - n else n)%Z
  | None => NaN
  end.

(** The first digit of an integer, with its sign: what [parseInt] reads
    off the exponent notation [String(n)] has from [1e21] on. *)
Definition leadingDigit (n : Z) : Z :=
  let first (d : Decimal.uint) : Z :=
    match d with
    | Decimal.Nil | Decimal.D0 _ => 0
    | Decimal.D1 _ => 1 | Decimal.D2 _ => 2 | Decimal.D3 _ => 3
    | Decimal.D4 _ => 4 | Decimal.D5 _ => 5 | Decimal.D6 _ => 6
    | Decimal.D7 _ => 7 | Decimal.D8 _ => 8 | Decimal.D9 _ => 9
    end%Z in
  match Z.to_int n with
  | Decimal.Pos d => first d
  | Decimal.Neg d => (- first d)%Z
  end.

(** [parseInt(v, 10)] when [radix10], [parseInt(v)] otherwise.  An
    array turns into the strings of its elements joined by commas, so
    only its first element is read; [null], [undefined], booleans and
    objects turn into strings without a leading digit. *)
Fixpoint parseIntWith (radix10 : bool) (v : JsValue) : Num :=
  match v with
  | JStr s => parseIntString radix10 s
  | JNum n =>
      if (Z.abs n <? 10 ^ 21)%Z then Int n else Int (leadingDigit n)
  | JArr (x :: _) =>
      match x with
      | JUndefined | JNull => NaN
      | _ => parseIntWith radix10 x
      end
  | _ => NaN
  end.

Definition parseInt (v : JsValue) : Num := parseIntWith false v.

(** [s.substring(1)]; a value without that method raises. *)
Definition substring1 (v : JsValue) : Res string :=
  match v with
  | JStr EmptyString => ok ""
  | JStr (String _ s) => ok s
  | _ => throw TypeError
  end.

End JsOps.
Export JsOps.

(* ================================================================== *)
(** * Filter normalization *)

Definition Clause : Type := (string * JsValue)%type.

(** The [else] branch of the loop of [parseFilter]: an entry whose key
    is not ["$and"]. *)
Definition parseEntry (filter : Clause) : Res (list Clause) :=
  all <- getProp (snd filter) "$all" ;;
  if truthy all then
    values <- iterate all ;;
    ok (map (fun value => (fst filter, value)) values)
  else ok [filter].

(** [parseFilter] on a value that is not an object.  Its entries, if
    any, have index keys, so the test on ["$and"] fails for each of them
    (see [indexKey_not_and]) and only the [else] branch runs. *)
Definition parseLeaf (matches : JsValue) : Res (list Clause) :=
  es <- objectEntries matches ;;
  flatMapM parseEntry es.

(** [parseFilter(matches)].  The recursion is on the sub-filters of an
    ["$and"] array; a string under ["$and"] iterates to one-character
    strings, which have index keys only. *)
Fixpoint parseFilter (matches : JsValue) : Res (list Clause) :=
  match matches with
  | JObj es =>
      flatMapM
        (fun filter : Clause =>
           if fst filter =? "$and" then
             match snd filter with
             | JArr subs => flatMapM parseFilter subs
             | JStr s => flatMapM parseLeaf (chars s)
             | _ => throw TypeError
             end
           else parseEntry filter) es
  | _ => parseLeaf matches
  end.

(** The body of the loop of [parseFilter], as the source has it (lines 91-113);
    [parseFilter_unfold] shows that [parseFilter] runs it over
    [Object.entries(matches)]. *)
Definition parseStep (filter : Clause) : Res (list Clause) :=
  if fst filter =? "$and" then
    subs <- iterate (snd filter) ;;
    flatMapM parseFilter subs
  else parseEntry filter.

(* ================================================================== *)
(** * Entities and queries *)

(** The entity classes a query can be built on: [Product], the
    per-country statistics and one class per tag table. *)
Inductive Entity : Type :=
| Product
| ProductCountry
| TagEntity (tableName : string).

Definition entity_eqb (a b : Entity) : bool :=
  match a, b with
  | Product, Product => true
  | ProductCountry, ProductCountry => true
  | TagEntity x, TagEntity y => x =? y
  | _, _ => false
  end.

(** [productId(entity)]. *)
Definition productId (entity : Entity) : string :=
  if entity_eqb entity Product then "id" else "product_id".

(** [obsoleteWhere(obsolete)]. *)
Definition obsoleteWhere (obsolete : bool) : string :=
  (if obsolete then "" else "not ") ++ "pt.obsolete".

(** The sub-query one clause compiles to,
    [[NOT ]EXISTS (select * from <entity> pt2 where
       pt2.<child id> = pt.<parent id> [and pt2.<column> = <value>])]. *)
Record ExistsClause : Type := {
  ex_not : bool;
  ex_entity : Entity;
  ex_child_id : string;
  ex_parent_id : string;
  ex_value : option (string * JsValue)
}.

Inductive Cond : Type :=
| WRaw (expr : string)
| WExists (clause : ExistsClause).

(** The SQL fragment [getFilterSql] writes for one clause,
    [AND [NOT] EXISTS (SELECT * FROM <table> pt2 WHERE
       pt2.<child id> = pt.<parent id> [AND pt2.<column> = ${value}])]:
    the value is interpolated into the template as the parameter of an
    equality, whatever it is, where [addMatches] hands
    [{ [column]: value }] to the query builder. *)
Record SqlFragment : Type := {
  fr_not : bool;
  fr_entity : Entity;
  fr_child_id : string;
  fr_parent_id : string;
  fr_equals : option (string * JsValue)
}.

Inductive Select : Type :=
| SelStar                      (* select every column *)
| SelCountStar                 (* select the row count as [count] *)
| SelFacet (column : string)   (* select [column] as [_id] and the row count as [count] *)
| SelColumn (column : string). (* select [column] *)

Record QueryBuilder : Type := {
  qb_entity : Entity;
  qb_select : Select;
  qb_distinct : bool;
  qb_where : list Cond;
  qb_groupBy : option string;
  qb_orderBy : option (string * string);
  qb_limit : option JsValue;
  qb_offset : option JsValue
}.

(** [em.createQueryBuilder(entity, 'pt')]. *)
Definition createQueryBuilder (entity : Entity) : QueryBuilder :=
  {| qb_entity := entity; qb_select := SelStar; qb_distinct := false;
     qb_where := []; qb_groupBy := None; qb_orderBy := None;
     qb_limit := None; qb_offset := None |}.

Definition qbSelect (qb : QueryBuilder) (s : Select) : QueryBuilder :=
  {| qb_entity := qb_entity qb; qb_select := s; qb_distinct := qb_distinct qb;
     qb_where := qb_where qb; qb_groupBy := qb_groupBy qb;
     qb_orderBy := qb_orderBy qb; qb_limit := qb_limit qb;
     qb_offset := qb_offset qb |}.

Definition qbDistinct (qb : QueryBuilder) : QueryBuilder :=
  {| qb_entity := qb_entity qb; qb_select := qb_select qb; qb_distinct := true;
     qb_where := qb_where qb; qb_groupBy := qb_groupBy qb;
     qb_orderBy := qb_orderBy qb; qb_limit := qb_limit qb;
     qb_offset := qb_offset qb |}.

(** [qb.where(c)] on a builder without conditions and [qb.andWhere(c)]
    both add [c] to the conjunction. *)
Definition andWhere (qb : QueryBuilder) (c : Cond) : QueryBuilder :=
  {| qb_entity := qb_entity qb; qb_select := qb_select qb;
     qb_distinct := qb_distinct qb; qb_where := qb_where qb ++ [c];
     qb_groupBy := qb_groupBy qb; qb_orderBy := qb_orderBy qb;
     qb_limit := qb_limit qb; qb_offset := qb_offset qb |}.

Definition qbGroupOrder (qb : QueryBuilder) (column : string) : QueryBuilder :=
  {| qb_entity := qb_entity qb; qb_select := qb_select qb;
     qb_distinct := qb_distinct qb; qb_where := qb_where qb;
     qb_groupBy := Some column; qb_orderBy := Some ("2", "DESC");
     qb_limit := qb_limit qb; qb_offset := qb_offset qb |}.

Definition qbLimit (qb : QueryBuilder) (limit : JsValue) : QueryBuilder :=
  {| qb_entity := qb_entity qb; qb_select := qb_select qb;
     qb_distinct := qb_distinct qb; qb_where := qb_where qb;
     qb_groupBy := qb_groupBy qb; qb_orderBy := qb_orderBy qb;
     qb_limit := Some limit; qb_offset := qb_offset qb |}.

Definition qbOffset (qb : QueryBuilder) (skip : JsValue) : QueryBuilder :=
  {| qb_entity := qb_entity qb; qb_select := qb_select qb;
     qb_distinct := qb_distinct qb; qb_where := qb_where qb;
     qb_groupBy := qb_groupBy qb; qb_orderBy := qb_orderBy qb;
     qb_limit := qb_limit qb; qb_offset := Some skip |}.

(** What is handed to [execute]: a builder, or the builder
    [createQueryBuilder(qb, 'temp')] wrapped around one, selecting its
    row count as [count]. *)
Inductive Statement : Type :=
| Query (qb : QueryBuilder)
| CountRows (inner : QueryBuilder).

(** The ranking statement of [find], by the values interpolated in it. *)
Record RankQuery : Type := {
  rq_countryId : JsValue;
  rq_obsolete : bool;
  rq_whereClause : list SqlFragment;
  rq_limit : option JsValue;
  rq_offset : option JsValue
}.

(** Calls that leave the service. *)
Inductive Effect : Type :=
| GetLoadedTags
| Execute (stmt : Statement)
| SqlCountryId (tag : JsValue)
| SqlRankedCodes (q : RankQuery)
| MongoFind (codes : list JsValue) (projection : JsValue).

(** A computation of the service: the calls it made, in order, and how
    it ended. *)
Definition M (A : Type) : Type := (list Effect * Res A)%type.

Definition ret {A} (a : A) : M A := ([], ok a).
Definition lift {A} (r : Res A) : M A := ([], r).
Definition perform {A} (e : Effect) (answer : A) : M A := ([e], ok answer).
Definition mbind {A B} (m : M A) (k : A -> M B) : M B :=
  match m with
  | (t, inl e) => (t, inl e)
  | (t, inr a) => let (t', r) := k a in (t ++ t', r)
  end.

Definition trace {A} (m : M A) : list Effect := fst m.
Definition outcome {A} (m : M A) : Res A := snd m.

Declare Scope eff_scope.
Delimit Scope eff_scope with eff.
Notation "x <~ e ;; k" := (mbind e (fun x => k))
  (at level 61, e at next level, right associativity) : eff_scope.
Notation "' p <~ e ;; k" := (mbind e (fun x => match x with p => k end))
  (at level 61, p pattern, e at next level, right associativity) : eff_scope.
Local Open Scope eff_scope.

Definition includes (x : string) (l : list string) : bool :=
  existsb (String.eqb x) l.

(** [value == null || value.length === 0]. *)
Definition isSentinel (value : JsValue) : bool :=
  isNullish value ||
  match getProp value "length" with
  | inr (JNum 0%Z) => true
  | _ => false
  end.

(** What one round of the loop over the filters leaves in its
    variables. *)
Record Match : Type := {
  m_entity : Entity;
  m_column : string;
  m_whereValue : JsValue;
  m_not : JsValue
}.

(** [`${matchTag} ${not ? '!=' : '=='} ${whereValue}`], by its parts. *)
Definition WhereLog : Type := (string * bool * JsValue)%type.

(* ================================================================== *)
(** * Reading a pipeline *)

(** [(body as any[]).find((o) => o[key])?.[key]]. *)
Definition findStage (body : JsValue) (key : string) : Res JsValue :=
  match body with
  | JArr stages =>
      (fix go (stages : list JsValue) : Res JsValue :=
         match stages with
         | [] => ok JUndefined
         | o :: stages' =>
             v <- getProp o key ;;
             if truthy v then ok v else go stages'
         end) stages
  | _ => throw TypeError
  end.

(** [(body as any[]).some((o) => o[key])]. *)
Definition someStage (body : JsValue) (key : string) : Res bool :=
  v <- findStage body key ;; ok (truthy v).

(** The stages [aggregate] reads off a pipeline (lines 30-40), and the
    tag of the group stage (lines 42-43). *)
Record Stages : Type := {
  st_match : JsValue;
  st_group : JsValue;
  st_count : bool;
  st_limit : JsValue;
  st_skip : JsValue
}.

Definition readStages (body : JsValue) : Res Stages :=
  match_ <- findStage body "$match" ;;
  group <- findStage body "$group" ;;
  count <- someStage body "$count" ;;
  limit <- findStage body "$limit" ;;
  skip <- findStage body "$skip" ;;
  ok {| st_match := match_; st_group := group; st_count := count;
        st_limit := limit; st_skip := skip |}.

Definition groupTag (group : JsValue) : Res string :=
  id <- getProp group "_id" ;;
  tag <- substring1 id ;;
  ok (if tag =? "users_tags" then "creator" else tag).

(* ================================================================== *)
(** * The query service *)

Definition Row : Type := list (string * JsValue).

(** The relational mirror: its tables, each row a list of column
    values with [JNull] for SQL NULL, and the order in which it yields
    what a statement leaves unordered.  SQL fixes neither the order of
    the rows of a statement without [ORDER BY] nor the order of groups
    with equal counts under [ORDER BY 2 DESC]: each is some permutation,
    of the mirror's choosing, which may depend on the statement. *)
Record Mirror : Type := {
  tables :> Entity -> list Row;
  rowOrder : QueryBuilder -> list Row -> list Row;
  groupOrder :
    QueryBuilder -> list (JsValue * nat) -> list (JsValue * nat);
  rowOrder_perm : forall qb rows, Permutation (rowOrder qb rows) rows;
  groupOrder_perm : forall qb groups, Permutation (groupOrder qb groups) groups
}.

(** A mirror that yields rows in the order of its tables and groups in
    the order of first appearance. *)
Definition mirrorOf (t : Entity -> list Row) : Mirror :=
  {| tables := t;
     rowOrder := fun _ rows => rows;
     groupOrder := fun _ groups => groups;
     rowOrder_perm := fun _ rows => Permutation_refl rows;
     groupOrder_perm := fun _ groups => Permutation_refl groups |}.

Section QueryService.

(** [MAPPED_FIELDS] of [entities/product], [ProductTagMap.MAPPED_TAGS]
    and [ProductCountry.TAG] are declared outside the service file; the
    service is read for any value of them. *)
Variable MAPPED_FIELDS : list string.
Variable MAPPED_TAGS : string -> option Entity.
Variable ProductCountry_TAG : string.

(** What the stores answer: the Loaded-Tag Registry, the tables of the
    mirror, the [country] table by tag, the ranking statement of [find],
    and the document store's cursor (the documents it yields before it
    is exhausted). *)
Variable loadedTags : list string.
Variable db : Mirror.
Variable countryRows : JsValue -> list JsValue.
Variable rankedRows : RankQuery -> list JsValue.
Variable mongoFind : list JsValue -> JsValue -> list JsValue.

(** [tagService.getLoadedTags()]. *)
Definition getLoadedTags : M (list string) := perform GetLoadedTags loadedTags.

(** [getEntityAndColumn(tag)]. *)
Definition getEntityAndColumn (tag : string) : M (Entity * string) :=
  if (tag =? "") || includes tag MAPPED_FIELDS then ret (Product, tag)
  else
    match MAPPED_TAGS tag with
    | Some entity =>
        loaded <~ getLoadedTags ;;
        if negb (includes tag loaded)
        then lift (throwUnprocessableException (TagNotLoaded tag))
        else ret (entity, "value")
    | None => lift (throwUnprocessableException (TagNotSupported tag))
    end.

(** The loop over the contents of [$in] (lines 164-181 and 383-400). *)
Fixpoint scanIn (matchEntity : Entity) (values : list JsValue)
    (whereValue not : JsValue) : Res (JsValue * JsValue) :=
  match values with
  | [] => ok (whereValue, not)
  | value :: values' =>
      if isSentinel value then
        if entity_eqb matchEntity Product then ok (JNull, not)
        else ok (JUndefined, JBool (negb (truthy not)))
      else if isObject value then
        throwUnprocessableException (UnableToProcess whereValue)
      else scanIn matchEntity values' whereValue not
  end.

(** [whereValue] and [not] once the value of a clause has been looked at
    (lines 135-182 and 354-401). *)
Definition matchValueOf (matchEntity : Entity) (matchValue : JsValue)
  : Res (JsValue * JsValue) :=
  let whereValue := matchValue in
  let not := getPropOpt matchValue "$ne" in
  let whereValue := if truthy not then not else whereValue in
  if isObject whereValue then
    keys <- objectKeys whereValue ;;
    let operator := hd "" keys in
    unable <-
      (if negb (List.length keys =? 1)%nat then ok true
       else if negb (includes operator ["$in"; "$nin"]) then ok true
       else
         operand <- getProp whereValue operator ;;
         len <- getProp operand "length" ;;
         ok (negb (truthy len))) ;;
    if unable : bool then
      throwUnprocessableException (UnableToProcess whereValue)
    else
      let isNin := operator =? "$nin" in
      let whereValue :=
        if isNin then JObj [("$in", getPropOpt whereValue "$nin")]
        else whereValue in
      let not := if isNin then JBool (negb (truthy not)) else not in
      operand <- getProp whereValue "$in" ;;
      values <- iterate operand ;;
      scanIn matchEntity values whereValue not
  else ok (whereValue, not).

(** One round of the loop of [addMatches] up to line 182, which is also
    one round of that of [getFilterSql] up to line 401. *)
Definition matchClause (filter : Clause) : M Match :=
  let matchTag := fst filter in
  let matchValue := snd filter in
  ' (matchEntity, matchColumn) <~ getEntityAndColumn matchTag ;;
  ' (whereValue, not) <~ lift (matchValueOf matchEntity matchValue) ;;
  ret {| m_entity := matchEntity; m_column := matchColumn;
         m_whereValue := whereValue; m_not := not |}.

(** The sub-query built from the variables of a round, for a parent
    entity (lines 185-200 and 404-416). *)
Definition existsClause (parentEntity : Entity) (m : Match) : ExistsClause :=
  {| ex_not := truthy (m_not m);
     ex_entity := m_entity m;
     ex_child_id := productId (m_entity m);
     ex_parent_id := productId parentEntity;
     ex_value :=
       match m_whereValue m with
       | JUndefined => None
       | whereValue => Some (m_column m, whereValue)
       end |}.

(** The fragment written from the variables of a round, for a parent
    entity (lines 404-416). *)
Definition sqlFragment (parentEntity : Entity) (m : Match) : SqlFragment :=
  {| fr_not := truthy (m_not m);
     fr_entity := m_entity m;
     fr_child_id := productId (m_entity m);
     fr_parent_id := productId parentEntity;
     fr_equals :=
       match m_whereValue m with
       | JUndefined => None
       | whereValue => Some (m_column m, whereValue)
       end |}.

(** [addMatches(filters, qb, parentEntity)]: the builder with the
    clauses added, and the log. *)
Fixpoint addMatches (filters : list Clause) (qb : QueryBuilder)
    (parentEntity : Entity) : M (QueryBuilder * list WhereLog) :=
  match filters with
  | [] => ret (qb, [])
  | filter :: filters' =>
      m <~ matchClause filter ;;
      let qb := andWhere qb (WExists (existsClause parentEntity m)) in
      let entry := (fst filter, truthy (m_not m), m_whereValue m) in
      ' (qb, whereLog) <~ addMatches filters' qb parentEntity ;;
      ret (qb, entry :: whereLog)
  end.

(** [getFilterSql(filters, parentEntity)]: the fragments of
    [whereClause], one [AND [NOT] EXISTS (...)] each. *)
Fixpoint getFilterSql (filters : list Clause) (parentEntity : Entity)
  : M (list SqlFragment) :=
  match filters with
  | [] => ret []
  | filter :: filters' =>
      m <~ matchClause filter ;;
      whereClause <~ getFilterSql filters' parentEntity ;;
      ret (sqlFragment parentEntity m :: whereClause)
  end.

(** ** The statements on the mirror

    The statements the service builds are answered from the tables of
    [db].  The columns [id], [product_id] and [obsolete], which the
    service names itself, read as NULL in a row that does not list
    them; a column that comes from the request (the column of a
    sub-query, the grouping column) must be listed by the row, as the
    mirror refuses a statement on a column its table does not have.  A
    statement of another shape than those the service builds, a
    comparison of a cell with a value of another kind (which the mirror
    would coerce or refuse), and a negative limit or offset are
    answered with [StoreError]. *)

(** SQL [a = b] on the key columns: never true of a NULL. *)
Definition sqlEq (a b : JsValue) : bool :=
  negb (isNullish a) && negb (isNullish b) && strictEq a b.

(** Two cells fall in the same group (and are not distinct) when both
    are NULL or they are equal. *)
Definition sameKey (a b : JsValue) : bool :=
  (isNullish a && isNullish b) || strictEq a b.

(** The cell of a column the request names. *)
Definition cell (column : string) (row : Row) : Res JsValue :=
  match find (fun e : string * JsValue => fst e =? column) row with
  | Some e => ok (snd e)
  | None => throw StoreError
  end.

Definition sameKind (a b : JsValue) : bool :=
  match a, b with
  | JBool _, JBool _ | JNum _, JNum _ | JStr _, JStr _ => true
  | _, _ => false
  end.

(** SQL [cell = value] for a scalar value of the kind of the column:
    never true of a NULL cell. *)
Definition equals (c value : JsValue) : Res bool :=
  if isNullish c then ok false
  else if sameKind c value then ok (strictEq c value)
  else throw StoreError.

(** The condition the object-relational mapper makes of
    [{ [column]: whereValue }]: [IS NULL] for [null], [IN (...)] for
    [{ $in: [...] }], equality for a scalar. *)
Definition valueTest (whereValue c : JsValue) : Res bool :=
  match whereValue with
  | JNull => ok (isNullish c)
  | JObj [(k, JArr l)] =>
      if k =? "$in" then
        hits <- mapM (equals c) l ;;
        ok (existsb (fun b : bool => b) hits)
      else throw StoreError
  | JUndefined | JArr _ | JObj _ => throw StoreError
  | v => equals c v
  end.

Fixpoint allM {A} (f : A -> Res bool) (l : list A) : Res bool :=
  match l with
  | [] => ok true
  | x :: l' => b <- f x ;; bs <- allM f l' ;; ok (b && bs)
  end.

Fixpoint filterM {A} (f : A -> Res bool) (l : list A) : Res (list A) :=
  match l with
  | [] => ok []
  | x :: l' =>
      b <- f x ;; ys <- filterM f l' ;; ok (if b : bool then x :: ys else ys)
  end.

(** Does a row of the sub-query's table satisfy its [where]? *)
Definition subRowMatches (c : ExistsClause) (pt pt2 : Row) : Res bool :=
  if sqlEq (lookup (ex_child_id c) pt2) (lookup (ex_parent_id c) pt) then
    match ex_value c with
    | None => ok true
    | Some (column, whereValue) =>
        v <- cell column pt2 ;; valueTest whereValue v
    end
  else ok false.

Definition evalCond (cond : Cond) (pt : Row) : Res bool :=
  match cond with
  | WRaw expr =>
      if expr =? "not pt.obsolete" then
        ok (strictEq (lookup "obsolete" pt) (JBool false))
      else if expr =? "pt.obsolete" then
        ok (strictEq (lookup "obsolete" pt) (JBool true))
      else throw StoreError
  | WExists c =>
      hits <- mapM (subRowMatches c pt) (db (ex_entity c)) ;;
      ok (xorb (ex_not c) (existsb (fun b : bool => b) hits))
  end.

(** The rows of the builder's table that satisfy its conjunction. *)
Definition matchingRows (qb : QueryBuilder) : Res (list Row) :=
  filterM (fun pt => allM (fun c => evalCond c pt) (qb_where qb))
          (db (qb_entity qb)).

Fixpoint distinct (l : list JsValue) : list JsValue :=
  match l with
  | [] => []
  | x :: l' => x :: filter (fun y => negb (sameKey x y)) (distinct l')
  end.

(** The row of a [count] column: the driver hands the number over as
    its decimal numeral. *)
Definition countRow (n : nat) : JsValue := JObj [("count", JStr (decimal n))].

(** A row of [select <column> _id, count] grouped by the column. *)
Definition facetRow (g : JsValue * nat) : JsValue :=
  JObj [("_id", fst g); ("count", JStr (decimal (snd g)))].

Definition facets (cells : list JsValue) : list (JsValue * nat) :=
  map (fun k => (k, List.length (filter (sameKey k) cells))) (distinct cells).

Fixpoint insertDesc (g : JsValue * nat) (l : list (JsValue * nat))
  : list (JsValue * nat) :=
  match l with
  | [] => [g]
  | h :: t => if (snd h <=? snd g)%nat then g :: h :: t else h :: insertDesc g t
  end.

(** [ORDER BY 2 DESC], stable: groups with equal counts stay in the
    order they come in. *)
Definition sortDesc (l : list (JsValue * nat)) : list (JsValue * nat) :=
  fold_right insertDesc [] l.

(** How the query builder reads what [limit] and [offset] are given:
    through [parseInt(value, 10)]; what does not read as a number is
    ignored (with a warning), and a negative number is refused, by the
    builder for an offset and by the mirror for a limit. *)
Definition asCount (v : option JsValue) : Res (option nat) :=
  match v with
  | None => ok None
  | Some x =>
      match parseIntWith true x with
      | NaN => ok None
      | Int n =>
          if (0 <=? n)%Z then ok (Some (Z.to_nat n)) else throw StoreError
      end
  end.

Definition page {A} (limit offset : option nat) (l : list A) : list A :=
  let l := match offset with Some k => skipn k l | None => l end in
  match limit with Some k => firstn k l | None => l end.

Definition runQuery (qb : QueryBuilder) : Res (list JsValue) :=
  rows <- matchingRows qb ;;
  match qb_select qb, qb_distinct qb, qb_groupBy qb with
  | SelStar, false, None => ok (map JObj (rowOrder db qb rows))
  | SelCountStar, false, None => ok [countRow (List.length rows)]
  | SelColumn column, true, None =>
      cells <- mapM (cell column) rows ;;
      ok (map (fun v => JObj [(column, v)]) (distinct cells))
  | SelFacet column, false, Some by_ =>
      if by_ =? column then
        cells <- mapM (cell column) rows ;;
        limit <- asCount (qb_limit qb) ;;
        offset <- asCount (qb_offset qb) ;;
        ok (map facetRow
                (page limit offset
                      (sortDesc (groupOrder db qb (facets cells)))))
      else throw StoreError
  | _, _, _ => throw StoreError
  end.

Definition runStatement (stmt : Statement) : Res (list JsValue) :=
  match stmt with
  | Query qb => runQuery qb
  | CountRows inner => temp <- runQuery inner ;; ok [countRow (List.length temp)]
  end.

(** [qb.execute()]. *)
Definition execute (stmt : Statement) : M (list JsValue) :=
  ([Execute stmt], runStatement stmt).

(** ** The operations *)

(** [count(body, obsolete)]. *)
Definition count (body : JsValue) (obsolete : bool) : M Num :=
  filters <~ lift (parseFilter (if isNullish body then JObj [] else body)) ;;
  let entity := Product in
  let qb := createQueryBuilder entity in
  let qb := qbSelect qb SelCountStar in
  let qb := andWhere qb (WRaw (obsoleteWhere obsolete)) in
  ' (qb, whereLog) <~ addMatches filters qb entity ;;
  results <~ execute (Query qb) ;;
  response <~ lift (getProp (nth 0 results JUndefined) "count") ;;
  ret (parseInt response).

(** [select(body)]. *)
Definition select (body : JsValue) : M (list JsValue) :=
  let entity := Product in
  let qb := createQueryBuilder entity in
  let qb := qbSelect qb SelStar in
  filters <~ lift (parseFilter body) ;;
  ' (qb, whereLog) <~ addMatches filters qb entity ;;
  results <~ execute (Query qb) ;;
  ret results.

(** [aggregate(body, obsolete)]. *)
Definition aggregate (body : JsValue) (obsolete : bool) : M JsValue :=
  match_ <~ lift (findStage body "$match") ;;
  group <~ lift (findStage body "$group") ;;
  count <~ lift (someStage body "$count") ;;
  limit <~ lift (findStage body "$limit") ;;
  skip <~ lift (findStage body "$skip") ;;
  tag <~ lift (id <- getProp group "_id" ;; substring1 id) ;;
  let tag := if tag =? "users_tags" then "creator" else tag in
  ' (entity, column) <~ getEntityAndColumn tag ;;
  let qb := createQueryBuilder entity in
  let qb :=
    if negb count then qbSelect qb (SelFacet column)
    else qbDistinct (qbSelect qb (SelColumn column)) in
  let qb := andWhere qb (WRaw (obsoleteWhere obsolete)) in
  filters <~ lift (parseFilter match_) ;;
  ' (qb, whereLog) <~ addMatches filters qb entity ;;
  let stmt :=
    if count : bool then CountRows qb
    else
      let qb := qbGroupOrder qb column in
      let qb := if truthy limit then qbLimit qb limit else qb in
      let qb := if truthy skip then qbOffset qb skip else qb in
      Query qb in
  results <~ execute stmt ;;
  if count : bool then
    n <~ lift (getProp (nth 0 results JUndefined) "count") ;;
    ret (JObj [(tag, n)])
  else ret (JArr results).

(** [aggregate] from line 45 on, the stages and the tag of the group
    stage being read ([aggregate_unfold]). *)
Definition aggregateFrom (obsolete : bool) (st : Stages) (tag : string)
  : M JsValue :=
  ' (entity, column) <~ getEntityAndColumn tag ;;
  let qb := createQueryBuilder entity in
  let qb :=
    if negb (st_count st) then qbSelect qb (SelFacet column)
    else qbDistinct (qbSelect qb (SelColumn column)) in
  let qb := andWhere qb (WRaw (obsoleteWhere obsolete)) in
  filters <~ lift (parseFilter (st_match st)) ;;
  ' (qb, whereLog) <~ addMatches filters qb entity ;;
  let stmt :=
    if st_count st then CountRows qb
    else
      let qb := qbGroupOrder qb column in
      let qb := if truthy (st_limit st) then qbLimit qb (st_limit st) else qb in
      let qb := if truthy (st_skip st) then qbOffset qb (st_skip st) else qb in
      Query qb in
  results <~ execute stmt ;;
  if st_count st then
    n <~ lift (getProp (nth 0 results JUndefined) "count") ;;
    ret (JObj [(tag, n)])
  else ret (JArr results).

(** ** The paginated popularity lookup *)

(** [codes.indexOf(x)]. *)
Fixpoint indexOf (codes : list JsValue) (x : JsValue) : option nat :=
  match codes with
  | [] => None
  | y :: codes' =>
      if strictEq y x then Some O else option_map S (indexOf codes' x)
  end.

(** [arr[i] = x] on a JavaScript array, [None] an empty slot: writing
    past the end extends the array, and the slots in between stay
    empty. *)
Fixpoint setIndex {A} (arr : list (option A)) (i : nat) (x : A)
  : list (option A) :=
  match i, arr with
  | O, [] => [Some x]
  | O, _ :: arr' => Some x :: arr'
  | S i', [] => None :: setIndex [] i' x
  | S i', slot :: arr' => slot :: setIndex arr' i' x
  end.

(** [arr.push(x)]. *)
Definition push {A} (arr : list (option A)) (x : A) : list (option A) :=
  arr ++ [Some x].

(** The loop over the cursor (lines 320-329). *)
Fixpoint collect (productCodes : list JsValue) (cursor : list JsValue)
    (mongodbResults : list (option JsValue)) : Res (list (option JsValue)) :=
  match cursor with
  | [] => ok mongodbResults
  | data :: cursor' =>
      if negb (truthy data) then ok mongodbResults
      else
        code <- getProp data "code" ;;
        match indexOf productCodes code with
        | Some sortIndex =>
            collect productCodes cursor' (setIndex mongodbResults sortIndex data)
        | None => collect productCodes cursor' (push mongodbResults data)
        end
  end.

Definition isString (v : JsValue) : bool :=
  match v with
  | JStr _ => true
  | _ => false
  end.

(** [delete o[key]]. *)
Definition deleteProp (o : JsValue) (key : string) : JsValue :=
  match o with
  | JObj es => JObj (removeKey key es)
  | _ => o
  end.

(** The test on [body.sort] (lines 268-272). *)
Definition unsupportedSort (body : JsValue) : Res bool :=
  sort <- getProp body "sort" ;;
  if negb (strictEq (getPropOpt sort "length") (JNum 1)) then ok true
  else
    first <- getProp sort "0" ;;
    key <- getProp first "0" ;;
    if negb (strictEq key (JStr "popularity_key")) then ok true
    else
      direction <- getProp first "1" ;;
      ok (negb (strictEq direction (JNum (-1)))).

(** [find(body, obsolete)]. *)
Definition find (body : JsValue) (obsolete : bool) : M (list (option JsValue)) :=
  unsupported <~ lift (unsupportedSort body) ;;
  if unsupported : bool then
    lift (throwUnprocessableException OnlyDescendingPopularity)
  else
  loaded <~ getLoadedTags ;;
  if negb (includes ProductCountry_TAG loaded) then
    lift (throwUnprocessableException ScansNotLoaded)
  else
  filter <~ lift (getProp body "filter") ;;
  countryTag <~ lift (getProp filter "countries_tags") ;;
  if negb (strictEq countryTag JUndefined) && negb (isString countryTag) then
    lift (throwUnprocessableException MultipleCountries)
  else
  let countryTagValue :=
    if isNullish countryTag then JStr "en:world" else countryTag in
  let filter := deleteProp filter "countries_tags" in
  filters <~ lift (parseFilter (if isNullish filter then JObj [] else filter)) ;;
  countries <~ perform (SqlCountryId countryTagValue)
                       (countryRows countryTagValue) ;;
  countryId <~ lift (getProp (nth 0 countries JUndefined) "id") ;;
  limit <~ lift (getProp body "limit") ;;
  skip <~ lift (getProp body "skip") ;;
  whereClause <~ getFilterSql filters ProductCountry ;;
  let q := {| rq_countryId := countryId; rq_obsolete := obsolete;
              rq_whereClause := whereClause;
              rq_limit := if truthy limit then Some limit else None;
              rq_offset := if truthy skip then Some skip else None |} in
  sqlResults <~ perform (SqlRankedCodes q) (rankedRows q) ;;
  productCodes <~ lift (mapM (fun r => getProp r "code") sqlResults) ;;
  projection <~ lift (getProp body "projection") ;;
  cursor <~ perform (MongoFind productCodes projection)
                    (mongoFind productCodes projection) ;;
  lift (collect productCodes cursor []).

End QueryService.

(* ================================================================== *)
(** * The event ingestor *)

Module Messages.

Local Open Scope Z_scope.

(** The fields of a change message the ingestor consumes. *)
Record Payload : Type := {
  code : string;
  action : option string;
  user_id : option string;
  rev : option Z;
  timestamp : option Z;
  product_type : option string
}.

(** An inbound event.  The tests of [messageTime] pass events without an
    id and without a message. *)
Record Event : Type := {
  id : option string;
  message : option Payload
}.

Definition isDigit (c : ascii) : bool :=
  let n := nat_of_ascii c in (48 <=? n)%nat && (n <=? 57)%nat.

Definition digitValue (c : ascii) : Z := Z.of_nat (nat_of_ascii c - 48).

(** Modelled from the spec: the "numeric epoch-millisecond prefix
    embedded in the event id (before a separator)" of section 4.2
    ([MessagesService.messageTime] is not among the sources): the number
    written by the decimal digits that stand before the first ["-"] of
    an id, when there are some and nothing else. *)
Fixpoint prefixBefore (s : string) (acc : option Z) : option Z :=
  match s with
  | EmptyString => None
  | String c s' =>
      if Ascii.eqb c "-" then acc
      else if isDigit c then
        prefixBefore s' (Some (10 * match acc with Some a => a | None => 0 end
                               + digitValue c))
      else None
  end.

Definition idTime (id : option string) : option Z :=
  match id with
  | Some s => prefixBefore s None
  | None => None
  end.

Definition timestampOf (e : Event) : option Z :=
  match message e with
  | Some m => timestamp m
  | None => None
  end.

(** Modelled from the spec: [MessagesService.messageTime] lives in
    [messages.service.ts], which is not among the sources; only its tests
    are (the [describe('messageTime')] block).  The three sources of an
    event's time are those of section 4.2 of the specification: the
    second-granularity [timestamp] of the message, the millisecond
    prefix of the id, the current time [now].  Their precedence is the
    one the tests observe: the test "should use timestamp if provided"
    passes the id ["100-0"] together with a timestamp and expects the
    timestamp.  The result is in epoch milliseconds. *)
Definition messageTime (e : Event) (now : Z) : Z :=
  match timestampOf e with
  | Some seconds => seconds * 1000
  | None =>
      match idTime (id e) with
      | Some millis => millis
      | None => now
      end
  end.

(** The same three sources in the order in which the sentence of
    section 4.2 of the specification lists them: the prefix of the id
    first, the timestamp second.  It is what the tests are compared
    with; the ingestor below does not use it. *)
Definition messageTimeAsSpecified (e : Event) (now : Z) : Z :=
  match idTime (id e) with
  | Some millis => millis
  | None =>
      match timestampOf e with
      | Some seconds => seconds * 1000
      | None => now
      end
  end.

(** ** The mirror tables the ingestor writes

    The tables are those of section 3 of the specification, with the
    columns the ingestor reads or writes.  Surrogate ids are positions:
    a row's id is the number of rows created before it. *)

Record ProductRow : Type := {
  p_code : string;
  p_revision : Z;
  p_owners_tags : option string
}.

Record ProductUpdate : Type := {
  pu_product : nat;
  pu_revision : Z;
  pu_update_type : option string;
  pu_contributor : option nat;
  pu_updated_at : Z
}.

Record ProductUpdateEvent : Type := {
  pue_id : option string;
  pue_message : Payload;
  pue_received_at : Z
}.

Record Store : Type := {
  product : list ProductRow;
  contributor : list string;
  product_update_event : list ProductUpdateEvent;
  product_update : list ProductUpdate
}.

Fixpoint position {A} (p : A -> bool) (l : list A) : option nat :=
  match l with
  | [] => None
  | x :: l' => if p x then Some O else option_map S (position p l')
  end.

Definition productIdOf (products : list ProductRow) (c : string) : option nat :=
  position (fun p => p_code p =? c)%string products.

(** Modelled from the spec: step 4 of section 4.2
    ([MessagesService.create] is not among the sources), resolve or
    create the product of a code; a product seen for the first time
    starts at revision 0, the default section 9 suggests. *)
Definition resolveProduct (products : list ProductRow) (c : string)
  : list ProductRow * nat :=
  match productIdOf products c with
  | Some pid => (products, pid)
  | None =>
      (products ++ [{| p_code := c; p_revision := 0; p_owners_tags := None |}],
       List.length products)
  end.

(** Modelled from the spec: step 3 of section 4.2
    ([MessagesService.create] is not among the sources), resolve or
    create the contributor of a user identifier; a new contributor gets
    the next id in creation order. *)
Definition resolveContributor (contributors : list string) (u : option string)
  : list string * option nat :=
  match u with
  | None => (contributors, None)
  | Some user =>
      match position (String.eqb user) contributors with
      | Some cid => (contributors, Some cid)
      | None => (contributors ++ [user], Some (List.length contributors))
      end
  end.

Definition storedRevision (products : list ProductRow) (pid : nat) : Z :=
  match nth_error products pid with
  | Some p => p_revision p
  | None => 0
  end.

(** Modelled from the spec: step 4 of section 4.2
    ([MessagesService.create] is not among the sources), advance the
    stored revision of product [pid] to at least [r]. *)
Fixpoint advanceRevision (products : list ProductRow) (pid : nat) (r : Z)
  : list ProductRow :=
  match products, pid with
  | [], _ => []
  | p :: products', O =>
      {| p_code := p_code p; p_revision := Z.max (p_revision p) r;
         p_owners_tags := p_owners_tags p |} :: products'
  | p :: products', S pid' => p :: advanceRevision products' pid' r
  end.

Definition hasKey (pid : nat) (r : Z) (u : ProductUpdate) : bool :=
  (pu_product u =? pid)%nat && (pu_revision u =? r).

(** Modelled from the spec: step 5 of section 4.2
    ([MessagesService.create] is not among the sources), insert the row
    unless one with its (product, revision) is there. *)
Definition insertOrSkip (rows : list ProductUpdate) (u : ProductUpdate)
  : list ProductUpdate :=
  if existsb (hasKey (pu_product u) (pu_revision u)) rows then rows
  else rows ++ [u].

(** Modelled from the spec: [MessagesService.create] lives in
    [messages.service.ts], which is not among the sources; only its tests
    are.  This is one event through steps 2 to 5 of section 4.2 of the
    specification: append to the audit log, resolve or create the
    contributor, resolve or create the product and settle the revision,
    insert the [ProductUpdate] row or skip it.  Sanitising (step 1) and
    the scoped sync (step 6) write none of these tables and are left
    out.  An event without a message is left aside. *)
Definition ingestEvent (now : Z) (s : Store) (e : Event) : Store :=
  match message e with
  | None => s
  | Some m =>
      let at_ := messageTime e now in
      let log := product_update_event s ++
                 [{| pue_id := id e; pue_message := m; pue_received_at := at_ |}] in
      let (contributors, cid) := resolveContributor (contributor s) (user_id m) in
      let (products, pid) := resolveProduct (product s) (code m) in
      let revision :=
        match rev m with
        | Some r => r
        | None => storedRevision products pid
        end in
      let products := advanceRevision products pid revision in
      {| product := products;
         contributor := contributors;
         product_update_event := log;
         product_update :=
           insertOrSkip (product_update s)
             {| pu_product := pid; pu_revision := revision;
                pu_update_type := action m; pu_contributor := cid;
                pu_updated_at := at_ |} |}
  end.

(** Modelled from the spec: the batch entry point
    [ingest(events, suppressSync)] of section 4.2, as far as the mirror
    tables go: the events of the batch, in order. *)
Definition create (now : Z) (s : Store) (events : list Event) : Store :=
  fold_left (ingestEvent now) events s.

(** Several batches, one after the other. *)
Definition createAll (now : Z) (s : Store) (batches : list (list Event)) : Store :=
  fold_left (create now) batches s.

Definition rowsFor (s : Store) (pid : nat) (r : Z) : list ProductUpdate :=
  filter (hasKey pid r) (product_update s).

Definition option_eqb (a b : option string) : bool :=
  match a, b with
  | None, None => true
  | Some x, Some y => (x =? y)%string
  | _, _ => false
  end.

Definition ownerOf (s : Store) (pid : nat) : option string :=
  match nth_error (product s) pid with
  | Some p => p_owners_tags p
  | None => None
  end.

(** Modelled from the spec: the view [ProductUpdatesByOwner] of
    section 3, whose definition is in a migration that is not among the
    sources: the rows of [ProductUpdate] joined to [Product], grouped by
    owner tag and update type; [update_count] counts the rows of a
    group. *)
Definition update_count (s : Store) (owner action_ : option string) : nat :=
  List.length
    (filter (fun u => option_eqb (ownerOf s (pu_product u)) owner
                      && option_eqb (pu_update_type u) action_)
            (product_update s)).

(** Modelled from the spec: the same view; [product_count] counts the
    distinct products of a group. *)
Definition product_count (s : Store) (owner action_ : option string) : nat :=
  List.length
    (nodup Nat.eq_dec
       (map pu_product
          (filter (fun u => option_eqb (ownerOf s (pu_product u)) owner
                            && option_eqb (pu_update_type u) action_)
                  (product_update s)))).

(** The event carries this code and this revision. *)
Definition carries (c : string) (r : Z) (e : Event) : Prop :=
  exists m, message e = Some m /\ code m = c /\ rev m = Some r.

(** No two rows of [ProductUpdate] share a (product, revision): the
    unique key of the table. *)
Definition keyOf (u : ProductUpdate) : nat * Z := (pu_product u, pu_revision u).

Definition uniqueKeys (s : Store) : Prop :=
  NoDup (map keyOf (product_update s)).

(** A message that carries only a timestamp, as in the tests of
    [messageTime]. *)
Definition stamped (seconds : Z) : Payload :=
  {| code := "c"; action := None; user_id := None; rev := None;
     timestamp := Some seconds; product_type := None |}.

(** The number a string of decimal digits writes. *)
Fixpoint numeralFrom (digits : string) (acc : Z) : Z :=
  match digits with
  | EmptyString => acc
  | String c digits' => numeralFrom digits' (10 * acc + digitValue c)
  end.

Definition numeral (digits : string) : Z := numeralFrom digits 0.

Fixpoint allDigits (s : string) : bool :=
  match s with
  | EmptyString => true
  | String c s' => isDigit c && allDigits s'
  end.

(** The id has the numeric prefix [digits]: it is [digits], one decimal
    digit at least and nothing but decimal digits, followed by the
    separator ["-"] and whatever. *)
Definition timePrefix (id : option string) (digits : string) : Prop :=
  digits <> ""%string /\ allDigits digits = true /\
  exists rest, id = Some (digits ++ "-" ++ rest)%string.

(** ** The data of the tests *)

Definition updateEvent (eventId c a user : string) (r : option Z) : Event :=
  {| id := Some eventId;
     message := Some {| code := c; action := Some a; user_id := Some user;
                        rev := r; timestamp := None; product_type := None |} |}.

Definition newProduct (c : string) (revision : Z) (owner : option string)
  : ProductRow :=
  {| p_code := c; p_revision := revision; p_owners_tags := owner |}.

Definition storeOf (products : list ProductRow) : Store :=
  {| product := products; contributor := []; product_update_event := [];
     product_update := [] |}.

(** "should aggregate events by count and distinct products" of the
    tests of [create]: two products of one owner, and four events, the
    third a duplicate of the second. *)
Definition duplicatedBatch : list Event :=
  [updateEvent "1700000000000-0" "code1" "created" "test" (Some 1);
   updateEvent "1700000000000-1" "code1" "created" "test" (Some 2);
   updateEvent "1700000000000-2" "code1" "created" "test" (Some 2);
   updateEvent "1700000000000-3" "code2" "created" "test" (Some 1)].

(** "should aggregate events by count and distinct products" of the
    tests of the view: revisions 1, 2, 3 of one product and 1 of the
    other. *)
Definition viewBatch : list Event :=
  [updateEvent "1700000000000-0" "code1" "updated" "user1" (Some 1);
   updateEvent "1700000000000-1" "code1" "updated" "user1" (Some 2);
   updateEvent "1700000000000-2" "code1" "updated" "user1" (Some 3);
   updateEvent "1700000000000-3" "code2" "updated" "user1" (Some 1)].

Definition ownedProducts : Store :=
  storeOf [newProduct "code1" 0 (Some "owner1");
           newProduct "code2" 0 (Some "owner1")].

End Messages.

(* ================================================================== *)
(** * Vocabulary of the statements *)

(** The same sub-query under the opposite quantifier: [EXISTS] for
    [NOT EXISTS] and back. *)
Definition negateClause (c : ExistsClause) : ExistsClause :=
  {| ex_not := negb (ex_not c); ex_entity := ex_entity c;
     ex_child_id := ex_child_id c; ex_parent_id := ex_parent_id c;
     ex_value := ex_value c |}.

(** The fragment [getFilterSql] writes where [addMatches] builds the
    sub-query [c]: the same quantifier, tables and join, and the same
    column and value, the value being the parameter of an equality. *)
Definition fragmentOf (c : ExistsClause) : SqlFragment :=
  {| fr_not := ex_not c; fr_entity := ex_entity c;
     fr_child_id := ex_child_id c; fr_parent_id := ex_parent_id c;
     fr_equals := ex_value c |}.

Definition negateFragment (f : SqlFragment) : SqlFragment :=
  {| fr_not := negb (fr_not f); fr_entity := fr_entity f;
     fr_child_id := fr_child_id f; fr_parent_id := fr_parent_id f;
     fr_equals := fr_equals f |}.

(** SQL [pt2.<column> = ${parameter}] as the SQL driver binds the
    parameter: [null] is bound as NULL, and [= NULL] is true of no
    cell; an object is bound as its string, ["[object Object]"]. *)
Definition paramTest (parameter c : JsValue) : Res bool :=
  match parameter with
  | JNull => ok false
  | JObj _ => equals c (JStr "[object Object]")
  | JUndefined | JArr _ => throw StoreError
  | v => equals c v
  end.

(** Does the fragment hold of the row [pt] of the parent table? *)
Definition fragmentHolds (db : Mirror) (f : SqlFragment) (pt : Row) : Res bool :=
  hits <- mapM (fun pt2 : Row =>
                  if sqlEq (lookup (fr_child_id f) pt2)
                           (lookup (fr_parent_id f) pt)
                  then match fr_equals f with
                       | None => ok true
                       | Some (column, parameter) =>
                           v <- cell column pt2 ;; paramTest parameter v
                       end
                  else ok false)
               (db (fr_entity f)) ;;
  ok (xorb (fr_not f) (existsb (fun b : bool => b) hits)).

(** The builder after [andWhere] of the sub-query of each round. *)
Definition addClauses (parentEntity : Entity) (ms : list Match)
    (qb : QueryBuilder) : QueryBuilder :=
  fold_left (fun qb m => andWhere qb (WExists (existsClause parentEntity m)))
            ms qb.

Definition whereLogOf (filters : list Clause) (ms : list Match) : list WhereLog :=
  map (fun fm : Clause * Match =>
         (fst (fst fm), truthy (m_not (snd fm)), m_whereValue (snd fm)))
      (combine filters ms).

(** A computation with its result, if any, passed through [f]. *)
Definition mapOutcome {A B} (f : A -> B) (m : M A) : M B :=
  (fst m, match snd m with inl e => inl e | inr a => inr (f a) end).

(** The two list operators, and the clause value [{ <operator>: L }]. *)
Definition operatorKey (nin : bool) : string := if nin then "$nin" else "$in".

Definition listClause (nin : bool) (L : list JsValue) : JsValue :=
  JObj [(operatorKey nin, JArr L)].

(** The sub-query an absence test compiles to: on [Product] a comparison
    of the column with [null], not negated for [$in] and negated for
    [$nin]; on a tag table no comparison at all, negated for [$in] and
    not negated for [$nin]. *)
Definition absenceClause (nin : bool) (matchEntity parentEntity : Entity)
    (matchColumn : string) : ExistsClause :=
  {| ex_not := if entity_eqb matchEntity Product then nin else negb nin;
     ex_entity := matchEntity;
     ex_child_id := productId matchEntity;
     ex_parent_id := productId parentEntity;
     ex_value := if entity_eqb matchEntity Product
                 then Some (matchColumn, JNull) else None |}.

(** The row lists the column. *)
Definition hasColumn (column : string) (row : Row) : bool :=
  existsb (fun e : string * JsValue => fst e =? column) row.

(** The join of a sub-query: the row [pt2] of its table belongs to the
    product of the row [pt] of the parent table. *)
Definition joined (matchEntity parentEntity : Entity) (pt pt2 : Row) : bool :=
  sqlEq (lookup (productId matchEntity) pt2) (lookup (productId parentEntity) pt).

(** The value a clause is compiled against: the operand of [$ne] when it
    has a truthy one, the value itself otherwise (lines 135-141). *)
Definition unwrapped (matchValue : JsValue) : JsValue :=
  if truthy (getPropOpt matchValue "$ne") then getPropOpt matchValue "$ne"
  else matchValue.

(** An object with [$in] or [$nin] for its only key. *)
Definition singleListOperator (w : JsValue) : bool :=
  match w with
  | JObj [(k, _)] => includes k ["$in"; "$nin"]
  | _ => false
  end.

(** A tag is flattened onto [Product] when it is empty or one of the
    mapped fields. *)
Definition flattened (MAPPED_FIELDS : list string) (tag : string) : bool :=
  (tag =? "") || includes tag MAPPED_FIELDS.

(** A list element that is neither an absence sentinel nor an object or
    array: a scalar the loop over [$in] steps over. *)
Definition plainScalar (v : JsValue) : bool :=
  negb (isSentinel v) && negb (isObject v).

(** The reasons for which a clause does not compile, each with the
    message of its exception:
    - the tag is neither flattened nor a known collection-valued tag;
    - the tag is collection-valued and absent from the Loaded-Tag
      Registry;
    - the tag resolves and the value is an object or array other than a
      single-key [$in] / [$nin];
    - the tag resolves and the list of the [$in] / [$nin] is empty;
    - the tag resolves and the list holds an object or array that is
      not an absence sentinel, with only plain scalars before it. *)
Inductive Rejected (MAPPED_FIELDS : list string)
    (MAPPED_TAGS : string -> option Entity) (loadedTags : list string)
  : Clause -> Message -> Prop :=
| RejectUnknownTag (t : string) (v : JsValue) :
    flattened MAPPED_FIELDS t = false ->
    MAPPED_TAGS t = None ->
    Rejected MAPPED_FIELDS MAPPED_TAGS loadedTags (t, v) (TagNotSupported t)
| RejectNotLoaded (t : string) (v : JsValue) (entity : Entity) :
    flattened MAPPED_FIELDS t = false ->
    MAPPED_TAGS t = Some entity ->
    includes t loadedTags = false ->
    Rejected MAPPED_FIELDS MAPPED_TAGS loadedTags (t, v) (TagNotLoaded t)
| RejectShape (t : string) (v : JsValue) (resolved : Entity * string) :
    outcome (getEntityAndColumn MAPPED_FIELDS MAPPED_TAGS loadedTags t)
    = ok resolved ->
    isObject (unwrapped v) = true ->
    singleListOperator (unwrapped v) = false ->
    Rejected MAPPED_FIELDS MAPPED_TAGS loadedTags (t, v)
      (UnableToProcess (unwrapped v))
| RejectEmptyList (t : string) (v : JsValue) (resolved : Entity * string)
    (nin : bool) :
    outcome (getEntityAndColumn MAPPED_FIELDS MAPPED_TAGS loadedTags t)
    = ok resolved ->
    unwrapped v = listClause nin [] ->
    Rejected MAPPED_FIELDS MAPPED_TAGS loadedTags (t, v)
      (UnableToProcess (unwrapped v))
| RejectElement (t : string) (v : JsValue) (resolved : Entity * string)
    (nin : bool) (before after : list JsValue) (x : JsValue) :
    outcome (getEntityAndColumn MAPPED_FIELDS MAPPED_TAGS loadedTags t)
    = ok resolved ->
    unwrapped v = listClause nin (before ++ x :: after) ->
    forallb plainScalar before = true ->
    isSentinel x = false ->
    isObject x = true ->
    Rejected MAPPED_FIELDS MAPPED_TAGS loadedTags (t, v)
      (UnableToProcess (JObj [("$in", JArr (before ++ x :: after))])).

(** The call runs a statement on the mirror. *)
Definition isExecute (e : Effect) : bool :=
  match e with
  | Execute _ => true
  | _ => false
  end.

(** The operation ends with the client-input error of message [msg],
    and has run no statement on the mirror: there is no result, partial
    or other. *)
Definition rejects {A} (m : M A) (msg : Message) : Prop :=
  outcome m = throw (UnprocessableEntityException msg) /\
  existsb isExecute (trace m) = false.

(** The conjunction [count] and [aggregate] put on the rows of
    [entity]: the predicate on the obsolete flag, then the sub-query of
    each compiled clause. *)
Definition conditions (entity : Entity) (obsolete : bool) (ms : list Match)
  : list Cond :=
  WRaw (obsoleteWhere obsolete)
  :: map (fun m => WExists (existsClause entity m)) ms.

(** The rows of [entity] that satisfy a conjunction. *)
Definition rowsWhere (db : Mirror) (entity : Entity)
    (conds : list Cond) : Res (list Row) :=
  filterM (fun pt => allM (fun c => evalCond db c pt) conds) (db entity).

(** The flag of a returned product row says it is not obsolete. *)
Definition notObsolete (row : JsValue) : bool :=
  strictEq (getPropOpt row "obsolete") (JBool false).

(** The builder a statement is made of. *)
Definition builderOf (stmt : Statement) : QueryBuilder :=
  match stmt with
  | Query qb => qb
  | CountRows inner => inner
  end.

Definition isExists (c : Cond) : bool :=
  match c with
  | WExists _ => true
  | WRaw _ => false
  end.

(** The content of a slot of a JavaScript array: nothing for an empty
    slot and past the end. *)
Definition slot {A} (arr : list (option A)) (i : nat) : option A :=
  match nth_error arr i with
  | Some (Some x) => Some x
  | _ => None
  end.

(** An array has a gap when a slot before its end is empty. *)
Definition hasGap {A} (arr : list (option A)) : Prop := In None arr.

(** The records the loop over the cursor consumes: those the cursor
    yields before the first falsy one, at which the loop breaks. *)
Fixpoint live (cursor : list JsValue) : list JsValue :=
  match cursor with
  | [] => []
  | data :: cursor' => if truthy data then data :: live cursor' else []
  end.

(** One round of the loop over the cursor, seen from rank [i]: the
    record goes to the rank (the first index) of its code. *)
Definition fetchStep (productCodes : list JsValue) (i : nat)
    (found : option JsValue) (data : JsValue) : option JsValue :=
  match indexOf productCodes (getPropOpt data "code") with
  | Some j => if (j =? i)%nat then Some data else found
  | None => found
  end.

(** The last fetched record whose code sits (first) at rank [i]. *)
Definition fetchedAt (productCodes : list JsValue) (cursor : list JsValue)
    (i : nat) : option JsValue :=
  fold_left (fetchStep productCodes i) cursor None.

(** A fetched record that carries a code of the rank list. *)
Definition ranked (productCodes : list JsValue) (data : JsValue) : Prop :=
  truthy data = true /\
  indexOf productCodes (getPropOpt data "code") <> None.

(** The pipeline has no stage with a (truthy) [$group]. *)
Definition noGroupStage (body : JsValue) : bool :=
  match body with
  | JArr stages =>
      forallb (fun o => negb (truthy (getPropOpt o "$group"))) stages
  | _ => true
  end.

(** The sub-query of a comparison of the column with [v]. *)
Definition valueClause (negated : bool) (matchEntity parentEntity : Entity)
    (matchColumn : string) (v : JsValue) : ExistsClause :=
  {| ex_not := negated; ex_entity := matchEntity;
     ex_child_id := productId matchEntity;
     ex_parent_id := productId parentEntity;
     ex_value := Some (matchColumn, v) |}.

(** A JSON scalar: a boolean, a number or a string. *)
Definition isScalar (v : JsValue) : bool :=
  match v with
  | JBool _ | JNum _ | JStr _ => true
  | _ => false
  end.

(** The obsolete flag of a returned row is the boolean [b]. *)
Definition flagIs (b : bool) (row : JsValue) : bool :=
  strictEq (getPropOpt row "obsolete") (JBool b).

(** The obsolete flag of a returned row is a boolean (not NULL). *)
Definition hasFlag (row : JsValue) : bool :=
  match getPropOpt row "obsolete" with
  | JBool _ => true
  | _ => false
  end.

(** The keys [aggregate] looks for in the stages of a pipeline. *)
Definition stageKeys : list string :=
  ["$match"; "$group"; "$count"; "$limit"; "$skip"].

(** A stage that is an object or a scalar and has none of these keys
    with a truthy value: [{ $limit: 0 }], [{ $sort: ... }], [{}]. *)
Definition idleStage (o : JsValue) : bool :=
  negb (isNullish o) &&
  forallb (fun key => negb (truthy (getPropOpt o key))) stageKeys.

(** What [aggregate] hands to [qb.limit] and [qb.offset]: the stage
    when it is truthy. *)
Definition pageOf (stage : JsValue) : option JsValue :=
  if truthy stage then Some stage else None.

(** A group stands before another when its count is no smaller. *)
Definition countDesc (g h : JsValue * nat) : Prop := (snd h <= snd g)%nat.

(** The values of [body.sort] that [find] turns down: no sort, a list
    that has not exactly one entry, or a single entry (an array) whose
    first element is not ['popularity_key'] or whose second is not
    [-1]. *)
Inductive UnsupportedSort : JsValue -> Prop :=
| SortAbsent (sort : JsValue) :
    isNullish sort = true -> UnsupportedSort sort
| SortNotSingle (l : list JsValue) :
    List.length l <> 1%nat -> UnsupportedSort (JArr l)
| SortOtherKey (entry : list JsValue) :
    strictEq (nth 0 entry JUndefined) (JStr "popularity_key") = false ->
    UnsupportedSort (JArr [JArr entry])
| SortOtherDirection (entry : list JsValue) :
    strictEq (nth 1 entry JUndefined) (JNum (-1)) = false ->
    UnsupportedSort (JArr [JArr entry]).

(** The country [find] looks up: the country tag of the filter, or the
    world when the filter has none. *)
Definition countryOf (countryTag : JsValue) : JsValue :=
  if isNullish countryTag then JStr "en:world" else countryTag.

(** ** A small mirror

    Three products, the third obsolete, and their brands. *)

Module Sample.

Definition fields : list string := ["code"; "creator"].

Definition tags (tag : string) : option Entity :=
  if tag =? "brands_tags" then Some (TagEntity "product_brands_tag") else None.

Definition loaded : list string := ["brands_tags"].

Definition productRow (id : Z) (code creator : JsValue) (obsolete : bool) : Row :=
  [("id", JNum id); ("code", code); ("creator", creator);
   ("obsolete", JBool obsolete)].

Definition brandRow (product_id : Z) (value : string) (obsolete : bool) : Row :=
  [("product_id", JNum product_id); ("value", JStr value);
   ("obsolete", JBool obsolete)].

Definition rows (entity : Entity) : list Row :=
  match entity with
  | Product =>
      [productRow 1 (JStr "001") (JStr "ann") false;
       productRow 2 (JStr "002") JNull false;
       productRow 3 (JStr "003") (JStr "ann") true]
  | TagEntity _ =>
      [brandRow 1 "acme" false; brandRow 2 "acme" false;
       brandRow 2 "bolt" false; brandRow 3 "corp" true]
  | ProductCountry => []
  end.

Definition mirror : Mirror := mirrorOf rows.

(** [[{ $match: {} }, { $group: { _id: '$brands_tags' } }, { $count: 1 }]]. *)
Definition countBrands : JsValue :=
  JArr [JObj [("$match", JObj [])];
        JObj [("$group", JObj [("_id", JStr "$brands_tags")])];
        JObj [("$count", JNum 1)]].

(** The stores behind [find]: one country, three ranked codes, and a
    document store that has lost the first of them and yields the other
    two in its own order. *)
Definition countries (tag : JsValue) : list JsValue := [JObj [("id", JNum 7)]].

Definition ranking (q : RankQuery) : list JsValue :=
  [JObj [("code", JStr "001")]; JObj [("code", JStr "002")];
   JObj [("code", JStr "003")]].

Definition document (code : string) : JsValue :=
  JObj [("_id", JStr code); ("code", JStr code)].

Definition documents (codes : list JsValue) (projection : JsValue)
  : list JsValue :=
  [document "003"; document "002"].

(** [{ filter: {}, sort: [['popularity_key', -1]] }]. *)
Definition popular : JsValue :=
  JObj [("filter", JObj []);
        ("sort", JArr [JArr [JStr "popularity_key"; JNum (-1)]])].

End Sample.

(* ================================================================== *)
(** * Properties *)

(** ** The monads *)

Lemma rbind_ok {A B} (a : A) (k : A -> Res B) : rbind (ok a) k = k a.
Proof. reflexivity. Qed.

Lemma rbind_throw {A B} (e : Exn) (k : A -> Res B) : rbind (throw e) k = throw e.
Proof. reflexivity. Qed.

Lemma mbind_lift_ok {A B} (a : A) (k : A -> M B) : mbind (lift (ok a)) k = k a.
Proof. unfold mbind, lift, ok. destruct (k a); reflexivity. Qed.

Lemma mbind_lift_throw {A B} (e : Exn) (k : A -> M B) :
  mbind (lift (throw e)) k = lift (throw e).
Proof. reflexivity. Qed.

Lemma mbind_ret {A B} (a : A) (k : A -> M B) : mbind (ret a) k = k a.
Proof. apply mbind_lift_ok. Qed.

Lemma outcome_mbind_ok {A B} (m : M A) (k : A -> M B) (a : A) :
  outcome m = ok a -> outcome (mbind m k) = outcome (k a).
Proof.
  destruct m as [t [e | a']]; simpl; intros H; [discriminate |].
  injection H as ->. destruct (k a); reflexivity.
Qed.

Lemma outcome_mbind_throw {A B} (m : M A) (k : A -> M B) (e : Exn) :
  outcome m = throw e -> outcome (mbind m k) = throw e.
Proof.
  destruct m as [t [e' | a']]; simpl; intros H; [| discriminate].
  unfold throw in *. congruence.
Qed.

Lemma trace_mbind_ok {A B} (m : M A) (k : A -> M B) (a : A) :
  outcome m = ok a -> trace (mbind m k) = trace m ++ trace (k a).
Proof.
  destruct m as [t [e | a']]; simpl; intros H; [discriminate |].
  injection H as ->. destruct (k a); reflexivity.
Qed.

Lemma trace_mbind_throw {A B} (m : M A) (k : A -> M B) (e : Exn) :
  outcome m = throw e -> trace (mbind m k) = trace m.
Proof.
  destruct m as [t [e' | a']]; simpl; intros H; [| discriminate].
  reflexivity.
Qed.

Lemma mbind_ok_inv {A B} (m : M A) (k : A -> M B) (b : B) :
  outcome (mbind m k) = ok b ->
  exists a, outcome m = ok a /\ outcome (k a) = ok b /\
            trace (mbind m k) = trace m ++ trace (k a).
Proof.
  destruct m as [t [e | a]]; simpl; [discriminate |].
  intros H. exists a. destruct (k a) as [t' r]. simpl in *.
  repeat split. exact H.
Qed.

(** ** Numerals

    [parseInt] reads the decimal numeral of a count back as that
    count. *)

Lemma digitRun_uint (d : Decimal.uint) (a : nat) :
  digitRun 10 (NilEmpty.string_of_uint d) (Some (Z.of_nat a))
  = Some (Z.of_nat (Nat.of_uint_acc d a)).
Proof.
  revert a. induction d; intros a; simpl NilEmpty.string_of_uint;
    [reflexivity | ..];
    cbn [digitRun];
    match goal with
    | |- context [digitOf 10 ?c] =>
        let v := eval vm_compute in (digitOf 10 c) in
        change (digitOf 10 c) with v
    end; cbv iota beta; simpl Nat.of_uint_acc; rewrite <- IHd; do 2 f_equal;
    rewrite Nat.tail_mul_spec; lia.
Qed.

Lemma digitRun_uintZ (d : Decimal.uint) (z : Z) :
  (0 <= z)%Z ->
  digitRun 10 (NilEmpty.string_of_uint d) (Some z)
  = Some (Z.of_nat (Nat.of_uint_acc d (Z.to_nat z))).
Proof.
  intros Hz. rewrite <- digitRun_uint, Z2Nat.id by exact Hz. reflexivity.
Qed.

Lemma parseIntString_decimal (radix10 : bool) (n : nat) :
  parseIntString radix10 (decimal n) = Int (Z.of_nat n).
Proof.
  unfold decimal. rewrite <- (Unsigned.of_to n) at 2.
  generalize (Nat.to_uint n) as d. intros d.
  unfold NilZero.string_of_uint, Nat.of_uint.
  destruct d as [| d | d | d | d | d | d | d | d | d | d];
    [destruct radix10; reflexivity | ..].
  1: destruct d as [| d | d | d | d | d | d | d | d | d | d];
       [destruct radix10; reflexivity | ..].
  all: destruct radix10; unfold parseIntString; simpl NilEmpty.string_of_uint;
    cbn [trimStart];
    repeat match goal with
           | |- context [isSpace ?c] =>
               let v := eval vm_compute in (isSpace c) in
               change (isSpace c) with v
           end; cbv iota beta;
    cbn [signOf Ascii.eqb Bool.eqb radixOf hexPrefix negb andb orb];
    cbn [digitRun];
    repeat match goal with
           | |- context [digitOf 10 ?c] =>
               let v := eval vm_compute in (digitOf 10 c) in
               change (digitOf 10 c) with v
           end; cbv iota beta;
    rewrite digitRun_uintZ by (vm_compute; discriminate); reflexivity.
Qed.

Lemma parseInt_decimal (n : nat) : parseInt (JStr (decimal n)) = Int (Z.of_nat n).
Proof. apply parseIntString_decimal. Qed.

Lemma flatMapM_ext_in {A B} (f g : A -> Res (list B)) (l : list A) :
  (forall x, In x l -> f x = g x) -> flatMapM f l = flatMapM g l.
Proof.
  induction l as [| x l IH]; intros H; simpl; [reflexivity |].
  rewrite (H x (or_introl eq_refl)), IH; [reflexivity |].
  intros y Hy. apply H. right. exact Hy.
Qed.

Lemma flatMapM_concat {A B} (f : A -> Res (list B)) (l : list A)
    (ys : list (list B)) :
  Forall2 (fun x y => f x = ok y) l ys -> flatMapM f l = ok (List.concat ys).
Proof.
  induction 1 as [| x y l ys Hx _ IH]; simpl; [reflexivity |].
  rewrite Hx, IH. reflexivity.
Qed.

(** ** Filter normalization *)

Lemma indexKey_not_and (i : nat) : (indexKey i =? "$and") = false.
Proof. unfold indexKey. destruct (Nat.to_uint i); reflexivity. Qed.

Lemma indexedFrom_keys {A} (l : list A) (i : nat) (e : string * A) :
  In e (indexedFrom i l) -> (fst e =? "$and") = false.
Proof.
  revert i. induction l as [| x l IH]; intros i; simpl; [contradiction |].
  intros [<- | H]; [apply indexKey_not_and | exact (IH _ H)].
Qed.

Lemma chars_are_strings (s : string) (v : JsValue) :
  In v (chars s) -> exists c, v = JStr c.
Proof.
  induction s as [| c s IH]; simpl; [contradiction |].
  intros [<- | H]; [eexists; reflexivity | exact (IH H)].
Qed.

(** [parseFilter] runs the loop of the source over [Object.entries]. *)
Lemma parseFilter_unfold (matches : JsValue) :
  parseFilter matches = (es <- objectEntries matches ;; flatMapM parseStep es).
Proof.
  destruct matches as [| | b | n | s | l | es]; try reflexivity.
  - (* a string: index keys only *)
    simpl. apply flatMapM_ext_in. intros e He. unfold parseStep.
    rewrite (indexedFrom_keys _ _ _ He). reflexivity.
  - simpl. apply flatMapM_ext_in. intros e He. unfold parseStep.
    rewrite (indexedFrom_keys _ _ _ He). reflexivity.
  - simpl. apply flatMapM_ext_in. intros [k v] _. unfold parseStep. simpl.
    destruct (k =? "$and"); [| reflexivity].
    destruct v as [| | b | n | s | subs | o]; try reflexivity.
    simpl. apply flatMapM_ext_in. intros v Hv.
    destruct (chars_are_strings _ _ Hv) as [c ->]. reflexivity.
Qed.

Lemma parseFilter_cons (k : string) (v : JsValue) (es : list (string * JsValue)) :
  parseFilter (JObj ((k, v) :: es)) =
  (here <- parseStep (k, v) ;; rest <- parseFilter (JObj es) ;; ok (here ++ rest)).
Proof. rewrite !parseFilter_unfold. reflexivity. Qed.

(** ** Loops in the result monad *)

Lemma allM_true_iff {A} (f : A -> Res bool) (l : list A) (b : bool) :
  allM f l = ok b -> (b = true <-> Forall (fun x => f x = ok true) l).
Proof.
  revert b. induction l as [| x l IH]; simpl; intros b H.
  - injection H as <-. split; [constructor | reflexivity].
  - destruct (f x) as [e | bx] eqn:Hx; [discriminate |]. simpl in H.
    destruct (allM f l) as [e | bs] eqn:Hl; [discriminate |]. simpl in H.
    injection H as <-. specialize (IH bs eq_refl). split.
    + intros Hb. apply andb_true_iff in Hb as [-> Hbs].
      constructor; [exact Hx | apply IH; exact Hbs].
    + intros HF. inversion HF as [| ? ? H1 H2]; subst.
      assert (bx = true) as -> by (unfold ok in *; congruence).
      apply IH in H2. rewrite H2. reflexivity.
Qed.

Lemma filterM_In {A} (f : A -> Res bool) (l ys : list A) (x : A) :
  filterM f l = ok ys -> (In x ys <-> In x l /\ f x = ok true).
Proof.
  revert ys. induction l as [| y l IH]; simpl; intros ys H.
  - injection H as <-. simpl. tauto.
  - destruct (f y) as [e | b] eqn:Hy; [discriminate |]. simpl in H.
    destruct (filterM f l) as [e | zs] eqn:Hl; [discriminate |]. simpl in H.
    injection H as <-. specialize (IH zs eq_refl).
    destruct b; simpl; rewrite ?IH; split.
    + intros [<- | [H1 H2]]; [split; [left; reflexivity | exact Hy] | tauto].
    + intros [[<- | H1] H2]; [left; reflexivity | right; tauto].
    + intros [H1 H2]. tauto.
    + intros [[<- | H1] H2]; [unfold ok in *; congruence | tauto].
Qed.

Lemma allM_all_true {A} (f : A -> Res bool) (l : list A) :
  Forall (fun x => f x = ok true) l -> allM f l = ok true.
Proof.
  induction 1 as [| x l Hx _ IH]; simpl; [reflexivity |].
  rewrite Hx, IH. reflexivity.
Qed.

(** The rows a conjunction keeps are those that satisfy each of its
    conditions. *)
Lemma rowsWhere_In (db : Mirror) (entity : Entity)
    (conds : list Cond) (rows : list Row) (pt : Row) :
  rowsWhere db entity conds = ok rows ->
  (In pt rows <->
   In pt (db entity) /\ Forall (fun c => evalCond db c pt = ok true) conds).
Proof.
  unfold rowsWhere. intros H. rewrite (filterM_In _ _ _ pt H). split.
  - intros [Hin Hall]. split; [exact Hin |].
    apply (allM_true_iff _ _ _ Hall). reflexivity.
  - intros [Hin Hall]. split; [exact Hin | apply allM_all_true; exact Hall].
Qed.

(** ** Clause compilation *)

Section Compilation.

Variable MAPPED_FIELDS : list string.
Variable MAPPED_TAGS : string -> option Entity.
Variable loadedTags : list string.

Local Abbreviation getEntityAndColumn' :=
  (getEntityAndColumn MAPPED_FIELDS MAPPED_TAGS loadedTags).
Local Abbreviation matchClause' := (matchClause MAPPED_FIELDS MAPPED_TAGS loadedTags).
Local Abbreviation addMatches' := (addMatches MAPPED_FIELDS MAPPED_TAGS loadedTags).
Local Abbreviation getFilterSql' := (getFilterSql MAPPED_FIELDS MAPPED_TAGS loadedTags).
Local Abbreviation flattened' := (flattened MAPPED_FIELDS).

Lemma getEntityAndColumn_flattened (tag : string) :
  flattened' tag = true -> getEntityAndColumn' tag = ret (Product, tag).
Proof.
  unfold flattened, getEntityAndColumn. intros ->. reflexivity.
Qed.

Lemma getEntityAndColumn_loaded (tag : string) (entity : Entity) :
  flattened' tag = false -> MAPPED_TAGS tag = Some entity ->
  includes tag loadedTags = true ->
  getEntityAndColumn' tag = ([GetLoadedTags], ok (entity, "value")).
Proof.
  unfold flattened, getEntityAndColumn. intros -> -> H.
  cbn. rewrite H. reflexivity.
Qed.

Lemma getEntityAndColumn_not_loaded (tag : string) (entity : Entity) :
  flattened' tag = false -> MAPPED_TAGS tag = Some entity ->
  includes tag loadedTags = false ->
  getEntityAndColumn' tag =
  ([GetLoadedTags], throw (UnprocessableEntityException (TagNotLoaded tag))).
Proof.
  unfold flattened, getEntityAndColumn. intros -> -> H.
  cbn. rewrite H. reflexivity.
Qed.

Lemma getEntityAndColumn_unknown (tag : string) :
  flattened' tag = false -> MAPPED_TAGS tag = None ->
  getEntityAndColumn' tag =
  ([], throw (UnprocessableEntityException (TagNotSupported tag))).
Proof.
  unfold flattened, getEntityAndColumn. intros -> ->. reflexivity.
Qed.

Lemma getEntityAndColumn_quiet (tag : string) :
  existsb isExecute (trace (getEntityAndColumn' tag)) = false.
Proof.
  unfold getEntityAndColumn.
  destruct ((tag =? "") || includes tag MAPPED_FIELDS); [reflexivity |].
  destruct (MAPPED_TAGS tag) as [entity |]; [| reflexivity].
  cbn. destruct (negb (includes tag loadedTags)); reflexivity.
Qed.

(** How a round ends, from how its two steps end. *)
Lemma matchClause_outcome (filter : Clause) :
  outcome (matchClause' filter) =
  match outcome (getEntityAndColumn' (fst filter)) with
  | inl e => inl e
  | inr (matchEntity, matchColumn) =>
      match matchValueOf matchEntity (snd filter) with
      | inl e => inl e
      | inr (whereValue, not) =>
          ok {| m_entity := matchEntity; m_column := matchColumn;
                m_whereValue := whereValue; m_not := not |}
      end
  end.
Proof.
  unfold matchClause.
  destruct (getEntityAndColumn' (fst filter)) as [t [e | [ent col]]];
    [reflexivity |].
  simpl. destruct (matchValueOf ent (snd filter)) as [e | [w n]]; reflexivity.
Qed.

Lemma matchClause_trace (filter : Clause) :
  trace (matchClause' filter) = trace (getEntityAndColumn' (fst filter)).
Proof.
  unfold matchClause.
  destruct (getEntityAndColumn' (fst filter)) as [t [e | [ent col]]];
    [reflexivity |].
  simpl. destruct (matchValueOf ent (snd filter)) as [e | [w n]]; simpl;
    rewrite ?app_nil_r; reflexivity.
Qed.

Lemma matchClause_quiet (filter : Clause) :
  existsb isExecute (trace (matchClause' filter)) = false.
Proof. rewrite matchClause_trace. apply getEntityAndColumn_quiet. Qed.

Lemma addMatches_cons (filter : Clause) (filters : list Clause)
    (qb : QueryBuilder) (parentEntity : Entity) (m : Match) :
  outcome (matchClause' filter) = ok m ->
  outcome (addMatches' (filter :: filters) qb parentEntity) =
  match outcome (addMatches' filters
                   (andWhere qb (WExists (existsClause parentEntity m)))
                   parentEntity) with
  | inl e => inl e
  | inr (qb', whereLog) =>
      ok (qb', (fst filter, truthy (m_not m), m_whereValue m) :: whereLog)
  end.
Proof.
  intros H. simpl. rewrite (outcome_mbind_ok _ _ _ H).
  destruct (addMatches' filters _ parentEntity) as [t [e | [qb' wl]]];
    reflexivity.
Qed.

(** When every round succeeds, [addMatches'] adds one sub-query per
    clause, in order. *)
Lemma addMatches_ok (filters : list Clause) (ms : list Match)
    (qb : QueryBuilder) (parentEntity : Entity) :
  Forall2 (fun f m => outcome (matchClause' f) = ok m) filters ms ->
  outcome (addMatches' filters qb parentEntity) =
  ok (addClauses parentEntity ms qb, whereLogOf filters ms).
Proof.
  intros H. revert qb.
  induction H as [| f m filters ms Hf _ IH]; intros qb; [reflexivity |].
  rewrite (addMatches_cons _ _ _ _ _ Hf), IH. reflexivity.
Qed.

(** Conversely, a successful [addMatches'] went through a successful
    round for each clause. *)
Lemma addMatches_ok_inv (filters : list Clause) (qb qb' : QueryBuilder)
    (parentEntity : Entity) (whereLog : list WhereLog) :
  outcome (addMatches' filters qb parentEntity) = ok (qb', whereLog) ->
  exists ms,
    Forall2 (fun f m => outcome (matchClause' f) = ok m) filters ms /\
    qb' = addClauses parentEntity ms qb /\
    whereLog = whereLogOf filters ms.
Proof.
  revert qb qb' whereLog.
  induction filters as [| f filters IH]; intros qb qb' wl H.
  - injection H as <- <-. exists []. repeat split. constructor.
  - destruct (outcome (matchClause' f)) as [e | m] eqn:Hm.
    + simpl in H. rewrite (outcome_mbind_throw _ _ _ Hm) in H. discriminate.
    + rewrite (addMatches_cons _ _ _ _ _ Hm) in H.
      destruct (outcome (addMatches' filters _ parentEntity))
        as [e | [qb1 wl1]] eqn:Hrest; [discriminate |].
      injection H as <- <-.
      destruct (IH _ _ _ Hrest) as (ms & HF & -> & ->).
      exists (m :: ms). repeat split. constructor; assumption.
Qed.

(** The first round that raises ends [addMatches'] with its exception. *)
Lemma addMatches_throw (before after : list Clause) (ms : list Match)
    (filter : Clause) (e : Exn) (qb : QueryBuilder) (parentEntity : Entity) :
  Forall2 (fun f m => outcome (matchClause' f) = ok m) before ms ->
  outcome (matchClause' filter) = throw e ->
  outcome (addMatches' (before ++ filter :: after) qb parentEntity) = throw e.
Proof.
  intros H He. revert qb.
  induction H as [| f m before ms Hf _ IH]; intros qb.
  - simpl. apply outcome_mbind_throw. exact He.
  - change ((f :: before) ++ filter :: after)
      with (f :: (before ++ filter :: after)).
    rewrite (addMatches_cons _ _ _ _ _ Hf), IH. reflexivity.
Qed.

Lemma existsb_app_false {A} (p : A -> bool) (l1 l2 : list A) :
  existsb p l1 = false -> existsb p l2 = false -> existsb p (l1 ++ l2) = false.
Proof. intros H1 H2. rewrite existsb_app, H1, H2. reflexivity. Qed.

(** [addMatches'] runs no statement. *)
Lemma addMatches_quiet (filters : list Clause) (qb : QueryBuilder)
    (parentEntity : Entity) :
  existsb isExecute (trace (addMatches' filters qb parentEntity)) = false.
Proof.
  revert qb. induction filters as [| f filters IH]; intros qb; [reflexivity |].
  simpl. pose proof (matchClause_quiet f) as Hq.
  destruct (matchClause' f) as [t [e | m]]; [exact Hq |].
  simpl in *. specialize (IH (andWhere qb (WExists (existsClause parentEntity m)))).
  destruct (addMatches' filters _ parentEntity) as [t' [e | [qb' wl]]];
    simpl in *; rewrite ?app_nil_r; apply existsb_app_false; assumption.
Qed.

Lemma addClauses_where (parentEntity : Entity) (ms : list Match)
    (qb : QueryBuilder) :
  qb_where (addClauses parentEntity ms qb) =
  qb_where qb ++ map (fun m => WExists (existsClause parentEntity m)) ms.
Proof.
  revert qb. induction ms as [| m ms IH]; intros qb; simpl.
  - rewrite app_nil_r. reflexivity.
  - unfold addClauses in *. simpl. rewrite IH. simpl.
    rewrite <- app_assoc. reflexivity.
Qed.

End Compilation.

(** ** C8: normalization flattens *)

(** C8.  Filter normalization is flattening.  An ["$and"] entry whose
    value is an array of sub-filters normalizes to the concatenation of
    the normalized sub-filters (followed by what the rest of the filter
    normalizes to); an entry [t: { $all: [v1..vk] }] normalizes to the
    [k] clauses [(t, v1) .. (t, vk)]; and the resulting (tag, value)
    list is read as a pure conjunction: [addMatches] appends one
    [EXISTS] condition per clause, in order, to the conjunction of the
    builder, and the rows a statement keeps are those that satisfy
    every condition of its conjunction. *)
Theorem parseFilter_flattens :
  (forall (subs : list JsValue) (rest : list (string * JsValue))
          (css : list (list Clause)) (cs : list Clause),
      Forall2 (fun sub c => parseFilter sub = ok c) subs css ->
      parseFilter (JObj rest) = ok cs ->
      parseFilter (JObj (("$and", JArr subs) :: rest))
      = ok (List.concat css ++ cs)) /\
  (forall (t : string) (v : JsValue) (values : list JsValue)
          (rest : list (string * JsValue)) (cs : list Clause),
      t <> "$and" ->
      getProp v "$all" = ok (JArr values) ->
      parseFilter (JObj rest) = ok cs ->
      parseFilter (JObj ((t, v) :: rest))
      = ok (map (fun value => (t, value)) values ++ cs)) /\
  (forall (MAPPED_FIELDS : list string) (MAPPED_TAGS : string -> option Entity)
          (loadedTags : list string) (filters : list Clause)
          (qb qb' : QueryBuilder) (parentEntity : Entity)
          (whereLog : list WhereLog),
      outcome (addMatches MAPPED_FIELDS MAPPED_TAGS loadedTags
                 filters qb parentEntity) = ok (qb', whereLog) ->
      exists ms : list Match,
        Forall2 (fun f m =>
                   outcome (matchClause MAPPED_FIELDS MAPPED_TAGS loadedTags f)
                   = ok m) filters ms /\
        qb_where qb' =
        qb_where qb ++ map (fun m => WExists (existsClause parentEntity m)) ms) /\
  (forall (db : Mirror) (entity : Entity) (conds : list Cond)
          (rows : list Row) (pt : Row),
      rowsWhere db entity conds = ok rows ->
      (In pt rows <->
       In pt (db entity) /\
       Forall (fun c => evalCond db c pt = ok true) conds)).
Proof.
  split; [| split; [| split]]; [| | | exact rowsWhere_In].
  - intros subs rest css cs Hsubs Hrest.
    rewrite parseFilter_cons, Hrest. unfold parseStep. simpl.
    rewrite (flatMapM_concat _ _ _ Hsubs). reflexivity.
  - intros t v values rest cs Ht Hall Hrest.
    rewrite parseFilter_cons, Hrest. unfold parseStep. simpl.
    apply String.eqb_neq in Ht. rewrite Ht.
    unfold parseEntry. simpl. rewrite Hall. reflexivity.
  - intros MF MT loaded filters qb qb' parent wl H.
    destruct (addMatches_ok_inv _ _ _ _ _ _ _ _ H) as (ms & HF & -> & _).
    exists ms. split; [exact HF | apply addClauses_where].
Qed.

Lemma parseFilter_flattens_witness :
  parseFilter
    (JObj [("$and", JArr [JObj [("a", JStr "x")]; JObj [("a", JStr "y")]]);
           ("c", JNum 1)])
  = ok [("a", JStr "x"); ("a", JStr "y"); ("c", JNum 1)] /\
  parseFilter
    (JObj [("b", JObj [("$all", JArr [JStr "u"; JStr "v"])]); ("c", JNum 1)])
  = ok [("b", JStr "u"); ("b", JStr "v"); ("c", JNum 1)] /\
  exists ms : list Match,
    Forall2 (fun f m => outcome (matchClause ["creator"] (fun _ => None) [] f)
                        = ok m)
            [("creator", JStr "x")] ms /\
    qb_where
      (andWhere (createQueryBuilder Product)
         (WExists {| ex_not := false; ex_entity := Product;
                     ex_child_id := "id"; ex_parent_id := "id";
                     ex_value := Some ("creator", JStr "x") |}))
    = qb_where (createQueryBuilder Product)
      ++ map (fun m => WExists (existsClause Product m)) ms.
Proof.
  split; [| split].
  - apply (proj1 parseFilter_flattens
             [JObj [("a", JStr "x")]; JObj [("a", JStr "y")]]
             [("c", JNum 1)]
             [[("a", JStr "x")]; [("a", JStr "y")]] [("c", JNum 1)]).
    + repeat constructor.
    + reflexivity.
  - apply (proj1 (proj2 parseFilter_flattens) "b"
             (JObj [("$all", JArr [JStr "u"; JStr "v"])])
             [JStr "u"; JStr "v"] [("c", JNum 1)] [("c", JNum 1)]).
    + discriminate.
    + reflexivity.
    + reflexivity.
  - apply (proj1 (proj2 (proj2 parseFilter_flattens)) ["creator"] (fun _ => None) []
             [("creator", JStr "x")] (createQueryBuilder Product)
             _ Product [("creator", false, JStr "x")]).
    reflexivity.
Defined.

(** ** C6: not-in is in, negated *)

Lemma scanIn_negated (matchEntity : Entity) (values : list JsValue)
    (whereValue not1 not2 : JsValue) :
  truthy not2 = negb (truthy not1) ->
  match scanIn matchEntity values whereValue not1 with
  | inr (w, n1) =>
      exists n2, scanIn matchEntity values whereValue not2 = ok (w, n2) /\
                 truthy n2 = negb (truthy n1)
  | inl e => scanIn matchEntity values whereValue not2 = inl e
  end.
Proof.
  intros H. induction values as [| value values IH]; simpl.
  - exists not2. split; [reflexivity | exact H].
  - destruct (isSentinel value).
    + destruct (entity_eqb matchEntity Product).
      * exists not2. split; [reflexivity | exact H].
      * eexists. split; [reflexivity |]. simpl. rewrite H. reflexivity.
    + destruct (isObject value); [reflexivity | exact IH].
Qed.

Lemma matchValueOf_nin (matchEntity : Entity) (values : list JsValue) :
  values <> [] ->
  match matchValueOf matchEntity (JObj [("$in", JArr values)]) with
  | inr (w, n1) =>
      exists n2,
        matchValueOf matchEntity (JObj [("$nin", JArr values)]) = ok (w, n2) /\
        truthy n2 = negb (truthy n1)
  | inl e => matchValueOf matchEntity (JObj [("$nin", JArr values)]) = inl e
  end.
Proof.
  intros Hne. destruct values as [| v values]; [contradiction |].
  unfold matchValueOf.
  change (getPropOpt (JObj [("$in", JArr (v :: values))]) "$ne") with JUndefined.
  change (getPropOpt (JObj [("$nin", JArr (v :: values))]) "$ne") with JUndefined.
  cbn -[scanIn].
  apply (scanIn_negated matchEntity (v :: values)
           (JObj [("$in", JArr (v :: values))]) JUndefined (JBool true)).
  reflexivity.
Qed.

Lemma scanIn_plain (matchEntity : Entity) (values : list JsValue)
    (whereValue not : JsValue) :
  forallb plainScalar values = true ->
  scanIn matchEntity values whereValue not = ok (whereValue, not).
Proof.
  intros H. induction values as [| v values IH]; [reflexivity |].
  simpl in *. apply andb_true_iff in H as [Hv H].
  unfold plainScalar in Hv. apply andb_true_iff in Hv as [Hv1 Hv2].
  apply negb_true_iff in Hv1, Hv2. rewrite Hv1, Hv2. exact (IH H).
Qed.

(** A clause value [{ $in: L }] or [{ $nin: L }] with [L] not empty goes
    to the loop over [L], negated from the start for [$nin]. *)
Lemma matchValueOf_list (matchEntity : Entity) (nin : bool) (L : list JsValue) :
  L <> [] ->
  matchValueOf matchEntity (listClause nin L)
  = scanIn matchEntity L (JObj [("$in", JArr L)])
      (if nin then JBool true else JUndefined).
Proof.
  intros Hne. destruct L as [| v L]; [contradiction |].
  destruct nin; reflexivity.
Qed.

(** The round of a list clause whose list holds plain scalars only. *)
Lemma matchClause_scalars
    (MAPPED_FIELDS : list string) (MAPPED_TAGS : string -> option Entity)
    (loadedTags : list string) (t : string) (nin : bool) (L : list JsValue)
    (matchEntity : Entity) (matchColumn : string) :
  L <> [] -> forallb plainScalar L = true ->
  outcome (getEntityAndColumn MAPPED_FIELDS MAPPED_TAGS loadedTags t)
  = ok (matchEntity, matchColumn) ->
  outcome (matchClause MAPPED_FIELDS MAPPED_TAGS loadedTags (t, listClause nin L))
  = ok {| m_entity := matchEntity; m_column := matchColumn;
          m_whereValue := JObj [("$in", JArr L)];
          m_not := if nin then JBool true else JUndefined |}.
Proof.
  intros Hne Hs Hres. rewrite matchClause_outcome.
  change (fst (t, listClause nin L)) with t. rewrite Hres.
  change (snd (t, listClause nin L)) with (listClause nin L).
  unfold ok at 1. cbv iota beta.
  rewrite (matchValueOf_list _ _ _ Hne), (scanIn_plain _ _ _ _ Hs).
  reflexivity.
Qed.

Lemma xorb_negb_l (a b : bool) : xorb (negb a) b = negb (xorb a b).
Proof. destruct a, b; reflexivity. Qed.

(** [NOT EXISTS] holds where [EXISTS] does not. *)
Lemma evalCond_negated (db : Mirror) (c : ExistsClause) (pt : Row) (b : bool) :
  evalCond db (WExists c) pt = ok b ->
  evalCond db (WExists (negateClause c)) pt = ok (negb b).
Proof.
  unfold evalCond, negateClause, subRowMatches. simpl.
  destruct (mapM _ (db (ex_entity c))) as [e | hits]; [discriminate |].
  simpl. intros H. injection H as <-. rewrite xorb_negb_l. reflexivity.
Qed.

(** C6.  For every tag [t] and non-empty list [L], the clause
    [(t, { $nin: L })] compiles to what the clause [(t, { $in: L })]
    compiles to, under the opposite quantifier ([EXISTS] for
    [NOT EXISTS] and back), in [getFilterSql] and in [addMatches]
    alike; when the second does not compile, the first raises the same
    exception, and both make the same calls.  When [L] holds plain
    scalars only and [t] resolves, both compile: [{ $in: L }] to the
    [EXISTS] sub-query on the column and the list, [{ $nin: L }] to the
    [NOT EXISTS] sub-query on the same column and list; and on every
    row the second holds exactly when the first does not. *)
Theorem nin_compiles_as_negated_in
    (MAPPED_FIELDS : list string) (MAPPED_TAGS : string -> option Entity)
    (loadedTags : list string) (t : string) (L : list JsValue)
    (parentEntity : Entity) (qb : QueryBuilder) :
  L <> [] ->
  getFilterSql MAPPED_FIELDS MAPPED_TAGS loadedTags
    [(t, JObj [("$nin", JArr L)])] parentEntity
  = mapOutcome (map negateFragment)
      (getFilterSql MAPPED_FIELDS MAPPED_TAGS loadedTags
         [(t, JObj [("$in", JArr L)])] parentEntity)
  /\
  trace (addMatches MAPPED_FIELDS MAPPED_TAGS loadedTags
           [(t, JObj [("$nin", JArr L)])] qb parentEntity)
  = trace (addMatches MAPPED_FIELDS MAPPED_TAGS loadedTags
             [(t, JObj [("$in", JArr L)])] qb parentEntity)
  /\
  match outcome (addMatches MAPPED_FIELDS MAPPED_TAGS loadedTags
                   [(t, JObj [("$in", JArr L)])] qb parentEntity) with
  | inr (qbIn, _) =>
      exists (c : ExistsClause) (whereLog : list WhereLog),
        qbIn = andWhere qb (WExists c) /\
        outcome (addMatches MAPPED_FIELDS MAPPED_TAGS loadedTags
                   [(t, JObj [("$nin", JArr L)])] qb parentEntity)
        = ok (andWhere qb (WExists (negateClause c)), whereLog)
  | inl e =>
      outcome (addMatches MAPPED_FIELDS MAPPED_TAGS loadedTags
                 [(t, JObj [("$nin", JArr L)])] qb parentEntity) = inl e
  end
  /\
  (forall (matchEntity : Entity) (matchColumn : string),
      forallb plainScalar L = true ->
      outcome (getEntityAndColumn MAPPED_FIELDS MAPPED_TAGS loadedTags t)
      = ok (matchEntity, matchColumn) ->
      let c := valueClause false matchEntity parentEntity matchColumn
                 (JObj [("$in", JArr L)]) in
      outcome (getFilterSql MAPPED_FIELDS MAPPED_TAGS loadedTags
                 [(t, JObj [("$in", JArr L)])] parentEntity)
      = ok [fragmentOf c] /\
      outcome (getFilterSql MAPPED_FIELDS MAPPED_TAGS loadedTags
                 [(t, JObj [("$nin", JArr L)])] parentEntity)
      = ok [fragmentOf (negateClause c)] /\
      (exists whereLog,
          outcome (addMatches MAPPED_FIELDS MAPPED_TAGS loadedTags
                     [(t, JObj [("$in", JArr L)])] qb parentEntity)
          = ok (andWhere qb (WExists c), whereLog)) /\
      (exists whereLog,
          outcome (addMatches MAPPED_FIELDS MAPPED_TAGS loadedTags
                     [(t, JObj [("$nin", JArr L)])] qb parentEntity)
          = ok (andWhere qb (WExists (negateClause c)), whereLog)))
  /\
  (forall (db : Mirror) (c : ExistsClause) (pt : Row) (b : bool),
      evalCond db (WExists c) pt = ok b ->
      evalCond db (WExists (negateClause c)) pt = ok (negb b)).
Proof.
  intros Hne.
  split; [| split; [| split; [| split; [| exact evalCond_negated]]]].
  4: shelve.
  all: unfold getFilterSql, addMatches, matchClause;
    cbn -[matchValueOf getEntityAndColumn];
    destruct (getEntityAndColumn MAPPED_FIELDS MAPPED_TAGS loadedTags t)
      as [tr [e | [ent col]]]; [reflexivity |];
    pose proof (matchValueOf_nin ent L Hne) as H;
    cbn -[matchValueOf];
    (destruct (matchValueOf ent (JObj [("$in", JArr L)])) as [e | [w n1]];
     [rewrite H; reflexivity |]);
    destruct H as (n2 & -> & Hn); simpl; rewrite ?app_nil_r;
    unfold mapOutcome, existsClause, sqlFragment, negateClause,
      negateFragment; simpl; rewrite ?Hn;
    try reflexivity.
  { eexists. eexists. split; reflexivity. }
  Unshelve.
  - intros matchEntity matchColumn Hs Hres c.
    pose proof (matchClause_scalars _ _ _ t false L _ _ Hne Hs Hres) as Hin.
    pose proof (matchClause_scalars _ _ _ t true L _ _ Hne Hs Hres) as Hnin.
    change (listClause false L) with (JObj [("$in", JArr L)]) in Hin.
    change (listClause true L) with (JObj [("$nin", JArr L)]) in Hnin.
    repeat split.
    + simpl. rewrite (outcome_mbind_ok _ _ _ Hin). reflexivity.
    + simpl. rewrite (outcome_mbind_ok _ _ _ Hnin). reflexivity.
    + eexists.
      rewrite (addMatches_ok _ _ _ [_] [_]) by (repeat constructor; exact Hin).
      reflexivity.
    + eexists.
      rewrite (addMatches_ok _ _ _ [_] [_]) by (repeat constructor; exact Hnin).
      reflexivity.
Qed.

Lemma nin_compiles_as_negated_in_witness :
  let c := valueClause false (TagEntity "product_brands_tag") Product "value"
             (JObj [("$in", JArr [JStr "acme"; JStr "bolt"])]) in
  let pt := Sample.productRow 3 (JStr "003") (JStr "ann") true in
  outcome (getFilterSql Sample.fields Sample.tags Sample.loaded
             [("brands_tags", JObj [("$nin", JArr [JStr "acme"; JStr "bolt"])])]
             Product)
  = ok [fragmentOf (negateClause c)] /\
  (exists whereLog,
      outcome (addMatches Sample.fields Sample.tags Sample.loaded
                 [("brands_tags",
                   JObj [("$nin", JArr [JStr "acme"; JStr "bolt"])])]
                 (createQueryBuilder Product) Product)
      = ok (andWhere (createQueryBuilder Product) (WExists (negateClause c)),
            whereLog)) /\
  evalCond Sample.mirror (WExists c) pt = ok false /\
  evalCond Sample.mirror (WExists (negateClause c)) pt = ok true.
Proof.
  cbv zeta.
  destruct (nin_compiles_as_negated_in
              Sample.fields Sample.tags Sample.loaded "brands_tags"
              [JStr "acme"; JStr "bolt"] Product (createQueryBuilder Product)
              ltac:(discriminate))
    as (_ & _ & _ & Hcompiles & Hnegated).
  destruct (Hcompiles (TagEntity "product_brands_tag") "value" eq_refl eq_refl)
    as (_ & Hsql & _ & Hadd).
  split; [exact Hsql |]. split; [exact Hadd |]. split; [reflexivity |].
  exact (Hnegated Sample.mirror
           (valueClause false (TagEntity "product_brands_tag") Product "value"
              (JObj [("$in", JArr [JStr "acme"; JStr "bolt"])]))
           (Sample.productRow 3 (JStr "003") (JStr "ann") true) false eq_refl).
Defined.

(** ** C2: the absence sentinel *)

Lemma scanIn_sentinel (matchEntity : Entity) (before after : list JsValue)
    (s whereValue not : JsValue) :
  forallb plainScalar before = true -> isSentinel s = true ->
  scanIn matchEntity (before ++ s :: after) whereValue not
  = if entity_eqb matchEntity Product then ok (JNull, not)
    else ok (JUndefined, JBool (negb (truthy not))).
Proof.
  intros Hb Hs. induction before as [| v before IH]; simpl.
  - rewrite Hs. reflexivity.
  - simpl in Hb. apply andb_true_iff in Hb as [Hv Hb].
    unfold plainScalar in Hv. apply andb_true_iff in Hv as [Hv1 Hv2].
    apply negb_true_iff in Hv1, Hv2. rewrite Hv1, Hv2. exact (IH Hb).
Qed.

Lemma mapM_ext {A B} (f g : A -> Res B) (l : list A) :
  (forall x, f x = g x) -> mapM f l = mapM g l.
Proof.
  intros H. induction l as [| x l IH]; simpl; [reflexivity |].
  rewrite H, IH. reflexivity.
Qed.

Lemma mapM_pure {A B} (f : A -> Res B) (g : A -> B) (l : list A) :
  (forall x, In x l -> f x = ok (g x)) -> mapM f l = ok (map g l).
Proof.
  induction l as [| x l IH]; intros H; [reflexivity |].
  simpl. rewrite (H x (or_introl eq_refl)), IH; [reflexivity |].
  intros y Hy. apply H. right. exact Hy.
Qed.

Lemma existsb_map_id {A} (g : A -> bool) (l : list A) :
  existsb (fun b : bool => b) (map g l) = existsb g l.
Proof. induction l as [| x l IH]; simpl; [| rewrite IH]; reflexivity. Qed.

Lemma cell_lookup (column : string) (row : Row) :
  hasColumn column row = true -> cell column row = ok (lookup column row).
Proof.
  unfold cell, hasColumn. induction row as [| [k v] row IH]; simpl;
    [discriminate |].
  destruct (k =? column); [reflexivity | exact IH].
Qed.

(** What a sub-query holds of, when each row of its table passes or
    fails its [where] as [test] says. *)
Lemma evalCond_exists (db : Mirror) (c : ExistsClause) (pt : Row)
    (test : Row -> bool) :
  (forall pt2, In pt2 (db (ex_entity c)) ->
               subRowMatches c pt pt2 = ok (test pt2)) ->
  evalCond db (WExists c) pt
  = ok (xorb (ex_not c) (existsb test (db (ex_entity c)))).
Proof.
  intros H. unfold evalCond. rewrite (mapM_pure _ test _ H).
  simpl. rewrite existsb_map_id. reflexivity.
Qed.

(** C2, as the code has it.  For every [$in] / [$nin] clause whose list
    holds a [null] or zero-length sentinel with only plain scalars
    before it, and whose tag resolves, compilation yields an absence
    test.  In [addMatches], on a [Product] column the sub-query compares
    the column with [null], which the query builder reads as [IS NULL]:
    it holds of a row when a [Product] row of the same product has NULL
    in the column, and is negated for [$nin] only.  In [addMatches] and
    in [getFilterSql], on a tag table the sub-query has no value
    comparison and the quantifier the operator asked for is flipped:
    for [$in] it holds of a row when no row of the tag table belongs to
    its product.  (What [getFilterSql] writes on a [Product] column is
    not part of the statement.) *)
Theorem sentinel_compiles_to_absence
    (MAPPED_FIELDS : list string) (MAPPED_TAGS : string -> option Entity)
    (loadedTags : list string) (t : string) (nin : bool)
    (before after : list JsValue) (s : JsValue)
    (matchEntity parentEntity : Entity) (matchColumn : string)
    (qb : QueryBuilder) :
  forallb plainScalar before = true ->
  isSentinel s = true ->
  outcome (getEntityAndColumn MAPPED_FIELDS MAPPED_TAGS loadedTags t)
  = ok (matchEntity, matchColumn) ->
  let clause := (t, listClause nin (before ++ s :: after)) in
  let compiled := absenceClause nin matchEntity parentEntity matchColumn in
  (exists whereLog,
      outcome (addMatches MAPPED_FIELDS MAPPED_TAGS loadedTags
                 [clause] qb parentEntity)
      = ok (andWhere qb (WExists compiled), whereLog)) /\
  (entity_eqb matchEntity Product = true ->
   forall (db : Mirror) (pt : Row),
     (forall pt2, In pt2 (db Product) -> hasColumn matchColumn pt2 = true) ->
     evalCond db (WExists compiled) pt
     = ok (xorb nin
             (existsb (fun pt2 => joined Product parentEntity pt pt2
                                  && isNullish (lookup matchColumn pt2))
                      (db Product)))) /\
  (entity_eqb matchEntity Product = false ->
   outcome (getFilterSql MAPPED_FIELDS MAPPED_TAGS loadedTags
              [clause] parentEntity) = ok [fragmentOf compiled] /\
   ex_value compiled = None /\
   forall (db : Mirror) (pt : Row),
     evalCond db (WExists compiled) pt
     = ok (xorb (negb nin)
             (existsb (joined matchEntity parentEntity pt) (db matchEntity))) /\
     fragmentHolds db (fragmentOf compiled) pt
     = ok (xorb (negb nin)
             (existsb (joined matchEntity parentEntity pt) (db matchEntity)))).
Proof.
  intros Hb Hs Hres clause compiled.
  assert (Hm : exists m,
             outcome (matchClause MAPPED_FIELDS MAPPED_TAGS loadedTags clause)
             = ok m /\ existsClause parentEntity m = compiled /\
             sqlFragment parentEntity m = fragmentOf compiled).
  { rewrite matchClause_outcome. change (fst clause) with t.
    rewrite Hres.
    change (snd clause) with (listClause nin (before ++ s :: after)).
    unfold ok at 1. cbv iota beta.
    rewrite matchValueOf_list by (destruct before; discriminate).
    rewrite (scanIn_sentinel _ _ _ _ _ _ Hb Hs).
    unfold compiled, absenceClause, existsClause, sqlFragment, fragmentOf.
    destruct (entity_eqb matchEntity Product); eexists; repeat split;
      try reflexivity; destruct nin; reflexivity. }
  destruct Hm as (m & Hm & Hc & Hf). split; [| split].
  - eexists.
    rewrite (addMatches_ok _ _ _ [clause] [m]) by (repeat constructor; exact Hm).
    unfold addClauses. simpl. rewrite Hc. reflexivity.
  - intros HP db pt Hcol.
    assert (matchEntity = Product) as ->
        by (destruct matchEntity; try discriminate; reflexivity).
    rewrite (evalCond_exists db compiled pt
               (fun pt2 => joined Product parentEntity pt pt2
                           && isNullish (lookup matchColumn pt2))).
    + reflexivity.
    + intros pt2 Hin. unfold subRowMatches, joined. simpl.
      destruct (sqlEq _ _); [| reflexivity].
      rewrite (cell_lookup _ _ (Hcol pt2 Hin)). reflexivity.
  - intros HP. split; [| split].
    + simpl. rewrite (outcome_mbind_ok _ _ _ Hm). simpl. rewrite Hf.
      reflexivity.
    + unfold compiled, absenceClause. simpl. rewrite HP. reflexivity.
    + intros db pt.
      assert (Hfrag : fragmentHolds db (fragmentOf compiled) pt
                      = evalCond db (WExists compiled) pt).
      { unfold fragmentHolds, fragmentOf, evalCond, subRowMatches, compiled,
          absenceClause. simpl. rewrite HP. reflexivity. }
      rewrite Hfrag.
      assert (Heval : evalCond db (WExists compiled) pt
                      = ok (xorb (negb nin)
                              (existsb (joined matchEntity parentEntity pt)
                                       (db matchEntity)))).
      { rewrite (evalCond_exists db compiled pt
                   (joined matchEntity parentEntity pt)).
        - unfold compiled, absenceClause. simpl. rewrite HP. reflexivity.
        - intros pt2 Hin. unfold subRowMatches, joined, compiled, absenceClause.
          simpl. rewrite HP. destruct (sqlEq _ _); reflexivity. }
      split; exact Heval.
Qed.

Lemma sentinel_compiles_to_absence_witness :
  let pt := Sample.productRow 2 (JStr "002") JNull false in
  (exists whereLog,
      outcome (addMatches Sample.fields Sample.tags Sample.loaded
                 [("creator", listClause false ([JStr "a"] ++ JNull :: []))]
                 (createQueryBuilder Product) Product)
      = ok (andWhere (createQueryBuilder Product)
              (WExists (absenceClause false Product Product "creator")),
            whereLog)) /\
  evalCond Sample.mirror
    (WExists (absenceClause false Product Product "creator")) pt = ok true /\
  outcome (getFilterSql Sample.fields Sample.tags Sample.loaded
             [("brands_tags", listClause false ([] ++ JArr [] :: []))]
             ProductCountry)
  = ok [fragmentOf (absenceClause false (TagEntity "product_brands_tag")
                      ProductCountry "value")] /\
  fragmentHolds Sample.mirror
    (fragmentOf (absenceClause false (TagEntity "product_brands_tag")
                   ProductCountry "value"))
    [("product_id", JNum 4)] = ok true.
Proof.
  cbv zeta.
  destruct (sentinel_compiles_to_absence
              Sample.fields Sample.tags Sample.loaded "creator"
              false [JStr "a"] [] JNull Product Product "creator"
              (createQueryBuilder Product) eq_refl eq_refl eq_refl)
    as (Hadd & Hnull & _).
  destruct (sentinel_compiles_to_absence
              Sample.fields Sample.tags Sample.loaded "brands_tags"
              false [] [] (JArr []) (TagEntity "product_brands_tag")
              ProductCountry "value"
              (createQueryBuilder Product) eq_refl eq_refl eq_refl)
    as (_ & _ & Htag).
  destruct (Htag eq_refl) as (Hsql & _ & Hholds).
  split; [exact Hadd |]. split; [| split; [exact Hsql |]].
  - refine (Hnull eq_refl Sample.mirror _ _).
    intros pt2 Hin. simpl in Hin.
    destruct Hin as [<- | [<- | [<- | []]]]; reflexivity.
  - exact (proj2 (Hholds Sample.mirror [("product_id", JNum 4)])).
Defined.

(** C2 as stated fails when an object stands before the sentinel: the
    list [[{ a: 1 }, null]] holds a [null], and the clause does not
    compile. *)
Lemma sentinel_after_object_counterexample :
  let L := [JObj [("a", JNum 1)]; JNull] in
  In JNull L /\
  outcome (getFilterSql ["creator"] (fun _ => None) []
             [("creator", listClause false L)] ProductCountry)
  = throw (UnprocessableEntityException
             (UnableToProcess (JObj [("$in", JArr L)]))) /\
  outcome (addMatches ["creator"] (fun _ => None) []
             [("creator", listClause false L)] (createQueryBuilder Product)
             Product)
  = throw (UnprocessableEntityException
             (UnableToProcess (JObj [("$in", JArr L)]))).
Proof. simpl. repeat split. right. left. reflexivity. Qed.

(** ** The pipeline of [aggregate] *)

(** [aggregate] reads the stages, then the tag of the group stage, and
    goes on from there. *)
Lemma aggregate_unfold
    (MAPPED_FIELDS : list string) (MAPPED_TAGS : string -> option Entity)
    (loadedTags : list string) (db : Mirror)
    (body : JsValue) (obsolete : bool) :
  aggregate MAPPED_FIELDS MAPPED_TAGS loadedTags db body obsolete =
  (st <~ lift (readStages body) ;;
   tag <~ lift (groupTag (st_group st)) ;;
   aggregateFrom MAPPED_FIELDS MAPPED_TAGS loadedTags db obsolete st tag).
Proof.
  unfold readStages, groupTag, aggregate.
  destruct (findStage body "$match") as [e | m]; [reflexivity |].
  destruct (findStage body "$group") as [e | g]; [reflexivity |].
  destruct (someStage body "$count") as [e | c]; [reflexivity |].
  destruct (findStage body "$limit") as [e | l]; [reflexivity |].
  destruct (findStage body "$skip") as [e | s]; [reflexivity |].
  cbn [rbind]. rewrite !mbind_lift_ok. cbn [st_group].
  destruct (getProp g "_id") as [e | id]; [reflexivity |].
  cbn [rbind].
  destruct (substring1 id) as [e | tag0]; [reflexivity |].
  cbn [rbind]. rewrite !mbind_lift_ok. reflexivity.
Qed.

Lemma aggregate_stages
    (MAPPED_FIELDS : list string) (MAPPED_TAGS : string -> option Entity)
    (loadedTags : list string) (db : Mirror)
    (body : JsValue) (obsolete : bool) (st : Stages) (tag : string) :
  readStages body = ok st ->
  groupTag (st_group st) = ok tag ->
  aggregate MAPPED_FIELDS MAPPED_TAGS loadedTags db body obsolete =
  aggregateFrom MAPPED_FIELDS MAPPED_TAGS loadedTags db obsolete st tag.
Proof.
  intros Hst Htag. rewrite aggregate_unfold, Hst, mbind_lift_ok, Htag.
  apply mbind_lift_ok.
Qed.

(** ** C5: what does not compile is a client-input error *)

Lemma scanIn_object (matchEntity : Entity) (before after : list JsValue)
    (x whereValue not : JsValue) :
  forallb plainScalar before = true ->
  isSentinel x = false -> isObject x = true ->
  scanIn matchEntity (before ++ x :: after) whereValue not
  = throwUnprocessableException (UnableToProcess whereValue).
Proof.
  intros Hb Hs Ho. induction before as [| v before IH]; simpl.
  - rewrite Hs, Ho. reflexivity.
  - simpl in Hb. apply andb_true_iff in Hb as [Hv Hb].
    unfold plainScalar in Hv. apply andb_true_iff in Hv as [Hv1 Hv2].
    apply negb_true_iff in Hv1, Hv2. rewrite Hv1, Hv2. exact (IH Hb).
Qed.

Lemma matchValueOf_unwrapped (matchEntity : Entity) (v : JsValue) :
  isObject (unwrapped v) = true ->
  singleListOperator (unwrapped v) = false ->
  matchValueOf matchEntity v
  = throwUnprocessableException (UnableToProcess (unwrapped v)).
Proof.
  unfold matchValueOf, unwrapped. cbv zeta.
  set (w := if truthy (getPropOpt v "$ne") then getPropOpt v "$ne" else v).
  intros Ho Hs. rewrite Ho.
  destruct w as [| | b | n | s | l | es]; try discriminate.
  - destruct l as [| x [| y l]]; reflexivity.
  - destruct es as [| [k x] [| e es]]; try reflexivity.
    simpl in Hs. unfold objectKeys. simpl. rewrite Hs. reflexivity.
Qed.

Lemma matchValueOf_empty (matchEntity : Entity) (v : JsValue) (nin : bool) :
  unwrapped v = listClause nin [] ->
  matchValueOf matchEntity v
  = throwUnprocessableException (UnableToProcess (unwrapped v)).
Proof.
  unfold matchValueOf, unwrapped. cbv zeta.
  set (w := if truthy (getPropOpt v "$ne") then getPropOpt v "$ne" else v).
  intros ->. destruct nin; reflexivity.
Qed.

Lemma matchValueOf_element (matchEntity : Entity) (v : JsValue) (nin : bool)
    (before after : list JsValue) (x : JsValue) :
  unwrapped v = listClause nin (before ++ x :: after) ->
  forallb plainScalar before = true ->
  isSentinel x = false -> isObject x = true ->
  matchValueOf matchEntity v
  = throwUnprocessableException
      (UnableToProcess (JObj [("$in", JArr (before ++ x :: after))])).
Proof.
  unfold matchValueOf, unwrapped. cbv zeta.
  set (w := if truthy (getPropOpt v "$ne") then getPropOpt v "$ne" else v).
  intros -> Hb Hs Ho.
  assert (Hlen : truthy (JNum (Z.of_nat (List.length (before ++ x :: after))))
                 = true).
  { rewrite length_app. simpl. rewrite Nat.add_succ_r. reflexivity. }
  destruct nin; cbn -[scanIn truthy List.length Z.of_nat]; rewrite Hlen;
    cbn -[scanIn]; apply scanIn_object; assumption.
Qed.

Lemma rejected_throws
    (MAPPED_FIELDS : list string) (MAPPED_TAGS : string -> option Entity)
    (loadedTags : list string) (c : Clause) (msg : Message) :
  Rejected MAPPED_FIELDS MAPPED_TAGS loadedTags c msg ->
  outcome (matchClause MAPPED_FIELDS MAPPED_TAGS loadedTags c)
  = throw (UnprocessableEntityException msg).
Proof.
  intros H. rewrite matchClause_outcome.
  destruct H as [t v Hf Ht | t v entity Hf Ht Hl | t v [ent col] Hr Ho Hs
                | t v [ent col] nin Hr He
                | t v [ent col] nin before after x Hr He Hb Hs Ho]; simpl fst; simpl snd.
  - rewrite (getEntityAndColumn_unknown _ _ _ _ Hf Ht). reflexivity.
  - rewrite (getEntityAndColumn_not_loaded _ _ _ _ _ Hf Ht Hl). reflexivity.
  - rewrite Hr. unfold ok at 1. cbv iota beta.
    rewrite (matchValueOf_unwrapped _ _ Ho Hs). reflexivity.
  - rewrite Hr. unfold ok at 1. cbv iota beta.
    rewrite (matchValueOf_empty _ _ _ He). reflexivity.
  - rewrite Hr. unfold ok at 1. cbv iota beta.
    rewrite (matchValueOf_element _ _ _ _ _ _ He Hb Hs Ho). reflexivity.
Qed.

Lemma mbind_stops {A B} (m : M A) (k : A -> M B) (e : Exn) :
  outcome m = throw e ->
  outcome (mbind m k) = throw e /\ trace (mbind m k) = trace m.
Proof.
  intros H. split;
    [exact (outcome_mbind_throw _ _ _ H) | exact (trace_mbind_throw _ _ _ H)].
Qed.

(** The exceptions of a round: a [TypeError] or the client-input
    error. *)
Lemma rbind_inv {A B} (r : Res A) (k : A -> Res B) (e : Exn) :
  rbind r k = inl e -> r = inl e \/ exists a, r = ok a /\ k a = inl e.
Proof.
  destruct r as [e' | a]; simpl; intros H.
  - left. injection H as ->. reflexivity.
  - right. exists a. split; [reflexivity | exact H].
Qed.

Lemma getProp_TypeError (v : JsValue) (key : string) (e : Exn) :
  getProp v key = inl e -> e = TypeError.
Proof.
  destruct v; simpl; try discriminate;
    try (intros H; injection H as <-; reflexivity);
    destruct (key =? "length"); discriminate.
Qed.

Lemma scanIn_client (matchEntity : Entity) (values : list JsValue)
    (whereValue not : JsValue) (e : Exn) :
  scanIn matchEntity values whereValue not = inl e ->
  exists msg, e = UnprocessableEntityException msg.
Proof.
  induction values as [| v values IH]; simpl; [discriminate |].
  destruct (isSentinel v).
  - destruct (entity_eqb matchEntity Product); discriminate.
  - destruct (isObject v); [| exact IH].
    intros H. injection H as <-. eexists. reflexivity.
Qed.

Lemma matchValueOf_throws (matchEntity : Entity) (matchValue : JsValue)
    (e : Exn) :
  matchValueOf matchEntity matchValue = inl e ->
  e = TypeError \/ exists msg, e = UnprocessableEntityException msg.
Proof.
  unfold matchValueOf. cbv zeta.
  set (w := if truthy (getPropOpt matchValue "$ne")
            then getPropOpt matchValue "$ne" else matchValue).
  destruct (isObject w); [| discriminate].
  intros H. apply rbind_inv in H as [H | (keys & Hk & H)].
  { left. unfold objectKeys in H.
    apply rbind_inv in H as [H | (es & _ & H)]; [| discriminate].
    destruct w; simpl in H; try discriminate; injection H as <-; reflexivity. }
  apply rbind_inv in H as [H | (unable & Hu & H)].
  { left. destruct (negb (List.length keys =? 1)%nat); [discriminate |].
    destruct (negb (includes (hd "" keys) ["$in"; "$nin"])); [discriminate |].
    apply rbind_inv in H as [H | (operand & _ & H)];
      [exact (getProp_TypeError _ _ _ H) |].
    apply rbind_inv in H as [H | (len & _ & H)];
      [exact (getProp_TypeError _ _ _ H) | discriminate]. }
  destruct unable.
  { right. injection H as <-. eexists. reflexivity. }
  apply rbind_inv in H as [H | (operand & _ & H)];
    [left; exact (getProp_TypeError _ _ _ H) |].
  apply rbind_inv in H as [H | (values & _ & H)].
  { left. destruct operand; simpl in H; try discriminate;
      injection H as <-; reflexivity. }
  right. exact (scanIn_client _ _ _ _ _ H).
Qed.

Lemma getEntityAndColumn_throws
    (MAPPED_FIELDS : list string) (MAPPED_TAGS : string -> option Entity)
    (loadedTags : list string) (tag : string) (e : Exn) :
  outcome (getEntityAndColumn MAPPED_FIELDS MAPPED_TAGS loadedTags tag) = inl e ->
  exists msg, e = UnprocessableEntityException msg.
Proof.
  unfold getEntityAndColumn.
  destruct ((tag =? "") || includes tag MAPPED_FIELDS); [discriminate |].
  destruct (MAPPED_TAGS tag) as [entity |].
  - cbn. destruct (negb (includes tag loadedTags)); [| discriminate].
    intros H. injection H as <-. eexists. reflexivity.
  - intros H. injection H as <-. eexists. reflexivity.
Qed.

Lemma matchClause_throws
    (MAPPED_FIELDS : list string) (MAPPED_TAGS : string -> option Entity)
    (loadedTags : list string) (c : Clause) (e : Exn) :
  outcome (matchClause MAPPED_FIELDS MAPPED_TAGS loadedTags c) = inl e ->
  e = TypeError \/ exists msg, e = UnprocessableEntityException msg.
Proof.
  rewrite matchClause_outcome.
  destruct (outcome (getEntityAndColumn MAPPED_FIELDS MAPPED_TAGS loadedTags
                       (fst c))) as [e' | [ent col]] eqn:Hr.
  - intros H. injection H as <-. right.
    exact (getEntityAndColumn_throws _ _ _ _ _ Hr).
  - destruct (matchValueOf ent (snd c)) as [e' | [w n]] eqn:Hv; [| discriminate].
    intros H. injection H as <-. exact (matchValueOf_throws _ _ _ Hv).
Qed.

Section Rejection.

Variable MAPPED_FIELDS : list string.
Variable MAPPED_TAGS : string -> option Entity.
Variable loadedTags : list string.
Variable db : Mirror.

Local Abbreviation compiles :=
  (Forall2 (fun f m =>
              outcome (matchClause MAPPED_FIELDS MAPPED_TAGS loadedTags f) = ok m)).
Local Abbreviation noTypeError :=
  (Forall (fun f =>
             outcome (matchClause MAPPED_FIELDS MAPPED_TAGS loadedTags f)
             <> throw TypeError)).

Variables (before after : list Clause) (c : Clause).
Variable msg : Message.

Hypothesis c_rejected : Rejected MAPPED_FIELDS MAPPED_TAGS loadedTags c msg.

(** The first clause that fails decides: when no clause before [c]
    raises a [TypeError], [addMatches] ends with a client-input error,
    that of [c] when the clauses before it compile. *)
Lemma addMatches_fails (qb : QueryBuilder) (parentEntity : Entity) :
  noTypeError before ->
  exists msg',
    outcome (addMatches MAPPED_FIELDS MAPPED_TAGS loadedTags
               (before ++ c :: after) qb parentEntity)
    = throw (UnprocessableEntityException msg') /\
    (forall ms, compiles before ms -> msg' = msg).
Proof.
  intros Hb. revert qb. induction Hb as [| f before Hf _ IH]; intros qb.
  - exists msg. split; [| reflexivity].
    simpl. apply outcome_mbind_throw.
    exact (rejected_throws _ _ _ _ _ c_rejected).
  - destruct (outcome (matchClause MAPPED_FIELDS MAPPED_TAGS loadedTags f))
      as [e | m] eqn:Hm.
    + destruct (matchClause_throws _ _ _ _ _ Hm) as [-> | [msg' ->]];
        [contradiction Hf; reflexivity |].
      exists msg'. split.
      * simpl. apply outcome_mbind_throw. exact Hm.
      * intros ms Hc. inversion Hc as [| ? m' ? ? Hf' _]; subst.
        rewrite Hm in Hf'. discriminate.
    + destruct (IH (andWhere qb (WExists (existsClause parentEntity m))))
        as (msg' & Ho & Hmsg).
      exists msg'. split.
      * change ((f :: before) ++ c :: after)
          with (f :: (before ++ c :: after)).
        rewrite (addMatches_cons _ _ _ _ _ _ _ _ Hm), Ho. reflexivity.
      * intros ms Hc. inversion Hc as [| ? m' ? ms' _ Hc']; subst.
        exact (Hmsg _ Hc').
Qed.

Lemma addMatches_rejects {B} (qb : QueryBuilder) (parentEntity : Entity)
    (k : QueryBuilder * list WhereLog -> M B) :
  noTypeError before ->
  exists msg',
    rejects (mbind (addMatches MAPPED_FIELDS MAPPED_TAGS loadedTags
                      (before ++ c :: after) qb parentEntity) k) msg' /\
    (forall ms, compiles before ms -> msg' = msg).
Proof.
  intros Hb. destruct (addMatches_fails qb parentEntity Hb) as (msg' & H & Hmsg).
  exists msg'. split; [| exact Hmsg].
  destruct (mbind_stops _ k _ H) as [Ho Ht]. split; [exact Ho |].
  rewrite Ht. apply addMatches_quiet.
Qed.

Lemma count_rejects (body : JsValue) (obsolete : bool) :
  parseFilter (if isNullish body then JObj [] else body)
  = ok (before ++ c :: after) ->
  noTypeError before ->
  exists msg',
    rejects (count MAPPED_FIELDS MAPPED_TAGS loadedTags db body obsolete) msg' /\
    (forall ms, compiles before ms -> msg' = msg).
Proof.
  intros Hp. unfold count. rewrite Hp, mbind_lift_ok. cbv zeta.
  apply addMatches_rejects.
Qed.

Lemma select_rejects (body : JsValue) :
  parseFilter body = ok (before ++ c :: after) ->
  noTypeError before ->
  exists msg',
    rejects (select MAPPED_FIELDS MAPPED_TAGS loadedTags db body) msg' /\
    (forall ms, compiles before ms -> msg' = msg).
Proof.
  intros Hp. unfold select. cbv zeta. rewrite Hp, mbind_lift_ok.
  apply addMatches_rejects.
Qed.

Lemma aggregate_rejects (body : JsValue) (obsolete : bool) (st : Stages)
    (tag : string) :
  readStages body = ok st ->
  groupTag (st_group st) = ok tag ->
  parseFilter (st_match st) = ok (before ++ c :: after) ->
  noTypeError before ->
  exists msg',
    rejects (aggregate MAPPED_FIELDS MAPPED_TAGS loadedTags db body obsolete)
            msg' /\
    (forall resolved ms,
        outcome (getEntityAndColumn MAPPED_FIELDS MAPPED_TAGS loadedTags tag)
        = ok resolved ->
        compiles before ms -> msg' = msg).
Proof.
  intros Hst Htag Hp Hb.
  rewrite (aggregate_stages _ _ _ _ _ _ _ _ Hst Htag). unfold aggregateFrom.
  pose proof (getEntityAndColumn_quiet MAPPED_FIELDS MAPPED_TAGS loadedTags tag)
    as Hq.
  pose proof (getEntityAndColumn_throws MAPPED_FIELDS MAPPED_TAGS loadedTags tag)
    as Hthrows.
  destruct (getEntityAndColumn MAPPED_FIELDS MAPPED_TAGS loadedTags tag)
    as [tr [e | [entity column]]].
  - destruct (Hthrows e eq_refl) as [msg' ->]. exists msg'. split.
    + split; [reflexivity | exact Hq].
    + intros resolved ms H. discriminate.
  - simpl in Hq. unfold mbind at 1. cbv zeta. rewrite Hp, mbind_lift_ok.
    match goal with
    | |- exists msg', rejects (let (t', r) := ?m in _) _ /\ _ =>
        destruct (addMatches_rejects _ _ _ Hb : exists msg',
                     rejects m msg' /\ _) as (msg' & [Ho Ht] & Hmsg);
        destruct m as [t' r]
    end.
    exists msg'. split.
    + simpl in *. split; [exact Ho |].
      apply existsb_app_false; assumption.
    + intros resolved ms _ Hc. exact (Hmsg _ Hc).
Qed.

End Rejection.

(** A group tag that does not resolve is a client-input error of
    [aggregate], whatever the match stage. *)
Lemma aggregate_rejects_group
    (MAPPED_FIELDS : list string) (MAPPED_TAGS : string -> option Entity)
    (loadedTags : list string) (db : Mirror) (body : JsValue) (obsolete : bool)
    (st : Stages) (tag : string) (msg : Message) :
  readStages body = ok st ->
  groupTag (st_group st) = ok tag ->
  outcome (getEntityAndColumn MAPPED_FIELDS MAPPED_TAGS loadedTags tag)
  = throw (UnprocessableEntityException msg) ->
  rejects (aggregate MAPPED_FIELDS MAPPED_TAGS loadedTags db body obsolete) msg.
Proof.
  intros Hst Htag Hres.
  rewrite (aggregate_stages _ _ _ _ _ _ _ _ Hst Htag). unfold aggregateFrom.
  pose proof (getEntityAndColumn_quiet MAPPED_FIELDS MAPPED_TAGS loadedTags tag)
    as Hq.
  destruct (getEntityAndColumn MAPPED_FIELDS MAPPED_TAGS loadedTags tag)
    as [tr [e | resolved]]; simpl in Hres; [| discriminate].
  injection Hres as ->. split; [reflexivity | exact Hq].
Qed.

(** C5, as the code has it.  Take a filter that normalizes, a clause
    [c] of it that is rejected (its tag is unknown, or collection-valued
    and not loaded, or its value is an object other than a single-key
    [$in] / [$nin], or its list is empty, or its list holds an object
    or non-empty array with only plain scalars before it), and suppose
    that no clause before [c] raises a [TypeError].  Then [count],
    [select] and [aggregate] (for a pipeline whose stages and group tag
    can be read) end with an [UnprocessableEntityException] and have
    run no statement: nothing is returned.  The exception is that of
    the first clause that fails, so it carries the message of [c] when
    the clauses before it compile (and, for [aggregate], the group tag
    resolves).  A group tag that does not resolve makes [aggregate] end
    in the same way, whatever the match stage. *)
Theorem rejected_clause_is_client_error
    (MAPPED_FIELDS : list string) (MAPPED_TAGS : string -> option Entity)
    (loadedTags : list string) (db : Mirror)
    (before after : list Clause) (c : Clause) (msg : Message) :
  Rejected MAPPED_FIELDS MAPPED_TAGS loadedTags c msg ->
  Forall (fun f =>
            outcome (matchClause MAPPED_FIELDS MAPPED_TAGS loadedTags f)
            <> throw TypeError) before ->
  (forall body obsolete,
      parseFilter (if isNullish body then JObj [] else body)
      = ok (before ++ c :: after) ->
      exists msg',
        rejects (count MAPPED_FIELDS MAPPED_TAGS loadedTags db body obsolete)
                msg' /\
        (forall ms,
            Forall2 (fun f m =>
                       outcome (matchClause MAPPED_FIELDS MAPPED_TAGS
                                  loadedTags f) = ok m) before ms ->
            msg' = msg)) /\
  (forall body,
      parseFilter body = ok (before ++ c :: after) ->
      exists msg',
        rejects (select MAPPED_FIELDS MAPPED_TAGS loadedTags db body) msg' /\
        (forall ms,
            Forall2 (fun f m =>
                       outcome (matchClause MAPPED_FIELDS MAPPED_TAGS
                                  loadedTags f) = ok m) before ms ->
            msg' = msg)) /\
  (forall body obsolete st tag,
      readStages body = ok st ->
      groupTag (st_group st) = ok tag ->
      parseFilter (st_match st) = ok (before ++ c :: after) ->
      exists msg',
        rejects (aggregate MAPPED_FIELDS MAPPED_TAGS loadedTags db body obsolete)
                msg' /\
        (forall resolved ms,
            outcome (getEntityAndColumn MAPPED_FIELDS MAPPED_TAGS loadedTags tag)
            = ok resolved ->
            Forall2 (fun f m =>
                       outcome (matchClause MAPPED_FIELDS MAPPED_TAGS
                                  loadedTags f) = ok m) before ms ->
            msg' = msg)) /\
  (forall body obsolete st tag msg',
      readStages body = ok st ->
      groupTag (st_group st) = ok tag ->
      outcome (getEntityAndColumn MAPPED_FIELDS MAPPED_TAGS loadedTags tag)
      = throw (UnprocessableEntityException msg') ->
      rejects (aggregate MAPPED_FIELDS MAPPED_TAGS loadedTags db body obsolete)
              msg').
Proof.
  intros Hc Hb. split; [| split; [| split]].
  - intros body obsolete Hp.
    exact (count_rejects _ _ _ _ _ _ _ _ Hc body obsolete Hp Hb).
  - intros body Hp.
    exact (select_rejects _ _ _ _ _ _ _ _ Hc body Hp Hb).
  - intros body obsolete st tag Hst Htag Hp.
    exact (aggregate_rejects _ _ _ _ _ _ _ _ Hc body obsolete st tag
             Hst Htag Hp Hb).
  - intros body obsolete st tag msg'. apply aggregate_rejects_group.
Qed.

Lemma rejected_clause_is_client_error_witness :
  let db := mirrorOf (fun _ => []) in
  let emptyList := JObj [("$in", JArr [])] in
  rejects (count ["creator"] (fun _ => None) [] db
             (JObj [("creator", emptyList)]) false)
          (UnableToProcess emptyList) /\
  rejects (select ["creator"] (fun _ => None) [] db
             (JObj [("creator", emptyList)]))
          (UnableToProcess emptyList) /\
  rejects (aggregate ["creator"] (fun _ => None) [] db
             (JArr [JObj [("$match", JObj [("creator", emptyList)])];
                    JObj [("$group", JObj [("_id", JStr "$creator")])]])
             false)
          (UnableToProcess emptyList) /\
  rejects (aggregate ["creator"] (fun _ => None) [] db
             (JArr [JObj [("$match", JObj [])];
                    JObj [("$group", JObj [("_id", JStr "$zzz")])]])
             false)
          (TagNotSupported "zzz").
Proof.
  cbv zeta.
  destruct (rejected_clause_is_client_error
              ["creator"] (fun _ => None) [] (mirrorOf (fun _ => []))
              [] [] ("creator", JObj [("$in", JArr [])])
              (UnableToProcess (JObj [("$in", JArr [])]))
              (RejectEmptyList ["creator"] (fun _ => None) [] "creator"
                 (JObj [("$in", JArr [])]) (Product, "creator") false
                 eq_refl eq_refl)
              (Forall_nil _))
    as (Hcount & Hselect & Haggregate & Hgroup).
  split; [| split; [| split]].
  - destruct (Hcount (JObj [("creator", JObj [("$in", JArr [])])]) false eq_refl)
      as (msg' & Hr & Hmsg).
    rewrite <- (Hmsg [] (Forall2_nil _)). exact Hr.
  - destruct (Hselect (JObj [("creator", JObj [("$in", JArr [])])]) eq_refl)
      as (msg' & Hr & Hmsg).
    rewrite <- (Hmsg [] (Forall2_nil _)). exact Hr.
  - destruct (Haggregate
                (JArr [JObj [("$match",
                              JObj [("creator", JObj [("$in", JArr [])])])];
                       JObj [("$group", JObj [("_id", JStr "$creator")])]])
                false
                {| st_match := JObj [("creator", JObj [("$in", JArr [])])];
                   st_group := JObj [("_id", JStr "$creator")];
                   st_count := false; st_limit := JUndefined;
                   st_skip := JUndefined |}
                "creator" eq_refl eq_refl eq_refl)
      as (msg' & Hr & Hmsg).
    rewrite <- (Hmsg (Product, "creator") [] eq_refl (Forall2_nil _)). exact Hr.
  - exact (Hgroup
             (JArr [JObj [("$match", JObj [])];
                    JObj [("$group", JObj [("_id", JStr "$zzz")])]])
             false
             {| st_match := JObj []; st_group := JObj [("_id", JStr "$zzz")];
                st_count := false; st_limit := JUndefined;
                st_skip := JUndefined |}
             "zzz" (TagNotSupported "zzz") eq_refl eq_refl eq_refl).
Defined.

(** C5 as stated fails in three ways.  A non-scalar list element that
    comes after an absence sentinel is never looked at: the list
    [[null, { a: 1 }]] holds an object, and [count] and [select] run
    their statement and return.  A clause that raises a [TypeError]
    comes first: with [{ creator: { $in: null }, zzz: 1 }] the tag
    [zzz] is unknown and [count] and [select] end with a [TypeError].
    And a filter that does not normalize never reaches compilation:
    with [{ zzz: 1, creator: null }] they end with a [TypeError] too,
    as does [aggregate] for a pipeline without a group stage. *)
Lemma object_after_sentinel_counterexample :
  let db := mirrorOf (fun _ => []) in
  let L := [JNull; JObj [("a", JNum 1)]] in
  let body := JObj [("creator", JObj [("$in", JArr L)])] in
  let typeErrorFirst :=
    JObj [("creator", JObj [("$in", JNull)]); ("zzz", JNum 1)] in
  let notNormal := JObj [("zzz", JNum 1); ("creator", JNull)] in
  (In (JObj [("a", JNum 1)]) L /\
   isObject (JObj [("a", JNum 1)]) = true /\
   outcome (count ["creator"] (fun _ => None) [] db body false) = ok (Int 0) /\
   outcome (select ["creator"] (fun _ => None) [] db body) = ok [] /\
   existsb isExecute
     (trace (count ["creator"] (fun _ => None) [] db body false)) = true) /\
  (Rejected ["creator"] (fun _ => None) [] ("zzz", JNum 1)
     (TagNotSupported "zzz") /\
   outcome (count ["creator"] (fun _ => None) [] db typeErrorFirst false)
   = throw TypeError /\
   outcome (select ["creator"] (fun _ => None) [] db typeErrorFirst)
   = throw TypeError) /\
  (outcome (count ["creator"] (fun _ => None) [] db notNormal false)
   = throw TypeError /\
   outcome (select ["creator"] (fun _ => None) [] db notNormal)
   = throw TypeError /\
   outcome (aggregate ["creator"] (fun _ => None) [] db
              (JArr [JObj [("$match", JObj [("zzz", JNum 1)])]]) false)
   = throw TypeError).
Proof.
  simpl. repeat split.
  - right. left. reflexivity.
  - apply RejectUnknownTag; reflexivity.
Qed.

(** ** C9: a pipeline without a group stage *)

Lemma getProp_throws (v : JsValue) (key : string) (e : Exn) :
  getProp v key = inl e -> e = TypeError.
Proof.
  destruct v; simpl; try discriminate; try (intros H; injection H as <-; reflexivity).
  - destruct (key =? "length"); discriminate.
  - destruct (key =? "length"); discriminate.
Qed.

Lemma findStage_throws (body : JsValue) (key : string) (e : Exn) :
  findStage body key = inl e -> e = TypeError.
Proof.
  destruct body as [| | b | n | s | stages | es]; simpl;
    try (intros H; injection H as <-; reflexivity).
  induction stages as [| o stages IH]; [discriminate |].
  destruct (getProp o key) as [e' | v] eqn:Ho; simpl.
  - intros H. injection H as <-. exact (getProp_throws _ _ _ Ho).
  - destruct (truthy v); [discriminate | exact IH].
Qed.

Lemma someStage_throws (body : JsValue) (key : string) (e : Exn) :
  someStage body key = inl e -> e = TypeError.
Proof.
  unfold someStage. destruct (findStage body key) as [e' | v] eqn:H; simpl.
  - intros H'. injection H' as <-. exact (findStage_throws _ _ _ H).
  - discriminate.
Qed.

Lemma findStage_no_group (body v : JsValue) :
  noGroupStage body = true -> findStage body "$group" = ok v -> v = JUndefined.
Proof.
  destruct body as [| | b | n | s | stages | es]; simpl; try discriminate.
  induction stages as [| o stages IH]; simpl.
  - intros _ H. injection H as <-. reflexivity.
  - intros Hn. apply andb_true_iff in Hn as [Ho Hn].
    unfold getPropOpt in Ho.
    destruct (getProp o "$group") as [e | g]; simpl; [discriminate |].
    apply negb_true_iff in Ho. rewrite Ho. exact (IH Hn).
Qed.

(** C9.  For every pipeline without a group stage, [aggregate] raises a
    [TypeError] (not the client-input error) and has made no call to a
    store: neither the Loaded-Tag Registry nor the mirror is reached. *)
Theorem aggregate_without_group
    (MAPPED_FIELDS : list string) (MAPPED_TAGS : string -> option Entity)
    (loadedTags : list string) (db : Mirror)
    (body : JsValue) (obsolete : bool) :
  noGroupStage body = true ->
  aggregate MAPPED_FIELDS MAPPED_TAGS loadedTags db body obsolete
  = ([], throw TypeError).
Proof.
  intros Hn. unfold aggregate.
  destruct (findStage body "$match") as [e | m] eqn:Hm.
  { rewrite (findStage_throws _ _ _ Hm). reflexivity. }
  rewrite mbind_lift_ok.
  destruct (findStage body "$group") as [e | g] eqn:Hg.
  { rewrite (findStage_throws _ _ _ Hg). reflexivity. }
  rewrite mbind_lift_ok. rewrite (findStage_no_group _ _ Hn Hg).
  destruct (someStage body "$count") as [e | c] eqn:Hc.
  { rewrite (someStage_throws _ _ _ Hc). reflexivity. }
  rewrite mbind_lift_ok.
  destruct (findStage body "$limit") as [e | l] eqn:Hl.
  { rewrite (findStage_throws _ _ _ Hl). reflexivity. }
  rewrite mbind_lift_ok.
  destruct (findStage body "$skip") as [e | s] eqn:Hs.
  { rewrite (findStage_throws _ _ _ Hs). reflexivity. }
  rewrite mbind_lift_ok. reflexivity.
Qed.

Lemma aggregate_without_group_witness :
  aggregate ["creator"] (fun _ => None) [] (mirrorOf (fun _ => []))
    (JArr [JObj [("$match", JObj [("creator", JStr "x")])];
           JObj [("$count", JNum 1)]]) false
  = ([], throw TypeError).
Proof.
  apply (aggregate_without_group ["creator"] (fun _ => None) [] (mirrorOf (fun _ => []))
           (JArr [JObj [("$match", JObj [("creator", JStr "x")])];
                  JObj [("$count", JNum 1)]]) false).
  reflexivity.
Defined.

(** ** C7: the count mode of [aggregate] *)

Lemma addClauses_fields (parentEntity : Entity) (ms : list Match)
    (qb : QueryBuilder) :
  qb_entity (addClauses parentEntity ms qb) = qb_entity qb /\
  qb_select (addClauses parentEntity ms qb) = qb_select qb /\
  qb_distinct (addClauses parentEntity ms qb) = qb_distinct qb /\
  qb_groupBy (addClauses parentEntity ms qb) = qb_groupBy qb.
Proof.
  revert qb. induction ms as [| m ms IH]; intros qb; [repeat split |].
  unfold addClauses in *. simpl.
  destruct (IH (andWhere qb (WExists (existsClause parentEntity m))))
    as (H1 & H2 & H3 & H4).
  rewrite H1, H2, H3, H4. repeat split.
Qed.

Lemma matchingRows_addClauses (db : Mirror) (parentEntity : Entity)
    (ms : list Match) (qb : QueryBuilder) :
  matchingRows db (addClauses parentEntity ms qb)
  = rowsWhere db (qb_entity qb)
      (qb_where qb ++ map (fun m => WExists (existsClause parentEntity m)) ms).
Proof.
  unfold matchingRows, rowsWhere.
  rewrite addClauses_where.
  destruct (addClauses_fields parentEntity ms qb) as (-> & _). reflexivity.
Qed.



(** Without the count stage the same pipeline returns the facets. *)
Example aggregate_facets_sample :
  outcome (aggregate Sample.fields Sample.tags Sample.loaded Sample.mirror
             (JArr [JObj [("$match", JObj [])];
                    JObj [("$group", JObj [("_id", JStr "$brands_tags")])]])
             false)
  = ok (JArr [JObj [("_id", JStr "acme"); ("count", JStr "2")];
              JObj [("_id", JStr "bolt"); ("count", JStr "1")]]).
Proof. reflexivity. Qed.

(** [distinct] keeps one cell of each group: no two cells it keeps fall
    in the same group. *)
Lemma distinct_pairwise (l : list JsValue) :
  ForallOrdPairs (fun x y => sameKey x y = false) (distinct l).
Proof.
  induction l as [| x l IH]; simpl; [constructor |].
  constructor.
  - apply Forall_forall. intros y Hy. apply filter_In in Hy as [_ Hy].
    apply negb_true_iff in Hy. exact Hy.
  - clear -IH. induction IH as [| y ys Hy _ IH']; simpl; [constructor |].
    destruct (negb (sameKey x y)); [| exact IH'].
    constructor; [| exact IH'].
    apply Forall_forall. intros z Hz. apply filter_In in Hz as [Hz _].
    rewrite Forall_forall in Hy. exact (Hy z Hz).
Qed.

(** Every cell that is not an object or array falls in the group of a
    cell [distinct] keeps. *)
Lemma sameKey_refl (x : JsValue) : isObject x = false -> sameKey x x = true.
Proof.
  destruct x; simpl; try discriminate; intros _; unfold sameKey; simpl;
    try reflexivity.
  - apply Bool.eqb_reflx.
  - apply Z.eqb_refl.
  - apply String.eqb_refl.
Qed.

Lemma sameKey_trans (x y z : JsValue) :
  sameKey x y = true -> sameKey y z = true -> sameKey x z = true.
Proof.
  unfold sameKey.
  destruct x, y; simpl; try discriminate; destruct z; simpl;
    try discriminate; try reflexivity; intros H1 H2.
  - apply Bool.eqb_prop in H1, H2. subst. apply Bool.eqb_reflx.
  - apply Z.eqb_eq in H1, H2. subst. apply Z.eqb_refl.
  - apply String.eqb_eq in H1, H2. subst. apply String.eqb_refl.
Qed.

Lemma distinct_covers (l : list JsValue) (x : JsValue) :
  In x l -> isObject x = false ->
  exists y, In y (distinct l) /\ sameKey y x = true.
Proof.
  intros Hin Hx. induction l as [| a l IH]; [contradiction |].
  simpl. destruct Hin as [-> | Hin].
  - exists x. split; [left; reflexivity | apply sameKey_refl; exact Hx].
  - destruct (IH Hin) as (y & Hy & Hyx).
    destruct (sameKey a y) eqn:Hay.
    + exists a. split; [left; reflexivity |].
      exact (sameKey_trans _ _ _ Hay Hyx).
    + exists y. split; [| exact Hyx].
      right. apply filter_In. split; [exact Hy |]. rewrite Hay. reflexivity.
Qed.

(** ** C10: the obsolete flag *)

Lemma quiet_no_execute (t : list Effect) (stmt : Statement) :
  existsb isExecute t = false -> ~ In (Execute stmt) t.
Proof.
  intros Hq Hin.
  assert (existsb isExecute t = true) as H
      by (apply existsb_exists; exists (Execute stmt); split; [exact Hin | reflexivity]).
  congruence.
Qed.

Lemma execute_then_trace {B} (db : Mirror) (stmt : Statement)
    (k : list JsValue -> M B) :
  (forall results, trace (k results) = []) ->
  trace (mbind (execute db stmt) k) = [Execute stmt].
Proof.
  intros Hk. unfold execute, mbind.
  destruct (runStatement db stmt) as [e | results]; [reflexivity |].
  specialize (Hk results). destruct (k results) as [t r]. simpl in *.
  subst. reflexivity.
Qed.

Lemma lift_then_trace {A B} (r : Res A) (k : A -> M B) :
  (forall a, trace (k a) = []) -> trace (mbind (lift r) k) = [].
Proof.
  intros Hk. destruct r as [e | a]; [reflexivity |].
  rewrite mbind_lift_ok. apply Hk.
Qed.

(** The statements an operation runs: after the rounds of [addMatches],
    which run none, the one handed to [execute]. *)
Lemma addMatches_then_execute {B}
    (MAPPED_FIELDS : list string) (MAPPED_TAGS : string -> option Entity)
    (loadedTags : list string) (db : Mirror)
    (filters : list Clause) (qb0 : QueryBuilder) (parentEntity : Entity)
    (mk : QueryBuilder -> Statement) (k : list JsValue -> M B)
    (stmt : Statement) :
  (forall results, trace (k results) = []) ->
  In (Execute stmt)
     (trace (mbind (addMatches MAPPED_FIELDS MAPPED_TAGS loadedTags
                      filters qb0 parentEntity)
                   (fun r => match r with
                             | (qb, whereLog) => mbind (execute db (mk qb)) k
                             end))) ->
  exists ms, stmt = mk (addClauses parentEntity ms qb0).
Proof.
  intros Hk Hin.
  pose proof (addMatches_quiet MAPPED_FIELDS MAPPED_TAGS loadedTags
                filters qb0 parentEntity) as Hq.
  destruct (outcome (addMatches MAPPED_FIELDS MAPPED_TAGS loadedTags
                       filters qb0 parentEntity)) as [e | [qb wl]] eqn:Ho.
  - rewrite (trace_mbind_throw _ _ _ Ho) in Hin.
    destruct (quiet_no_execute _ _ Hq Hin).
  - rewrite (trace_mbind_ok _ _ _ Ho) in Hin.
    rewrite (execute_then_trace _ _ _ Hk) in Hin.
    apply in_app_or in Hin as [Hin | [Hin | []]].
    + destruct (quiet_no_execute _ _ Hq Hin).
    + injection Hin as <-.
      destruct (addMatches_ok_inv _ _ _ _ _ _ _ _ Ho) as (ms & _ & -> & _).
      exists ms. reflexivity.
Qed.

Lemma Forall2_functional {A B} (g : A -> Res B) (l : list A) (ms ms' : list B) :
  Forall2 (fun f m => g f = ok m) l ms ->
  Forall2 (fun f m => g f = ok m) l ms' -> ms = ms'.
Proof.
  intros H. revert ms'. induction H as [| f m l ms Hf _ IH]; intros ms' H'.
  - inversion H'. reflexivity.
  - inversion H' as [| ? m' ? ms'' Hf' Hl']; subst.
    rewrite Hf in Hf'. injection Hf' as <-. rewrite (IH _ Hl'). reflexivity.
Qed.

(** One more condition in front of a conjunction keeps, of the rows the
    conjunction keeps, those that satisfy it. *)
Lemma rowsWhere_cons (db : Mirror) (entity : Entity)
    (c : Cond) (cs : list Cond) (some all : list Row) :
  rowsWhere db entity (c :: cs) = ok some ->
  rowsWhere db entity cs = ok all ->
  some = filter (fun pt => match evalCond db c pt with
                           | inr b => b
                           | inl _ => false
                           end) all.
Proof.
  unfold rowsWhere. generalize (db entity) as l. intros l. revert some all.
  induction l as [| pt l IH]; simpl; intros some all H1 H2.
  - injection H1 as <-. injection H2 as <-. reflexivity.
  - destruct (evalCond db c pt) as [e | b] eqn:Hc; [discriminate |].
    simpl in H1.
    destruct (allM (fun c0 => evalCond db c0 pt) cs) as [e | bs];
      [discriminate |].
    simpl in H1, H2.
    destruct (filterM _ l) as [e | some'] eqn:Hs in H1; [discriminate |].
    destruct (filterM _ l) as [e | all'] eqn:Ha in H2; [discriminate |].
    simpl in H1, H2. injection H1 as <-. injection H2 as <-.
    rewrite (IH _ _ Hs Ha).
    destruct b, bs; simpl; rewrite ?Hc; reflexivity.
Qed.

Section Obsolete.

Variable MAPPED_FIELDS : list string.
Variable MAPPED_TAGS : string -> option Entity.
Variable loadedTags : list string.
Variable db : Mirror.

Local Abbreviation select' := (select MAPPED_FIELDS MAPPED_TAGS loadedTags db).
Local Abbreviation count' := (count MAPPED_FIELDS MAPPED_TAGS loadedTags db).
Local Abbreviation aggregate' :=
  (aggregate MAPPED_FIELDS MAPPED_TAGS loadedTags db).
Local Abbreviation compiles :=
  (Forall2 (fun f m =>
              outcome (matchClause MAPPED_FIELDS MAPPED_TAGS loadedTags f) = ok m)).

Lemma select_statement (body : JsValue) (stmt : Statement) :
  In (Execute stmt) (trace (select' body)) ->
  forallb isExists (qb_where (builderOf stmt)) = true.
Proof.
  unfold select. cbv zeta.
  destruct (parseFilter body) as [e | filters]; [intros [] |].
  rewrite mbind_lift_ok. intros Hin.
  apply (addMatches_then_execute _ _ _ _ _ _ _ Query) in Hin;
    [| reflexivity].
  destruct Hin as (ms & ->). simpl. rewrite addClauses_where. simpl.
  induction ms as [| m ms IH]; [reflexivity | exact IH].
Qed.

Lemma count_statement (body : JsValue) (obsolete : bool) (stmt : Statement) :
  In (Execute stmt) (trace (count' body obsolete)) ->
  hd_error (qb_where (builderOf stmt)) = Some (WRaw (obsoleteWhere obsolete)).
Proof.
  unfold count. cbv zeta.
  destruct (parseFilter _) as [e | filters]; [intros [] |].
  rewrite mbind_lift_ok. intros Hin.
  apply (addMatches_then_execute _ _ _ _ _ _ _ Query) in Hin.
  - destruct Hin as (ms & ->). simpl. rewrite addClauses_where. reflexivity.
  - intros results. apply lift_then_trace. reflexivity.
Qed.

Lemma aggregate_statement (body : JsValue) (obsolete : bool) (stmt : Statement) :
  In (Execute stmt) (trace (aggregate' body obsolete)) ->
  hd_error (qb_where (builderOf stmt)) = Some (WRaw (obsoleteWhere obsolete)).
Proof.
  rewrite aggregate_unfold.
  destruct (readStages body) as [e | st]; [intros [] |].
  rewrite mbind_lift_ok.
  destruct (groupTag (st_group st)) as [e | tag]; [intros [] |].
  rewrite mbind_lift_ok. unfold aggregateFrom.
  pose proof (getEntityAndColumn_quiet MAPPED_FIELDS MAPPED_TAGS loadedTags tag)
    as Hq.
  destruct (getEntityAndColumn MAPPED_FIELDS MAPPED_TAGS loadedTags tag)
    as [tr [e | [entity column]]].
  { intros Hin. destruct (quiet_no_execute _ _ Hq Hin). }
  unfold mbind at 1. cbv zeta.
  destruct (parseFilter (st_match st)) as [e | filters].
  { simpl. rewrite app_nil_r. intros Hin.
    destruct (quiet_no_execute _ _ Hq Hin). }
  rewrite mbind_lift_ok.
  match goal with
  | |- In _ (trace (let (t', r) := ?m in _)) -> _ =>
      destruct m as [t' r] eqn:Hm
  end.
  simpl trace. intros Hin. apply in_app_or in Hin as [Hin | Hin].
  { destruct (quiet_no_execute _ _ Hq Hin). }
  assert (Hin' : In (Execute stmt) (trace (t', r))) by exact Hin.
  rewrite <- Hm in Hin'.
  apply (addMatches_then_execute _ _ _ _ _ _ _
           (fun qb =>
              if st_count st then CountRows qb
              else
                Query (let qb := qbGroupOrder qb column in
                       let qb := if truthy (st_limit st)
                                 then qbLimit qb (st_limit st) else qb in
                       if truthy (st_skip st)
                       then qbOffset qb (st_skip st) else qb))) in Hin'.
  - destruct Hin' as (ms & ->).
    destruct (st_count st), (truthy (st_limit st)), (truthy (st_skip st));
      simpl; rewrite addClauses_where; reflexivity.
  - intros results. destruct (st_count st); [| reflexivity].
    apply lift_then_trace. reflexivity.
Qed.

Lemma select_ok_inv (body : JsValue) (rows : list JsValue) :
  outcome (select' body) = ok rows ->
  exists filters ms found,
    parseFilter body = ok filters /\ compiles filters ms /\
    rowsWhere db Product (map (fun m => WExists (existsClause Product m)) ms)
    = ok found /\
    Permutation rows (map JObj found).
Proof.
  unfold select. cbv zeta.
  destruct (parseFilter body) as [e | filters]; [discriminate |].
  rewrite mbind_lift_ok.
  destruct (outcome (addMatches MAPPED_FIELDS MAPPED_TAGS loadedTags filters
                       (qbSelect (createQueryBuilder Product) SelStar) Product))
    as [e | [qb wl]] eqn:Ho.
  { rewrite (outcome_mbind_throw _ _ _ Ho). discriminate. }
  rewrite (outcome_mbind_ok _ _ _ Ho).
  destruct (addMatches_ok_inv _ _ _ _ _ _ _ _ Ho) as (ms & Hms & -> & _).
  unfold execute, runStatement, runQuery. rewrite matchingRows_addClauses.
  destruct (addClauses_fields Product ms
              (qbSelect (createQueryBuilder Product) SelStar))
    as (_ & Hsel & Hdis & Hgrp).
  rewrite Hsel, Hdis, Hgrp. simpl qb_where. simpl qb_entity. simpl app.
  destruct (rowsWhere db Product _) as [e | found] eqn:Hf; [discriminate |].
  simpl. intros H. injection H as <-.
  exists filters, ms, found. repeat split; try assumption.
  apply Permutation_map, rowOrder_perm.
Qed.

Lemma count_ok_inv (body : JsValue) (obsolete : bool) (n : Num) :
  outcome (count' body obsolete) = ok n ->
  exists filters ms found,
    parseFilter (if isNullish body then JObj [] else body) = ok filters /\
    compiles filters ms /\
    rowsWhere db Product (conditions Product obsolete ms) = ok found /\
    n = Int (Z.of_nat (List.length found)).
Proof.
  unfold count. cbv zeta.
  destruct (parseFilter _) as [e | filters]; [discriminate |].
  rewrite mbind_lift_ok.
  destruct (outcome (addMatches MAPPED_FIELDS MAPPED_TAGS loadedTags filters
                       (andWhere (qbSelect (createQueryBuilder Product)
                                    SelCountStar)
                                 (WRaw (obsoleteWhere obsolete))) Product))
    as [e | [qb wl]] eqn:Ho.
  { rewrite (outcome_mbind_throw _ _ _ Ho). discriminate. }
  rewrite (outcome_mbind_ok _ _ _ Ho).
  destruct (addMatches_ok_inv _ _ _ _ _ _ _ _ Ho) as (ms & Hms & -> & _).
  unfold execute, runStatement, runQuery. rewrite matchingRows_addClauses.
  destruct (addClauses_fields Product ms
              (andWhere (qbSelect (createQueryBuilder Product) SelCountStar)
                        (WRaw (obsoleteWhere obsolete))))
    as (_ & Hsel & Hdis & Hgrp).
  rewrite Hsel, Hdis, Hgrp. simpl qb_where. simpl qb_entity. simpl app.
  fold (conditions Product obsolete ms).
  destruct (rowsWhere db Product _) as [e | found] eqn:Hf; [discriminate |].
  cbn -[parseInt decimal]. rewrite parseInt_decimal.
  intros H. injection H as <-.
  exists filters, ms, found. repeat split; assumption.
Qed.

Lemma Permutation_filter_length {A} (f : A -> bool) (l l' : list A) :
  Permutation l l' ->
  List.length (filter f l) = List.length (filter f l').
Proof.
  induction 1 as [| x l l' _ IH | x y l | l l' l'' _ IH1 _ IH2]; simpl.
  - reflexivity.
  - destruct (f x); simpl; rewrite IH; reflexivity.
  - destruct (f x), (f y); reflexivity.
  - rewrite IH1. exact IH2.
Qed.

Lemma evalCond_obsolete (obsolete : bool) (pt : Row) :
  evalCond db (WRaw (obsoleteWhere obsolete)) pt
  = ok (flagIs obsolete (JObj pt)).
Proof. destruct obsolete; reflexivity. Qed.

(** In either mode [count] counts, of the rows [select] returns, those
    whose flag is the one asked for. *)
Lemma count_of_selected (body : JsValue) (obsolete : bool)
    (rows : list JsValue) (n : Num) :
  outcome (select' body) = ok rows ->
  outcome (count' body obsolete) = ok n ->
  n = Int (Z.of_nat (List.length (filter (flagIs obsolete) rows))).
Proof.
  intros Hs Hc.
  destruct (select_ok_inv _ _ Hs) as (filters & ms & found & Hp & Hms & Hf & Hperm).
  destruct (count_ok_inv _ _ _ Hc) as (filters' & ms' & found' & Hp' & Hms' & Hf' & ->).
  assert (isNullish body = false) as Hb
      by (destruct body; try reflexivity; discriminate).
  rewrite Hb, Hp in Hp'. injection Hp' as <-.
  rewrite <- (Forall2_functional _ _ _ _ Hms Hms') in Hf'.
  unfold conditions in Hf'. rewrite (rowsWhere_cons _ _ _ _ _ _ Hf' Hf).
  do 2 f_equal.
  rewrite (Permutation_filter_length _ _ _ Hperm).
  rewrite (filter_ext _ (fun pt => flagIs obsolete (JObj pt)))
    by (intros pt; rewrite evalCond_obsolete; reflexivity).
  clear. induction found as [| pt found IH]; [reflexivity |].
  simpl. destruct (flagIs obsolete (JObj pt)); simpl; rewrite IH; reflexivity.
Qed.

Lemma executed_in_trace {B} (stmt : Statement) (k : list JsValue -> M B) (b : B) :
  outcome (mbind (execute db stmt) k) = ok b ->
  In (Execute stmt) (trace (mbind (execute db stmt) k)).
Proof.
  unfold execute, mbind.
  destruct (runStatement db stmt) as [e | results]; [discriminate |].
  destruct (k results) as [t r]. intros _. left. reflexivity.
Qed.

(** An operation that returns has run its statement. *)
Lemma select_executes (body : JsValue) (rows : list JsValue) :
  outcome (select' body) = ok rows ->
  exists stmt, In (Execute stmt) (trace (select' body)).
Proof.
  unfold select. cbv zeta. intros H.
  apply mbind_ok_inv in H as (filters & _ & H & ->).
  apply mbind_ok_inv in H as ([qb wl] & _ & H & ->).
  exists (Query qb). apply in_or_app. right. apply in_or_app. right.
  exact (executed_in_trace _ _ _ H).
Qed.

Lemma count_executes (body : JsValue) (obsolete : bool) (n : Num) :
  outcome (count' body obsolete) = ok n ->
  exists stmt, In (Execute stmt) (trace (count' body obsolete)).
Proof.
  unfold count. cbv zeta. intros H.
  apply mbind_ok_inv in H as (filters & _ & H & ->).
  apply mbind_ok_inv in H as ([qb wl] & _ & H & ->).
  exists (Query qb). apply in_or_app. right. apply in_or_app. right.
  exact (executed_in_trace _ _ _ H).
Qed.

Lemma aggregate_executes (body : JsValue) (obsolete : bool) (v : JsValue) :
  outcome (aggregate' body obsolete) = ok v ->
  exists stmt, In (Execute stmt) (trace (aggregate' body obsolete)).
Proof.
  rewrite aggregate_unfold. unfold aggregateFrom. intros H.
  apply mbind_ok_inv in H as (st & _ & H & ->).
  apply mbind_ok_inv in H as (tag & _ & H & ->).
  apply mbind_ok_inv in H as ([entity column] & _ & H & ->).
  cbv zeta in H |- *.
  apply mbind_ok_inv in H as (filters & _ & H & ->).
  apply mbind_ok_inv in H as ([qb wl] & _ & H & ->).
  eexists. do 5 (apply in_or_app; right).
  exact (executed_in_trace _ _ _ H).
Qed.

End Obsolete.

(** C10.  [select] puts no condition on the obsolete flag: the
    statement it runs has only the [EXISTS] conditions of the filter.
    [count] and [aggregate] always start their conjunction with the
    predicate of [obsoleteWhere], which keeps the rows whose flag is
    [false], or [true] when the caller asks for the obsolete mode; an
    operation that returns has run its statement, and the rows a
    statement keeps satisfy each condition of its conjunction, so the
    rows the statement of [count] or [aggregate] ranges over all have
    the flag asked for.  So, for
    the same filter and in either mode, [count] counts exactly those of
    the rows [select] returns whose flag is the one asked for, never
    more than [select] returns, and on the sample mirror [select]
    returns strictly more products than [count] counts. *)
Theorem select_ignores_obsolete_flag
    (MAPPED_FIELDS : list string) (MAPPED_TAGS : string -> option Entity)
    (loadedTags : list string) (db : Mirror) (body : JsValue) :
  (forall stmt,
      In (Execute stmt)
         (trace (select MAPPED_FIELDS MAPPED_TAGS loadedTags db body)) ->
      forallb isExists (qb_where (builderOf stmt)) = true) /\
  (forall obsolete stmt,
      In (Execute stmt)
         (trace (count MAPPED_FIELDS MAPPED_TAGS loadedTags db body obsolete)) ->
      hd_error (qb_where (builderOf stmt))
      = Some (WRaw (obsoleteWhere obsolete))) /\
  (forall obsolete stmt,
      In (Execute stmt)
         (trace (aggregate MAPPED_FIELDS MAPPED_TAGS loadedTags db body obsolete)) ->
      hd_error (qb_where (builderOf stmt))
      = Some (WRaw (obsoleteWhere obsolete))) /\
  (forall rows,
      outcome (select MAPPED_FIELDS MAPPED_TAGS loadedTags db body) = ok rows ->
      exists stmt,
        In (Execute stmt)
           (trace (select MAPPED_FIELDS MAPPED_TAGS loadedTags db body))) /\
  (forall obsolete n,
      outcome (count MAPPED_FIELDS MAPPED_TAGS loadedTags db body obsolete)
      = ok n ->
      exists stmt,
        In (Execute stmt)
           (trace (count MAPPED_FIELDS MAPPED_TAGS loadedTags db body obsolete))) /\
  (forall obsolete v,
      outcome (aggregate MAPPED_FIELDS MAPPED_TAGS loadedTags db body obsolete)
      = ok v ->
      exists stmt,
        In (Execute stmt)
           (trace (aggregate MAPPED_FIELDS MAPPED_TAGS loadedTags db body
                     obsolete))) /\
  (forall obsolete pt,
      evalCond db (WRaw (obsoleteWhere obsolete)) pt
      = ok (flagIs obsolete (JObj pt))) /\
  (forall entity conds rows pt,
      rowsWhere db entity conds = ok rows ->
      In pt rows -> Forall (fun c => evalCond db c pt = ok true) conds) /\
  (forall obsolete stmt rows pt,
      In (Execute stmt)
         (trace (count MAPPED_FIELDS MAPPED_TAGS loadedTags db body obsolete)) \/
      In (Execute stmt)
         (trace (aggregate MAPPED_FIELDS MAPPED_TAGS loadedTags db body
                   obsolete)) ->
      matchingRows db (builderOf stmt) = ok rows ->
      In pt rows -> flagIs obsolete (JObj pt) = true) /\
  (forall obsolete rows n,
      outcome (select MAPPED_FIELDS MAPPED_TAGS loadedTags db body) = ok rows ->
      outcome (count MAPPED_FIELDS MAPPED_TAGS loadedTags db body obsolete)
      = ok n ->
      n = Int (Z.of_nat (List.length (filter (flagIs obsolete) rows))) /\
      (List.length (filter (flagIs obsolete) rows) <= List.length rows)%nat) /\
  (exists rows n,
      outcome (select Sample.fields Sample.tags Sample.loaded Sample.mirror
                 (JObj [])) = ok rows /\
      outcome (count Sample.fields Sample.tags Sample.loaded Sample.mirror
                 (JObj []) false) = ok (Int n) /\
      (n < Z.of_nat (List.length rows))%Z).
Proof.
  split; [apply select_statement |].
  split; [intros obsolete stmt; apply count_statement |].
  split; [intros obsolete stmt; apply aggregate_statement |].
  split; [apply select_executes |].
  split; [intros obsolete n; apply count_executes |].
  split; [intros obsolete v; apply aggregate_executes |].
  split; [intros obsolete pt; apply evalCond_obsolete |].
  split.
  { intros entity conds rows pt H Hin.
    apply (rowsWhere_In _ _ _ _ pt H). exact Hin. }
  split.
  { intros obsolete stmt rows pt Hin Hrows Hpt.
    assert (Hhd : hd_error (qb_where (builderOf stmt))
                  = Some (WRaw (obsoleteWhere obsolete))).
    { destruct Hin as [Hin | Hin].
      - exact (count_statement _ _ _ _ _ _ _ Hin).
      - exact (aggregate_statement _ _ _ _ _ _ _ Hin). }
    change (matchingRows db (builderOf stmt))
      with (rowsWhere db (qb_entity (builderOf stmt))
                      (qb_where (builderOf stmt))) in Hrows.
    apply (rowsWhere_In _ _ _ _ pt Hrows) in Hpt as [_ Hall].
    destruct (qb_where (builderOf stmt)) as [| c conds]; [discriminate |].
    injection Hhd as ->. inversion Hall as [| c' conds' Hc _]; subst.
    rewrite evalCond_obsolete in Hc. injection Hc as ->. reflexivity. }
  split.
  { intros obsolete rows n Hs Hc. split.
    - exact (count_of_selected _ _ _ _ _ _ _ _ Hs Hc).
    - clear. induction rows as [| r rows IH]; simpl; [lia |].
      destruct (flagIs obsolete r); simpl; lia. }
  eexists. eexists. split; [reflexivity |]. split; [reflexivity |].
  reflexivity.
Qed.

Lemma select_ignores_obsolete_flag_witness :
  let body := JObj [("creator", JStr "ann")] in
  let rows := [JObj (Sample.productRow 1 (JStr "001") (JStr "ann") false);
               JObj (Sample.productRow 3 (JStr "003") (JStr "ann") true)] in
  let stmt :=
    Query (andWhere
             (andWhere (qbSelect (createQueryBuilder Product) SelCountStar)
                       (WRaw (obsoleteWhere true)))
             (WExists (valueClause false Product Product "creator"
                         (JStr "ann")))) in
  outcome (select Sample.fields Sample.tags Sample.loaded Sample.mirror body)
  = ok rows /\
  outcome (count Sample.fields Sample.tags Sample.loaded Sample.mirror body
             false) = ok (Int 1) /\
  Int 1 = Int (Z.of_nat (List.length (filter (flagIs false) rows))) /\
  (List.length (filter (flagIs false) rows) <= List.length rows)%nat /\
  In (Execute stmt)
     (trace (count Sample.fields Sample.tags Sample.loaded Sample.mirror body
               true)) /\
  matchingRows Sample.mirror (builderOf stmt)
  = ok [Sample.productRow 3 (JStr "003") (JStr "ann") true] /\
  flagIs true (JObj (Sample.productRow 3 (JStr "003") (JStr "ann") true))
  = true.
Proof.
  cbv zeta.
  destruct (select_ignores_obsolete_flag Sample.fields Sample.tags
              Sample.loaded Sample.mirror (JObj [("creator", JStr "ann")]))
    as (_ & _ & _ & _ & _ & _ & _ & _ & Hflag & Hcount & _).
  split; [reflexivity |]. split; [reflexivity |].
  assert (Hin : In (Execute
                      (Query (andWhere
                                (andWhere (qbSelect (createQueryBuilder Product)
                                             SelCountStar)
                                          (WRaw (obsoleteWhere true)))
                                (WExists (valueClause false Product Product
                                            "creator" (JStr "ann"))))))
                   (trace (count Sample.fields Sample.tags Sample.loaded
                             Sample.mirror (JObj [("creator", JStr "ann")])
                             true)))
    by (left; reflexivity).
  destruct (Hcount false
              [JObj (Sample.productRow 1 (JStr "001") (JStr "ann") false);
               JObj (Sample.productRow 3 (JStr "003") (JStr "ann") true)]
              (Int 1) eq_refl eq_refl) as [Hn Hle].
  split; [exact Hn |]. split; [exact Hle |]. split; [exact Hin |].
  split; [reflexivity |].
  exact (Hflag true _ [Sample.productRow 3 (JStr "003") (JStr "ann") true]
           (Sample.productRow 3 (JStr "003") (JStr "ann") true)
           (or_introl Hin) eq_refl (or_introl eq_refl)).
Defined.

(** ** C3: the order of the records [find] returns *)

Lemma slot_nil {A} (i : nat) : slot (@nil (option A)) i = None.
Proof. unfold slot. destruct i; reflexivity. Qed.

(** Reading back a write to a JavaScript array. *)
Lemma slot_setIndex {A} (arr : list (option A)) (j i : nat) (x : A) :
  slot (setIndex arr j x) i = if (j =? i)%nat then Some x else slot arr i.
Proof.
  revert arr i. induction j as [| j IH]; intros arr i.
  - destruct arr as [| y arr], i as [| i]; try reflexivity.
    simpl. unfold slot. simpl. destruct i; reflexivity.
  - destruct arr as [| y arr], i as [| i]; try reflexivity.
    + simpl setIndex. change (slot (None :: setIndex [] j x) (S i))
        with (slot (setIndex [] j x) i).
      rewrite IH. rewrite !slot_nil. reflexivity.
    + simpl setIndex. change (slot (y :: setIndex arr j x) (S i))
        with (slot (setIndex arr j x) i).
      rewrite IH. reflexivity.
Qed.

Lemma length_setIndex {A} (arr : list (option A)) (j : nat) (x : A) :
  List.length (setIndex arr j x) = Nat.max (List.length arr) (S j).
Proof.
  revert arr. induction j as [| j IH]; intros [| y arr]; simpl;
    try reflexivity; rewrite ?IH; try reflexivity.
  destruct (List.length arr); reflexivity.
Qed.

Lemma indexOf_bound (codes : list JsValue) (x : JsValue) (i : nat) :
  indexOf codes x = Some i -> (i < List.length codes)%nat.
Proof.
  revert i. induction codes as [| y codes IH]; simpl; intros i; [discriminate |].
  destruct (strictEq y x).
  - intros H. injection H as <-. lia.
  - destruct (indexOf codes x) as [j |]; simpl; [| discriminate].
    intros H. injection H as <-. specialize (IH j eq_refl). lia.
Qed.

Lemma truthy_getProp (data : JsValue) (key : string) :
  truthy data = true -> getProp data key = ok (getPropOpt data key).
Proof.
  unfold getPropOpt. destruct data; simpl; try discriminate; intros _;
    try reflexivity; destruct (key =? "length"); reflexivity.
Qed.

(** The loop over the cursor never raises. *)
Lemma collect_total (productCodes cursor : list JsValue)
    (acc : list (option JsValue)) :
  exists res, collect productCodes cursor acc = ok res.
Proof.
  revert acc. induction cursor as [| data cursor IH]; intros acc; simpl.
  - exists acc. reflexivity.
  - destruct (truthy data) eqn:Ht; simpl; [| exists acc; reflexivity].
    rewrite (truthy_getProp _ _ Ht). simpl.
    destruct (indexOf productCodes (getPropOpt data "code")); apply IH.
Qed.

Lemma collect_slots (productCodes cursor : list JsValue)
    (acc res : list (option JsValue)) :
  Forall (ranked productCodes) cursor ->
  collect productCodes cursor acc = ok res ->
  (forall i, slot res i = fold_left (fetchStep productCodes i) cursor (slot acc i)) /\
  (List.length acc <= List.length productCodes ->
   List.length res <= List.length productCodes)%nat.
Proof.
  intros HF. revert acc. induction HF as [| data cursor [Ht Hi] _ IH];
    intros acc; simpl.
  - intros H. injection H as <-. split; [reflexivity | exact (fun H => H)].
  - rewrite Ht. simpl. rewrite (truthy_getProp _ _ Ht). simpl.
    destruct (indexOf productCodes (getPropOpt data "code")) as [j |] eqn:Hj;
      [| contradiction].
    intros H. destruct (IH _ H) as [Hs Hl]. split.
    + intros i. rewrite Hs, slot_setIndex. f_equal.
      unfold fetchStep. rewrite Hj. reflexivity.
    + intros Ha. apply Hl. rewrite length_setIndex.
      pose proof (indexOf_bound _ _ _ Hj). lia.
Qed.

Lemma slot_push {A} (arr : list (option A)) (y : A) (i : nat) :
  slot (push arr y) i
  = if (i =? List.length arr)%nat then Some y else slot arr i.
Proof.
  unfold slot, push. destruct (Nat.eqb_spec i (List.length arr)) as [-> | Hne].
  - rewrite nth_error_app2 by lia. rewrite Nat.sub_diag. reflexivity.
  - destruct (Nat.lt_ge_cases i (List.length arr)) as [Hlt | Hge].
    + rewrite nth_error_app1 by exact Hlt. reflexivity.
    + rewrite (proj2 (nth_error_None (arr ++ [Some y]) i))
        by (rewrite length_app; simpl; lia).
      rewrite (proj2 (nth_error_None arr i)) by lia. reflexivity.
Qed.

Lemma slot_length {A} (arr : list (option A)) :
  slot arr (List.length arr) = None.
Proof.
  unfold slot. rewrite (proj2 (nth_error_None arr (List.length arr)));
    [reflexivity | lia].
Qed.

(** The loop sees the cursor up to its first falsy record. *)
Lemma collect_live (productCodes cursor : list JsValue)
    (acc : list (option JsValue)) :
  collect productCodes (live cursor) acc = collect productCodes cursor acc.
Proof.
  revert acc. induction cursor as [| data cursor IH]; intros acc; simpl;
    [reflexivity |].
  destruct (truthy data) eqn:Ht; simpl; [| reflexivity].
  rewrite Ht. simpl. destruct (getProp data "code") as [e | code]; simpl;
    [reflexivity |].
  destruct (indexOf productCodes code); apply IH.
Qed.

Lemma live_truthy (cursor : list JsValue) (d : JsValue) :
  In d (live cursor) -> truthy d = true.
Proof.
  induction cursor as [| data cursor IH]; simpl; [contradiction |].
  destruct (truthy data) eqn:Ht; [| contradiction].
  intros [<- | H]; [exact Ht | exact (IH H)].
Qed.

(** A round never empties a rank, and a record of the rank fills it. *)
Lemma fetched_stays (productCodes : list JsValue) (i : nat)
    (l : list JsValue) (x : JsValue) :
  exists d, fold_left (fetchStep productCodes i) l (Some x) = Some d.
Proof.
  revert x. induction l as [| y l IH]; intros x; simpl; [exists x; reflexivity |].
  unfold fetchStep at 2.
  destruct (indexOf productCodes (getPropOpt y "code")) as [j |]; [| apply IH].
  destruct (j =? i)%nat; apply IH.
Qed.

Lemma fetched_ranked (productCodes : list JsValue) (i : nat)
    (l : list JsValue) (init : option JsValue) (d : JsValue) :
  In d l -> indexOf productCodes (getPropOpt d "code") = Some i ->
  exists d', fold_left (fetchStep productCodes i) l init = Some d'.
Proof.
  revert init. induction l as [| y l IH]; intros init; simpl; [contradiction |].
  intros [-> | Hin] Hd.
  - unfold fetchStep at 2. rewrite Hd, Nat.eqb_refl. apply fetched_stays.
  - apply IH; assumption.
Qed.

Lemma fetched_In (productCodes : list JsValue) (i : nat)
    (l : list JsValue) (init : option JsValue) (d : JsValue) :
  fold_left (fetchStep productCodes i) l init = Some d ->
  init = Some d \/
  (In d l /\ indexOf productCodes (getPropOpt d "code") = Some i).
Proof.
  revert init. induction l as [| y l IH]; intros init; simpl; [left; assumption |].
  intros H. destruct (IH _ H) as [Hy | [Hin Hd]].
  - unfold fetchStep in Hy.
    destruct (indexOf productCodes (getPropOpt y "code")) as [j |] eqn:Hj;
      [| left; exact Hy].
    destruct (Nat.eqb_spec j i) as [-> | _]; [| left; exact Hy].
    injection Hy as ->. right. split; [left; reflexivity | exact Hj].
  - right. split; [right; exact Hin | exact Hd].
Qed.

(** The record fetched last for a rank is in the slot of the rank. *)
Lemma collect_places (productCodes cursor : list JsValue)
    (acc res : list (option JsValue)) (i : nat) (init : option JsValue) :
  collect productCodes cursor acc = ok res ->
  (forall x, init = Some x -> slot acc i = Some x) ->
  forall d, fold_left (fetchStep productCodes i) (live cursor) init = Some d ->
            slot res i = Some d.
Proof.
  revert acc init. induction cursor as [| data cursor IH]; intros acc init; simpl.
  - intros H Hinv d Hd. injection H as <-. apply Hinv, Hd.
  - destruct (truthy data) eqn:Ht; simpl.
    2: { intros H Hinv d Hd. injection H as <-. apply Hinv, Hd. }
    rewrite (truthy_getProp _ _ Ht). simpl.
    destruct (indexOf productCodes (getPropOpt data "code")) as [j |] eqn:Hj;
      intros H Hinv; apply (IH _ _ H); intros x Hx;
      unfold fetchStep in Hx; rewrite Hj in Hx.
    + rewrite slot_setIndex. destruct (j =? i)%nat; [exact Hx | apply Hinv, Hx].
    + rewrite slot_push. destruct (Nat.eqb_spec i (List.length acc)) as [-> | _];
        [| apply Hinv, Hx].
      pose proof (slot_length acc) as Hl.
      rewrite (Hinv x Hx) in Hl. discriminate.
Qed.

(** What a slot holds was there before, or is a record the loop
    consumed: one of the rank of the slot, or one without a rank. *)
Lemma collect_holds (productCodes cursor : list JsValue)
    (acc res : list (option JsValue)) (i : nat) (d : JsValue) :
  collect productCodes cursor acc = ok res ->
  slot res i = Some d ->
  slot acc i = Some d \/
  (In d (live cursor) /\
   (indexOf productCodes (getPropOpt d "code") = Some i \/
    indexOf productCodes (getPropOpt d "code") = None)).
Proof.
  revert acc. induction cursor as [| data cursor IH]; intros acc; simpl.
  - intros H Hd. injection H as <-. left. exact Hd.
  - destruct (truthy data) eqn:Ht; simpl.
    2: { intros H Hd. injection H as <-. left. exact Hd. }
    rewrite (truthy_getProp _ _ Ht). simpl.
    destruct (indexOf productCodes (getPropOpt data "code")) as [j |] eqn:Hj;
      intros H Hd; destruct (IH _ H Hd) as [Hs | [Hin Hr]];
      try (right; split; [right; exact Hin | exact Hr]).
    + rewrite slot_setIndex in Hs.
      destruct (Nat.eqb_spec j i) as [-> | _]; [| left; exact Hs].
      injection Hs as ->. right. split; [left; reflexivity | left; exact Hj].
    + rewrite slot_push in Hs.
      destruct (i =? List.length acc)%nat; [| left; exact Hs].
      injection Hs as ->. right. split; [left; reflexivity | right; exact Hj].
Qed.

Lemma outcome_mbind_inv {A B} (m : M A) (k : A -> M B) (b : B) :
  outcome (mbind m k) = ok b ->
  exists a, outcome m = ok a /\ outcome (k a) = ok b.
Proof.
  destruct m as [t [e | a]]; simpl; [discriminate |].
  intros H. exists a. split; [reflexivity |].
  destruct (k a). exact H.
Qed.

Ltac invert_bind H :=
  let x := fresh "x" in
  let Hx := fresh "Hx" in
  apply outcome_mbind_inv in H as (x & Hx & H); simpl in Hx.

(** What [find] returns is what the loop over the cursor leaves, for
    the codes of the rows the ranking statement answers and the records
    the document store yields for these codes. *)
Lemma find_ok_inv
    (MAPPED_FIELDS : list string) (MAPPED_TAGS : string -> option Entity)
    (ProductCountry_TAG : string) (loadedTags : list string)
    (countryRows : JsValue -> list JsValue)
    (rankedRows : RankQuery -> list JsValue)
    (mongoFind : list JsValue -> JsValue -> list JsValue)
    (body : JsValue) (obsolete : bool) (res : list (option JsValue)) :
  outcome (find MAPPED_FIELDS MAPPED_TAGS ProductCountry_TAG loadedTags
             countryRows rankedRows mongoFind body obsolete) = ok res ->
  exists q productCodes projection,
    rq_obsolete q = obsolete /\
    mapM (fun r => getProp r "code") (rankedRows q) = ok productCodes /\
    collect productCodes (mongoFind productCodes projection) [] = ok res.
Proof.
  unfold find. intros H.
  invert_bind H. destruct x; [discriminate |].
  invert_bind H. destruct (negb (includes ProductCountry_TAG x)); [discriminate |].
  invert_bind H. invert_bind H.
  destruct (negb (strictEq x1 JUndefined) && negb (isString x1)); [discriminate |].
  cbv zeta in H.
  invert_bind H. invert_bind H. invert_bind H. invert_bind H. invert_bind H.
  invert_bind H. invert_bind H. invert_bind H. invert_bind H. invert_bind H.
  simpl in H. unfold ok in *.
  repeat match goal with
         | E : inr _ = inr ?y |- _ => is_var y; injection E as <-
         end.
  eexists _, _, _. split; [| split]; [| eassumption | eassumption].
  reflexivity.
Qed.

(** C3, as the code has it.  When [find] returns, the array it returns
    is what the loop over the cursor leaves for the codes the ranking
    statement answered and the records the document store yielded for
    them.  The loop never raises, whatever the cursor yields: a code
    without a record is no error.  At each rank, the record fetched for
    the code of the rank (the last one, should the cursor yield
    several; the one, when the cursor yields one record per code)
    stands in the slot of the rank; and what a slot holds is
    that record or, when none was fetched for the rank, a fetched
    record whose code is not in the rank list, which the loop appends.
    So the fetched records that carry a code of the rank list stand in
    rank order, at the index of their rank; when all do, the slot of a
    rank without a record is empty and the array is no longer than the
    rank list. *)
Theorem find_places_records_at_their_rank
    (MAPPED_FIELDS : list string) (MAPPED_TAGS : string -> option Entity)
    (ProductCountry_TAG : string) (loadedTags : list string)
    (countryRows : JsValue -> list JsValue)
    (rankedRows : RankQuery -> list JsValue)
    (mongoFind : list JsValue -> JsValue -> list JsValue)
    (body : JsValue) (obsolete : bool) (res : list (option JsValue)) :
  outcome (find MAPPED_FIELDS MAPPED_TAGS ProductCountry_TAG loadedTags
             countryRows rankedRows mongoFind body obsolete) = ok res ->
  (exists q productCodes projection,
      rq_obsolete q = obsolete /\
      mapM (fun r => getProp r "code") (rankedRows q) = ok productCodes /\
      collect productCodes (mongoFind productCodes projection) [] = ok res /\
      let fetched := live (mongoFind productCodes projection) in
      (forall i d,
          fetchedAt productCodes fetched i = Some d ->
          slot res i = Some d /\ In d fetched /\
          indexOf productCodes (getPropOpt d "code") = Some i) /\
      (forall i d,
          In d fetched ->
          indexOf productCodes (getPropOpt d "code") = Some i ->
          exists d', fetchedAt productCodes fetched i = Some d') /\
      (forall i d,
          In d fetched ->
          indexOf productCodes (getPropOpt d "code") = Some i ->
          (forall d', In d' fetched ->
                      indexOf productCodes (getPropOpt d' "code") = Some i ->
                      d' = d) ->
          slot res i = Some d) /\
      (forall i d,
          slot res i = Some d ->
          fetchedAt productCodes fetched i = Some d \/
          (In d fetched /\
           indexOf productCodes (getPropOpt d "code") = None)) /\
      (Forall (ranked productCodes) fetched ->
       (forall i, slot res i = fetchedAt productCodes fetched i) /\
       (List.length res <= List.length productCodes)%nat)) /\
  (forall productCodes cursor,
      exists res', collect productCodes cursor [] = ok res').
Proof.
  intros H. split; [| intros productCodes cursor; apply collect_total].
  destruct (find_ok_inv _ _ _ _ _ _ _ _ _ _ H)
    as (q & productCodes & projection & Hq & Hcodes & Hres).
  exists q, productCodes, projection.
  split; [exact Hq |]. split; [exact Hcodes |]. split; [exact Hres |].
  cbv zeta. unfold fetchedAt.
  assert (Hplace : forall i d,
             fold_left (fetchStep productCodes i)
                       (live (mongoFind productCodes projection)) None = Some d ->
             slot res i = Some d).
  { intros i d. apply (collect_places _ _ _ _ _ _ Hres). discriminate. }
  assert (Hhold : forall i d,
             slot res i = Some d ->
             fold_left (fetchStep productCodes i)
                       (live (mongoFind productCodes projection)) None = Some d \/
             (In d (live (mongoFind productCodes projection)) /\
              indexOf productCodes (getPropOpt d "code") = None)).
  { intros i d Hd.
    destruct (collect_holds _ _ _ _ _ _ Hres Hd) as [Hnil | [Hin [Hr | Hr]]].
    - rewrite slot_nil in Hnil. discriminate.
    - left. destruct (fetched_ranked _ _ _ None _ Hin Hr) as (d' & Hd').
      rewrite (Hplace _ _ Hd') in Hd. injection Hd as ->. exact Hd'.
    - right. split; assumption. }
  split; [| split; [| split; [| split]]].
  - intros i d Hd. split; [exact (Hplace _ _ Hd) |].
    destruct (fetched_In _ _ _ _ _ Hd) as [Hn | Hin]; [discriminate | exact Hin].
  - intros i d Hin Hr. exact (fetched_ranked _ _ _ None _ Hin Hr).
  - intros i d Hin Hr Hone.
    destruct (fetched_ranked _ _ _ None _ Hin Hr) as (d' & Hd').
    destruct (fetched_In _ _ _ _ _ Hd') as [Hn | [Hin' Hr']]; [discriminate |].
    rewrite <- (Hone d' Hin' Hr'). exact (Hplace _ _ Hd').
  - exact Hhold.
  - intros Hranked. split.
    + intros i.
      destruct (fold_left (fetchStep productCodes i)
                  (live (mongoFind productCodes projection)) None)
        as [d |] eqn:Hf; [exact (Hplace _ _ Hf) |].
      destruct (slot res i) as [d |] eqn:Hs; [| reflexivity].
      destruct (Hhold _ _ Hs) as [Hd | [Hin Hr]]; [congruence |].
      rewrite Forall_forall in Hranked.
      destruct (Hranked _ Hin) as [_ Hne]. contradiction.
    + rewrite <- collect_live in Hres.
      destruct (collect_slots _ _ _ _ Hranked Hres) as [_ Hl].
      apply Hl. simpl. lia.
Qed.

Lemma find_places_records_at_their_rank_witness :
  let res := [None; Some (Sample.document "002"); Some (Sample.document "003")] in
  let productCodes := [JStr "001"; JStr "002"; JStr "003"] in
  let fetched := [Sample.document "003"; Sample.document "002"] in
  outcome (find Sample.fields Sample.tags "countries_tags" ["countries_tags"]
             Sample.countries Sample.ranking Sample.documents
             Sample.popular false) = ok res /\
  Forall (ranked productCodes) fetched /\
  (forall i, slot res i = fetchedAt productCodes fetched i) /\
  (List.length res <= List.length productCodes)%nat.
Proof.
  cbv zeta. split; [reflexivity |].
  assert (Hranked : Forall (ranked [JStr "001"; JStr "002"; JStr "003"])
                           [Sample.document "003"; Sample.document "002"])
    by (repeat constructor; discriminate).
  split; [exact Hranked |].
  destruct (find_places_records_at_their_rank
              Sample.fields Sample.tags "countries_tags" ["countries_tags"]
              Sample.countries Sample.ranking Sample.documents
              Sample.popular false
              [None; Some (Sample.document "002"); Some (Sample.document "003")]
              eq_refl)
    as [(q & productCodes & projection & _ & Hcodes & _ & _ & _ & _ & _ & Hall) _].
  simpl in Hcodes. injection Hcodes as <-.
  exact (Hall Hranked).
Defined.

(** C3 as stated fails.  The rank list is [001, 002, 003], the document
    store has no record for [001], and the array [find] returns keeps
    an empty slot at the rank of [001] before the two records.  And
    when the records the document store yields carry no code (the
    projection of the request leaves it out), [find] returns them as
    the cursor yields them, [003] before [001] here, not in rank
    order. *)
Lemma find_leaves_gap_counterexample :
  (outcome (find Sample.fields Sample.tags "countries_tags" ["countries_tags"]
              Sample.countries Sample.ranking Sample.documents
              Sample.popular false)
   = ok [None; Some (Sample.document "002"); Some (Sample.document "003")] /\
   hasGap [None; Some (Sample.document "002"); Some (Sample.document "003")]) /\
  outcome (find Sample.fields Sample.tags "countries_tags" ["countries_tags"]
             Sample.countries Sample.ranking
             (fun _ _ => [JObj [("_id", JStr "003")]; JObj [("_id", JStr "001")]])
             (JObj [("filter", JObj []);
                    ("sort", JArr [JArr [JStr "popularity_key"; JNum (-1)]]);
                    ("projection", JObj [("_id", JNum 1)])])
             false)
  = ok [Some (JObj [("_id", JStr "003")]); Some (JObj [("_id", JStr "001")])].
Proof. split; [split; [reflexivity | left; reflexivity] | reflexivity]. Qed.

(** ** The operations on the sample mirror *)

Example count_scalar :
  outcome (count Sample.fields Sample.tags Sample.loaded Sample.mirror
             (JObj [("brands_tags", JStr "acme")]) false) = ok (Int 2).
Proof. reflexivity. Qed.

Example count_all_of :
  outcome (count Sample.fields Sample.tags Sample.loaded Sample.mirror
             (JObj [("brands_tags",
                     JObj [("$all", JArr [JStr "acme"; JStr "bolt"])])]) false)
  = ok (Int 1).
Proof. reflexivity. Qed.

Example count_absent_field :
  outcome (count Sample.fields Sample.tags Sample.loaded Sample.mirror
             (JObj [("creator", JObj [("$in", JArr [JNull; JArr []])])]) false)
  = ok (Int 1).
Proof. reflexivity. Qed.

Example count_not_in :
  outcome (count Sample.fields Sample.tags Sample.loaded Sample.mirror
             (JObj [("brands_tags",
                     JObj [("$nin", JArr [JStr "bolt"; JStr "zzz"])])]) false)
  = ok (Int 1).
Proof. reflexivity. Qed.

Example count_unloaded_tag :
  outcome (count Sample.fields Sample.tags [] Sample.mirror
             (JObj [("brands_tags", JStr "acme")]) false)
  = throw (UnprocessableEntityException (TagNotLoaded "brands_tags")).
Proof. reflexivity. Qed.

Example count_obsolete_mode :
  outcome (count Sample.fields Sample.tags Sample.loaded Sample.mirror
             (JObj []) true) = ok (Int 1).
Proof. reflexivity. Qed.

(* ================================================================== *)
(** * Properties of the event ingestor *)

Module MessagesFacts.

Import Messages.
Local Open Scope Z_scope.

(** ** C4: the time of an event *)

(** The tests of [messageTime]. *)
Example messageTime_from_id (now : Z) :
  messageTime {| id := Some "1700000000123-0"; message := None |} now
  = 1700000000123.
Proof. reflexivity. Qed.

Example messageTime_invalid_id (now : Z) :
  messageTime {| id := Some "invalid"; message := None |} now = now.
Proof. reflexivity. Qed.

Example messageTime_null_id (now : Z) :
  messageTime {| id := None; message := None |} now = now.
Proof. reflexivity. Qed.

Example messageTime_uses_timestamp (now seconds : Z) :
  messageTime {| id := Some "100-0"; message := Some (stamped seconds) |} now
  = seconds * 1000.
Proof. reflexivity. Qed.

Lemma digit_is_no_separator (c : ascii) :
  isDigit c = true -> Ascii.eqb c "-" = false.
Proof.
  destruct (Ascii.eqb_spec c "-") as [-> | _]; [discriminate | reflexivity].
Qed.

(** [prefixBefore] on a run of digits and a separator. *)
Lemma prefixBefore_digits (digits rest : string) (acc : option Z) :
  allDigits digits = true ->
  prefixBefore (digits ++ String "-" rest) acc
  = match digits with
    | EmptyString => acc
    | _ => Some (numeralFrom digits match acc with Some a => a | None => 0 end)
    end.
Proof.
  revert acc. induction digits as [| c digits IH]; intros acc; [reflexivity |].
  simpl. intros H. apply andb_true_iff in H as [Hc Hd].
  rewrite (digit_is_no_separator _ Hc), Hc, (IH _ Hd).
  destruct digits; reflexivity.
Qed.

Lemma prefixBefore_inv (s : string) (acc : option Z) (m : Z) :
  prefixBefore s acc = Some m ->
  exists digits rest,
    s = (digits ++ String "-" rest)%string /\ allDigits digits = true /\
    (digits = ""%string -> acc = Some m) /\
    (digits <> ""%string ->
     m = numeralFrom digits match acc with Some a => a | None => 0 end).
Proof.
  revert acc. induction s as [| c s IH]; intros acc; simpl; [discriminate |].
  destruct (Ascii.eqb_spec c "-") as [-> | Hc].
  - intros ->. exists ""%string, s.
    split; [reflexivity |]. split; [reflexivity |].
    split; [intros _; reflexivity |].
    intros Hne. destruct Hne. reflexivity.
  - destruct (isDigit c) eqn:Hd; [| discriminate]. intros H.
    destruct (IH _ H) as (digits & rest & -> & Hall & Hempty & Hsome).
    exists (String c digits), rest. split; [reflexivity |].
    split; [simpl; rewrite Hd; exact Hall |]. split; [discriminate |].
    intros _. simpl. destruct digits as [| c' digits].
    + specialize (Hempty eq_refl). injection Hempty as <-. reflexivity.
    + apply Hsome. discriminate.
Qed.

(** An id has a time exactly when it has a numeric prefix, and the
    time is the number the prefix writes. *)
Lemma idTime_spec (i : option string) (millis : Z) :
  idTime i = Some millis <->
  exists digits, timePrefix i digits /\ millis = numeral digits.
Proof.
  split.
  - destruct i as [s |]; simpl; [| discriminate]. intros H.
    destruct (prefixBefore_inv _ _ _ H) as (digits & rest & -> & Hall & Hempty & Hsome).
    exists digits.
    assert (Hne : digits <> ""%string)
      by (intros ->; specialize (Hempty eq_refl); discriminate).
    split; [| exact (Hsome Hne)].
    split; [exact Hne |]. split; [exact Hall |]. exists rest. reflexivity.
  - intros (digits & (Hne & Hall & rest & ->) & ->). simpl.
    change ("-" ++ rest)%string with (String "-" rest).
    rewrite (prefixBefore_digits _ _ _ Hall).
    destruct digits; [destruct Hne; reflexivity | reflexivity].
Qed.

Lemma numeralFrom_uint (d : Decimal.uint) (a : nat) :
  numeralFrom (NilEmpty.string_of_uint d) (Z.of_nat a)
  = Z.of_nat (Nat.of_uint_acc d a) /\
  allDigits (NilEmpty.string_of_uint d) = true.
Proof.
  revert a. induction d; intros a; simpl NilEmpty.string_of_uint;
    [split; reflexivity | ..];
    cbn [numeralFrom allDigits];
    match goal with
    | |- context [digitValue ?c] =>
        let v := eval vm_compute in (digitValue c) in
        change (digitValue c) with v
    end;
    match goal with
    | |- context [isDigit ?c] =>
        let v := eval vm_compute in (isDigit c) in
        change (isDigit c) with v
    end;
    cbn [andb]; simpl Nat.of_uint_acc;
    (split; [| exact (proj2 (IHd a))]);
    rewrite <- (proj1 (IHd _)); f_equal; rewrite Nat.tail_mul_spec; lia.
Qed.

(** The decimal numeral of a number is a numeric prefix that writes
    the number. *)
Lemma decimal_numeral (n : nat) :
  decimal n <> ""%string /\ allDigits (decimal n) = true /\
  numeral (decimal n) = Z.of_nat n.
Proof.
  assert (H : forall d,
             NilZero.string_of_uint d <> ""%string /\
             allDigits (NilZero.string_of_uint d) = true /\
             numeral (NilZero.string_of_uint d) = Z.of_nat (Nat.of_uint d)).
  { intros d. unfold numeral, Nat.of_uint.
    destruct (numeralFrom_uint d 0) as [Hn Hd].
    destruct d; (split; [discriminate | split; [exact Hd | exact Hn]]). }
  unfold decimal. rewrite <- (Unsigned.of_to n) at 4. apply H.
Qed.

(** C4, as the tests have it.  The time of an event is the timestamp of
    its message, in milliseconds, when the message has one, whatever
    its id; otherwise the number that its id writes in decimal digits
    before the separator ["-"], when the id starts with one digit at
    least, only digits, and the separator (so the id made of the
    numeral of a number of milliseconds, the separator and a sequence
    number gives that number); otherwise the current time.  An id has
    such a prefix or has none, so [messageTime], which is defined on
    every event, takes one of the three: an id that is malformed, null
    or missing makes it fall through to the current time. *)
Theorem messageTime_precedence (e : Event) (now : Z) :
  (forall seconds,
      timestampOf e = Some seconds -> messageTime e now = seconds * 1000) /\
  (forall digits,
      timestampOf e = None -> timePrefix (id e) digits ->
      messageTime e now = numeral digits) /\
  (forall (n : nat) (rest : string),
      timestampOf e = None ->
      id e = Some (decimal n ++ "-" ++ rest)%string ->
      messageTime e now = Z.of_nat n) /\
  (timestampOf e = None -> (forall digits, ~ timePrefix (id e) digits) ->
   messageTime e now = now) /\
  ((exists digits, timePrefix (id e) digits) \/
   (forall digits, ~ timePrefix (id e) digits)) /\
  (forall millis,
      idTime (id e) = Some millis <->
      exists digits, timePrefix (id e) digits /\ millis = numeral digits) /\
  (id e = None -> forall digits, ~ timePrefix (id e) digits) /\
  (forall s,
      id e = Some s -> index 0 "-" s = None ->
      forall digits, ~ timePrefix (id e) digits).
Proof.
  assert (Hprefix : forall digits,
             timePrefix (id e) digits -> idTime (id e) = Some (numeral digits)).
  { intros digits H. apply idTime_spec. exists digits. split; [exact H | reflexivity]. }
  assert (Hnone : (forall digits, ~ timePrefix (id e) digits) ->
                  idTime (id e) = None).
  { intros H. destruct (idTime (id e)) as [m |] eqn:Hm; [| reflexivity].
    apply idTime_spec in Hm as (digits & Hd & _). destruct (H _ Hd). }
  split; [| split; [| split; [| split; [| split; [| split; [| split]]]]]].
  - intros seconds Ht. unfold messageTime. rewrite Ht. reflexivity.
  - intros digits Ht Hd. unfold messageTime. rewrite Ht, (Hprefix _ Hd).
    reflexivity.
  - intros n rest Ht Hid. unfold messageTime.
    destruct (decimal_numeral n) as (Hne & Hall & Hn).
    rewrite Ht, (Hprefix (decimal n)), Hn; [reflexivity |].
    split; [exact Hne |]. split; [exact Hall |]. exists rest. exact Hid.
  - intros Ht Hno. unfold messageTime. rewrite Ht, (Hnone Hno). reflexivity.
  - destruct (idTime (id e)) as [m |] eqn:Hm.
    + apply idTime_spec in Hm as (digits & Hd & _). left. exists digits. exact Hd.
    + right. intros digits Hd. discriminate (Hprefix _ Hd).
  - intros millis. apply idTime_spec.
  - intros Hid digits (_ & _ & rest & Hs). rewrite Hid in Hs. discriminate.
  - intros s Hid Hidx digits (_ & _ & rest & Hs). rewrite Hid in Hs.
    injection Hs as ->.
    assert (Hfound : forall a b, index 0 "-" (a ++ "-" ++ b) <> None).
    { clear. intros a b. induction a as [| c a IH].
      - simpl. destruct (ascii_dec "-" "-") as [_ | Hn];
          [destruct b; discriminate | destruct Hn; reflexivity].
      - change (index 0 "-" (String c a ++ "-" ++ b))
          with (if prefix "-" (String c (a ++ "-" ++ b)) then Some 0%nat
                else match index 0 "-" (a ++ "-" ++ b) with
                     | Some n => Some (S n)
                     | None => None
                     end).
        destruct (prefix _ _); [discriminate |].
        destruct (index 0 "-" (a ++ "-" ++ b)); [discriminate | exact IH]. }
    exact (Hfound _ _ Hidx).
Qed.

Lemma messageTime_precedence_witness :
  let e := {| id := Some "1700000000123-0"; message := None |} in
  timestampOf e = None /\
  timePrefix (id e) "1700000000123" /\
  messageTime e 5 = 1700000000123.
Proof.
  assert (Hp : timePrefix (Some "1700000000123-0"%string) "1700000000123").
  { split; [discriminate |]. split; [reflexivity |]. exists "0"%string.
    reflexivity. }
  cbv zeta. split; [reflexivity |]. split; [exact Hp |].
  exact (proj1 (proj2 (messageTime_precedence
                         {| id := Some "1700000000123-0"; message := None |} 5))
               "1700000000123"%string eq_refl Hp).
Defined.

(** C4 as stated fails on the event of the test "should use timestamp if
    provided": its id has the numeric prefix 100, and its time is that
    of the timestamp, which is what the test expects and not what the
    stated precedence gives. *)
Lemma id_prefix_first_counterexample :
  let e := {| id := Some "100-0"; message := Some (stamped 1700000000) |} in
  idTime (id e) = Some 100 /\
  messageTime e 0 = 1700000000 * 1000 /\
  messageTimeAsSpecified e 0 = 100 /\
  messageTime e 0 <> messageTimeAsSpecified e 0.
Proof. simpl. repeat split. discriminate. Qed.

(** ** C1: one row per (product, revision) *)

Lemma position_app {A} (p : A -> bool) (l l' : list A) (i : nat) :
  position p l = Some i -> position p (l ++ l') = Some i.
Proof.
  revert i. induction l as [| x l IH]; simpl; intros i; [discriminate |].
  destruct (p x); [exact (fun H => H) |].
  destruct (position p l) as [j |]; simpl; [| discriminate].
  intros H. rewrite (IH j eq_refl). exact H.
Qed.

Lemma position_app_new {A} (p : A -> bool) (l : list A) (x : A) :
  position p l = None -> p x = true ->
  position p (l ++ [x]) = Some (List.length l).
Proof.
  intros Hl Hx. induction l as [| y l IH]; simpl in *.
  - rewrite Hx. reflexivity.
  - destruct (p y); [discriminate |].
    destruct (position p l); [discriminate |]. rewrite (IH eq_refl).
    reflexivity.
Qed.

Lemma advanceRevision_codes (products : list ProductRow) (pid : nat) (r : Z) :
  map p_code (advanceRevision products pid r) = map p_code products /\
  map p_owners_tags (advanceRevision products pid r)
  = map p_owners_tags products.
Proof.
  revert pid. induction products as [| p products IH]; intros pid;
    [split; reflexivity |].
  destruct pid as [| pid]; simpl; [split; reflexivity |].
  destruct (IH pid) as [-> ->]. split; reflexivity.
Qed.

Lemma position_map {A B} (g : A -> B) (p : B -> bool) (l : list A) :
  position (fun x => p (g x)) l = position p (map g l).
Proof.
  induction l as [| x l IH]; simpl; [reflexivity |]. rewrite IH. reflexivity.
Qed.

Lemma productIdOf_codes (products products' : list ProductRow) (c : string) :
  map p_code products' = map p_code products ->
  productIdOf products' c = productIdOf products c.
Proof.
  intros H. unfold productIdOf.
  rewrite (position_map p_code (fun k => (k =? c)%string) products').
  rewrite (position_map p_code (fun k => (k =? c)%string) products).
  rewrite H. reflexivity.
Qed.

(** After [resolveProduct], the code has the id it returns; ids already
    given stay. *)
Lemma resolveProduct_id (products : list ProductRow) (c : string) :
  productIdOf (fst (resolveProduct products c)) c
  = Some (snd (resolveProduct products c)).
Proof.
  unfold resolveProduct.
  destruct (productIdOf products c) as [pid |] eqn:H; simpl; [exact H |].
  apply position_app_new; [exact H |]. simpl. apply String.eqb_refl.
Qed.

Lemma resolveProduct_keeps (products : list ProductRow) (c c' : string)
    (pid : nat) :
  productIdOf products c' = Some pid ->
  productIdOf (fst (resolveProduct products c)) c' = Some pid.
Proof.
  intros H. unfold resolveProduct.
  destruct (productIdOf products c); simpl; [exact H |].
  apply position_app. exact H.
Qed.

Lemma hasKey_iff (pid : nat) (r : Z) (u : ProductUpdate) :
  hasKey pid r u = true <-> keyOf u = (pid, r).
Proof.
  unfold hasKey, keyOf. rewrite andb_true_iff, Nat.eqb_eq, Z.eqb_eq.
  split; [intros [-> ->]; reflexivity | intros H; injection H; auto].
Qed.

Lemma existsb_hasKey (rows : list ProductUpdate) (pid : nat) (r : Z) :
  existsb (hasKey pid r) rows = true <-> In (pid, r) (map keyOf rows).
Proof.
  rewrite existsb_exists, in_map_iff. split.
  - intros (u & Hu & Hk). exists u. split; [apply hasKey_iff; exact Hk | exact Hu].
  - intros (u & Hk & Hu). exists u. split; [exact Hu | apply hasKey_iff; exact Hk].
Qed.

(** [insertOrSkip] keeps the key unique, keeps the rows, and leaves a
    row with the key. *)
Lemma insertOrSkip_unique (rows : list ProductUpdate) (u : ProductUpdate) :
  NoDup (map keyOf rows) -> NoDup (map keyOf (insertOrSkip rows u)).
Proof.
  intros H. unfold insertOrSkip.
  destruct (existsb (hasKey (pu_product u) (pu_revision u)) rows) eqn:He;
    [exact H |].
  rewrite map_app. apply NoDup_app; [exact H | repeat constructor; intros [] |].
  intros k Hk [<- | []].
  apply existsb_hasKey in Hk. unfold keyOf in Hk. simpl in Hk. congruence.
Qed.

Lemma insertOrSkip_keeps (rows : list ProductUpdate) (u : ProductUpdate)
    (k : nat * Z) :
  In k (map keyOf rows) -> In k (map keyOf (insertOrSkip rows u)).
Proof.
  intros H. unfold insertOrSkip.
  destruct (existsb _ rows); [exact H |].
  rewrite map_app. apply in_or_app. left. exact H.
Qed.

Lemma insertOrSkip_has (rows : list ProductUpdate) (u : ProductUpdate) :
  In (keyOf u) (map keyOf (insertOrSkip rows u)).
Proof.
  unfold insertOrSkip.
  destruct (existsb (hasKey (pu_product u) (pu_revision u)) rows) eqn:He.
  - apply existsb_hasKey in He. exact He.
  - rewrite map_app. apply in_or_app. right. left. reflexivity.
Qed.

Lemma insertOrSkip_skips (rows : list ProductUpdate) (u : ProductUpdate) :
  In (keyOf u) (map keyOf rows) -> insertOrSkip rows u = rows.
Proof.
  intros H. unfold insertOrSkip.
  apply existsb_hasKey in H. unfold keyOf in H. simpl in H. rewrite H.
  reflexivity.
Qed.

Lemma filter_hasKey_none (rows : list ProductUpdate) (pid : nat) (r : Z) :
  ~ In (pid, r) (map keyOf rows) -> filter (hasKey pid r) rows = [].
Proof.
  induction rows as [| u rows IH]; simpl; intros H; [reflexivity |].
  destruct (hasKey pid r u) eqn:Hu.
  - apply hasKey_iff in Hu. destruct H. left. exact Hu.
  - apply IH. intros Hin. apply H. right. exact Hin.
Qed.

(** Under the unique key, a key that is there has exactly one row. *)
Lemma unique_key_one_row (rows : list ProductUpdate) (pid : nat) (r : Z) :
  NoDup (map keyOf rows) -> In (pid, r) (map keyOf rows) ->
  List.length (filter (hasKey pid r) rows) = 1%nat.
Proof.
  induction rows as [| u rows IH]; simpl; intros Hn Hin; [contradiction |].
  inversion Hn as [| k ks Hk Hks]; subst.
  destruct (hasKey pid r u) eqn:Hu.
  - apply hasKey_iff in Hu. rewrite Hu in Hk. simpl.
    rewrite (filter_hasKey_none _ _ _ Hk). reflexivity.
  - destruct Hin as [Hin | Hin]; [| exact (IH Hks Hin)].
    apply hasKey_iff in Hin. congruence.
Qed.

Section OneEvent.

Variables (now : Z) (s : Store) (e : Event).

Lemma ingestEvent_ids (c : string) (pid : nat) :
  productIdOf (product s) c = Some pid ->
  productIdOf (product (ingestEvent now s e)) c = Some pid.
Proof.
  intros H. unfold ingestEvent.
  destruct (message e) as [m |]; [| exact H].
  destruct (resolveContributor (contributor s) (user_id m)) as [cs cid].
  pose proof (resolveProduct_keeps (product s) (code m) c pid H) as Hk.
  destruct (resolveProduct (product s) (code m)) as [products pid'].
  simpl in *.
  rewrite (productIdOf_codes _ _ _ (proj1 (advanceRevision_codes _ _ _))).
  exact Hk.
Qed.

Lemma ingestEvent_unique : uniqueKeys s -> uniqueKeys (ingestEvent now s e).
Proof.
  unfold uniqueKeys, ingestEvent. intros H.
  destruct (message e) as [m |]; [| exact H].
  destruct (resolveContributor (contributor s) (user_id m)) as [cs cid].
  destruct (resolveProduct (product s) (code m)) as [products pid].
  simpl. apply insertOrSkip_unique. exact H.
Qed.

Lemma ingestEvent_keeps (k : nat * Z) :
  In k (map keyOf (product_update s)) ->
  In k (map keyOf (product_update (ingestEvent now s e))).
Proof.
  unfold ingestEvent. intros H.
  destruct (message e) as [m |]; [| exact H].
  destruct (resolveContributor (contributor s) (user_id m)) as [cs cid].
  destruct (resolveProduct (product s) (code m)) as [products pid].
  simpl. apply insertOrSkip_keeps. exact H.
Qed.

(** Step 5: once an event that carries [(c, r)] is ingested, the product
    of [c] has a row at revision [r]. *)
Lemma ingestEvent_inserts (c : string) (r : Z) :
  carries c r e ->
  exists pid,
    productIdOf (product (ingestEvent now s e)) c = Some pid /\
    In (pid, r) (map keyOf (product_update (ingestEvent now s e))).
Proof.
  intros (m & Hm & <- & Hr). unfold ingestEvent. rewrite Hm, Hr.
  destruct (resolveContributor (contributor s) (user_id m)) as [cs cid].
  pose proof (resolveProduct_id (product s) (code m)) as Hid.
  destruct (resolveProduct (product s) (code m)) as [products pid].
  simpl in *. exists pid. split.
  - rewrite (productIdOf_codes _ _ _ (proj1 (advanceRevision_codes _ _ _))).
    exact Hid.
  - apply (insertOrSkip_has (product_update s)
             {| pu_product := pid; pu_revision := r;
                pu_update_type := action m; pu_contributor := cid;
                pu_updated_at := messageTime e now |}).
Qed.

(** Replay: an event that carries a (product, revision) already in
    [ProductUpdate] leaves the table and the owners as they are. *)
Lemma ingestEvent_replay (c : string) (r : Z) (pid : nat) :
  carries c r e ->
  productIdOf (product s) c = Some pid ->
  In (pid, r) (map keyOf (product_update s)) ->
  product_update (ingestEvent now s e) = product_update s /\
  map p_owners_tags (product (ingestEvent now s e))
  = map p_owners_tags (product s).
Proof.
  intros (m & Hm & <- & Hr) Hp Hin. unfold ingestEvent. rewrite Hm, Hr.
  destruct (resolveContributor (contributor s) (user_id m)) as [cs cid].
  unfold resolveProduct. rewrite Hp. simpl. split.
  - apply insertOrSkip_skips. exact Hin.
  - apply advanceRevision_codes.
Qed.

End OneEvent.

Lemma create_cons (now : Z) (s : Store) (e : Event) (events : list Event) :
  create now s (e :: events) = create now (ingestEvent now s e) events.
Proof. reflexivity. Qed.

Lemma createAll_concat (now : Z) (s : Store) (batches : list (list Event)) :
  createAll now s batches = create now s (List.concat batches).
Proof.
  revert s. induction batches as [| b batches IH]; intros s; [reflexivity |].
  simpl. unfold create at 2. rewrite fold_left_app. apply IH.
Qed.

Lemma create_invariants (now : Z) (events : list Event) (s : Store) :
  (uniqueKeys s -> uniqueKeys (create now s events)) /\
  (forall c pid, productIdOf (product s) c = Some pid ->
                 productIdOf (product (create now s events)) c = Some pid) /\
  (forall k, In k (map keyOf (product_update s)) ->
             In k (map keyOf (product_update (create now s events)))).
Proof.
  revert s. induction events as [| e events IH]; intros s;
    [repeat split; auto |].
  rewrite create_cons. destruct (IH (ingestEvent now s e)) as (H1 & H2 & H3).
  repeat split.
  - intros H. apply H1, ingestEvent_unique, H.
  - intros c pid H. apply H2, ingestEvent_ids, H.
  - intros k H. apply H3, ingestEvent_keeps, H.
Qed.

Lemma create_inserts (now : Z) (events : list Event) (s : Store)
    (c : string) (r : Z) :
  (exists e, In e events /\ carries c r e) ->
  exists pid,
    productIdOf (product (create now s events)) c = Some pid /\
    In (pid, r) (map keyOf (product_update (create now s events))).
Proof.
  revert s. induction events as [| e0 events IH]; intros s (e & Hin & Hc);
    [contradiction |].
  rewrite create_cons. destruct Hin as [-> | Hin].
  - destruct (ingestEvent_inserts now s e c r Hc) as (pid & Hp & Hk).
    destruct (create_invariants now events (ingestEvent now s e))
      as (_ & H2 & H3).
    exists pid. split; [apply H2, Hp | apply H3, Hk].
  - apply IH. exists e. split; assumption.
Qed.

Lemma ownerOf_owners (s s' : Store) (pid : nat) :
  map p_owners_tags (product s') = map p_owners_tags (product s) ->
  ownerOf s' pid = ownerOf s pid.
Proof.
  intros H. unfold ownerOf.
  assert (Hn : forall st, match nth_error (product st) pid with
                          | Some p => p_owners_tags p
                          | None => None
                          end
                          = match nth_error (map p_owners_tags (product st)) pid with
                            | Some o => o
                            | None => None
                            end).
  { intros st. rewrite nth_error_map.
    destruct (nth_error (product st) pid); reflexivity. }
  rewrite !Hn, H. reflexivity.
Qed.

(** C1.  Whatever the batches, their order and the number of
    duplicates, once the events are ingested a (product, revision) pair
    that one of them carries has exactly one [ProductUpdate] row,
    provided the table started with its key unique; and ingesting again
    an event that carries the pair is a no-op on the table, so that no
    update count of [ProductUpdatesByOwner] moves. *)
Theorem one_row_per_revision
    (now : Z) (s : Store) (batches : list (list Event)) (c : string) (r : Z) :
  uniqueKeys s ->
  (exists e, In e (List.concat batches) /\ carries c r e) ->
  let s' := createAll now s batches in
  exists pid,
    productIdOf (product s') c = Some pid /\
    List.length (rowsFor s' pid r) = 1%nat /\
    (forall e, carries c r e ->
               product_update (ingestEvent now s' e) = product_update s' /\
               forall owner action_,
                 update_count (ingestEvent now s' e) owner action_
                 = update_count s' owner action_).
Proof.
  intros Hu He s'. unfold s'. rewrite createAll_concat.
  destruct (create_inserts now _ s c r He) as (pid & Hp & Hk).
  destruct (create_invariants now (List.concat batches) s) as (Hu' & _ & _).
  specialize (Hu' Hu). exists pid. split; [exact Hp |]. split.
  - apply unique_key_one_row; assumption.
  - intros e Hc.
    destruct (ingestEvent_replay now _ e c r pid Hc Hp Hk) as [Hrows Howners].
    split; [exact Hrows |]. intros owner action_. unfold update_count.
    rewrite Hrows. f_equal. apply filter_ext. intros u.
    rewrite (ownerOf_owners _ _ _ Howners). reflexivity.
Qed.

Lemma one_row_per_revision_witness :
  let s' := createAll 0 ownedProducts [duplicatedBatch] in
  exists pid,
    productIdOf (product s') "code1" = Some pid /\
    List.length (rowsFor s' pid 2) = 1%nat /\
    (forall e, carries "code1" 2 e ->
               product_update (ingestEvent 0 s' e) = product_update s' /\
               forall owner action_,
                 update_count (ingestEvent 0 s' e) owner action_
                 = update_count s' owner action_).
Proof.
  apply (one_row_per_revision 0 ownedProducts [duplicatedBatch] "code1" 2).
  - constructor.
  - exists (updateEvent "1700000000000-2" "code1" "created" "test" (Some 2)).
    split; [simpl; auto |]. eexists. repeat split.
Defined.

(** The tests of [create] and of the view, on the model. *)
Example create_duplicate_revision :
  let s' := create 0 ownedProducts duplicatedBatch in
  List.length (filter (fun u => (pu_product u =? 0)%nat) (product_update s'))
  = 2%nat /\
  List.length (filter (fun u => (pu_product u =? 1)%nat) (product_update s'))
  = 1%nat /\
  List.length (product_update_event s') = 4%nat.
Proof. repeat split. Qed.

Example view_counts :
  let s' := create 0 ownedProducts viewBatch in
  update_count s' (Some "owner1") (Some "updated") = 4%nat /\
  product_count s' (Some "owner1") (Some "updated") = 2%nat.
Proof. split; reflexivity. Qed.

Example view_counts_across_batches :
  let first := [updateEvent "1700000000000-0" "code1" "action1" "user1" (Some 1)] in
  let second := [updateEvent "1700000000000-1" "code1" "action1" "user1" (Some 2)] in
  let s' := createAll 0 (storeOf [newProduct "code1" 0 None]) [first; second] in
  update_count s' None (Some "action1") = 2%nat /\
  product_count s' None (Some "action1") = 1%nat /\
  update_count (create 0 s' second) None (Some "action1") = 2%nat.
Proof. repeat split. Qed.

Example revision_from_product :
  let s' := create 0 (storeOf [newProduct "code1" 123 None])
              [updateEvent "1700000000000-0" "code1" "created" "test" None] in
  map pu_revision (product_update s') = [123].
Proof. reflexivity. Qed.

End MessagesFacts.

(* ================================================================== *)
(** * Further properties of the query service *)

(** ** Normalization: what it raises, and how filters compose *)

(** Induction on a value through its elements and entries. *)
Lemma JsValue_nested_ind (P : JsValue -> Prop) :
  P JUndefined -> P JNull -> (forall b, P (JBool b)) -> (forall n, P (JNum n)) ->
  (forall s, P (JStr s)) ->
  (forall l, Forall P l -> P (JArr l)) ->
  (forall es, Forall (fun e => P (snd e)) es -> P (JObj es)) ->
  forall v, P v.
Proof.
  intros Hu Hn Hb Hz Hs Ha Ho. fix self 1.
  intros [| | b | n | s | l | es];
    [exact Hu | exact Hn | apply Hb | apply Hz | apply Hs | |].
  - apply Ha. induction l as [| x l IH]; constructor; [apply self | exact IH].
  - apply Ho. induction es as [| [k x] es IH]; constructor;
      [apply self | exact IH].
Qed.

Lemma iterate_throws (v : JsValue) (e : Exn) :
  iterate v = inl e -> e = TypeError.
Proof.
  destruct v; simpl; try discriminate; intros H; injection H as <-; reflexivity.
Qed.

Lemma flatMapM_throws {A B} (f : A -> Res (list B)) (l : list A) (e : Exn) :
  Forall (fun x => forall e', f x = inl e' -> e' = TypeError) l ->
  flatMapM f l = inl e -> e = TypeError.
Proof.
  induction 1 as [| x l Hx _ IH]; simpl; [discriminate |].
  destruct (f x) as [e' | y] eqn:Hf; simpl.
  - intros H. injection H as <-. exact (Hx _ eq_refl).
  - destruct (flatMapM f l) as [e' | ys]; simpl; [| discriminate].
    intros H. injection H as <-. exact (IH eq_refl).
Qed.

Lemma parseEntry_throws (filter : Clause) (e : Exn) :
  parseEntry filter = inl e -> e = TypeError.
Proof.
  unfold parseEntry.
  destruct (getProp (snd filter) "$all") as [e' | all] eqn:Hg; simpl.
  - intros H. injection H as <-. exact (getProp_throws _ _ _ Hg).
  - destruct (truthy all); [| discriminate].
    destruct (iterate all) as [e' | values] eqn:Hi; simpl; [| discriminate].
    intros H. injection H as <-. exact (iterate_throws _ _ Hi).
Qed.

Lemma parseLeaf_throws (matches : JsValue) (e : Exn) :
  parseLeaf matches = inl e -> e = TypeError.
Proof.
  unfold parseLeaf.
  destruct (objectEntries matches) as [e' | es] eqn:Ho; simpl.
  - intros H. injection H as <-.
    destruct matches; simpl in Ho; try discriminate; injection Ho as <-;
      reflexivity.
  - apply flatMapM_throws. apply Forall_forall. intros x _ e'.
    apply parseEntry_throws.
Qed.

Lemma parseFilter_obj (es : list (string * JsValue)) :
  parseFilter (JObj es) = flatMapM parseStep es.
Proof. rewrite parseFilter_unfold. reflexivity. Qed.

Lemma parseFilter_throws (matches : JsValue) (e : Exn) :
  parseFilter matches = throw e -> e = TypeError.
Proof.
  revert e.
  assert (H : (forall e, parseFilter matches = inl e -> e = TypeError) /\
              (forall subs e, iterate matches = ok subs ->
                              flatMapM parseFilter subs = inl e ->
                              e = TypeError)).
  { induction matches as [| | b | n | s | l IH | es IH] using JsValue_nested_ind;
      (split; [intros e; try apply (parseLeaf_throws _ e)
              | intros subs e Hi; try discriminate Hi]).
    - (* the characters of a string *)
      injection Hi as <-. apply flatMapM_throws. apply Forall_forall.
      intros v Hv e'. destruct (chars_are_strings _ _ Hv) as [c ->].
      apply (parseLeaf_throws (JStr c)).
    - (* the elements of an array *)
      injection Hi as <-. apply flatMapM_throws.
      apply (Forall_impl _ (fun v Hv => proj1 Hv) IH).
    - (* an object: its entries *)
      rewrite parseFilter_obj. apply flatMapM_throws.
      apply Forall_forall. intros [k v] Hin e'. unfold parseStep. simpl.
      rewrite Forall_forall in IH. specialize (IH _ Hin). simpl in IH.
      destruct (k =? "$and"); [| apply parseEntry_throws].
      destruct (iterate v) as [e'' | subs] eqn:Hi; simpl.
      + intros H. injection H as <-. exact (iterate_throws _ _ Hi).
      + apply (proj2 IH subs e' eq_refl). }
  exact (proj1 H).
Qed.

(** X1.  Normalization raises nothing but [TypeError]: every filter,
    however malformed, either normalizes to a clause list or makes
    [parseFilter] raise a [TypeError], never the client-input error. *)
Theorem parseFilter_raises_only_TypeError (matches : JsValue) :
  (exists clauses, parseFilter matches = ok clauses) \/
  parseFilter matches = throw TypeError.
Proof.
  destruct (parseFilter matches) as [e | clauses] eqn:H.
  - right. rewrite (parseFilter_throws _ _ H). reflexivity.
  - left. exists clauses. reflexivity.
Qed.

Lemma flatMapM_app {A B} (f : A -> Res (list B)) (l l' : list A) :
  flatMapM f (l ++ l')
  = (a <- flatMapM f l ;; b <- flatMapM f l' ;; ok (a ++ b)).
Proof.
  induction l as [| x l IH]; simpl.
  - destruct (flatMapM f l'); reflexivity.
  - destruct (f x) as [e | y]; simpl; [reflexivity |].
    change ((fix loop (l0 : list A) : Res (list B) :=
               match l0 with
               | [] => ok []
               | x0 :: l'0 => y0 <- f x0;; ys <- loop l'0;; ok (y0 ++ ys)
               end) (l ++ l')) with (flatMapM f (l ++ l')).
    rewrite IH.
    destruct (flatMapM f l) as [e | a]; simpl; [reflexivity |].
    destruct (flatMapM f l') as [e | b]; simpl; [reflexivity |].
    rewrite app_assoc. reflexivity.
Qed.

(** The entries of a filter normalize one after the other. *)
Lemma parseFilter_app (es es' : list (string * JsValue)) :
  parseFilter (JObj (es ++ es'))
  = (a <- parseFilter (JObj es) ;; b <- parseFilter (JObj es') ;; ok (a ++ b)).
Proof. rewrite !parseFilter_obj. apply flatMapM_app. Qed.

(** X2.  A clause whose value is [null] is not a compilation failure
    but a raw one: reading [$all] off the value raises a [TypeError]
    in [parseFilter], so [count] and [select] end with it before any
    call to a store. *)
Theorem null_value_raises_TypeError
    (MAPPED_FIELDS : list string) (MAPPED_TAGS : string -> option Entity)
    (loadedTags : list string) (db : Mirror)
    (t : string) (v : JsValue) (rest : list (string * JsValue))
    (obsolete : bool) :
  t <> "$and" -> isNullish v = true ->
  count MAPPED_FIELDS MAPPED_TAGS loadedTags db (JObj ((t, v) :: rest)) obsolete
  = ([], throw TypeError) /\
  select MAPPED_FIELDS MAPPED_TAGS loadedTags db (JObj ((t, v) :: rest))
  = ([], throw TypeError).
Proof.
  intros Ht Hv.
  assert (Hp : parseFilter (JObj ((t, v) :: rest)) = throw TypeError).
  { rewrite parseFilter_cons. unfold parseStep, parseEntry. simpl.
    apply String.eqb_neq in Ht. rewrite Ht.
    destruct v; try discriminate; reflexivity. }
  unfold count, select. simpl isNullish. cbv iota zeta. rewrite Hp.
  split; reflexivity.
Qed.

Lemma null_value_raises_TypeError_witness :
  count Sample.fields Sample.tags Sample.loaded Sample.mirror
    (JObj [("creator", JNull); ("code", JStr "001")]) false
  = ([], throw TypeError).
Proof.
  apply (null_value_raises_TypeError Sample.fields Sample.tags Sample.loaded
           Sample.mirror "creator" JNull [("code", JStr "001")] false).
  - discriminate.
  - reflexivity.
Defined.

Lemma parseFilter_and (subs : list JsValue) :
  parseFilter (JObj [("$and", JArr subs)]) = flatMapM parseFilter subs.
Proof.
  rewrite parseFilter_cons. unfold parseStep. simpl.
  destruct (flatMapM parseFilter subs) as [e | cs]; simpl; [reflexivity |].
  rewrite app_nil_r. reflexivity.
Qed.

Lemma flatMapM_cons {A B} (f : A -> Res (list B)) (x : A) (l : list A) :
  flatMapM f (x :: l) = (y <- f x ;; ys <- flatMapM f l ;; ok (y ++ ys)).
Proof. reflexivity. Qed.

(** X3.  Conjunction markers nest freely: an [$and] around a single
    sub-filter normalizes as the sub-filter does (errors included), and
    an [$and] nested at the head of an [$and] array normalizes as if
    its sub-filters were listed in the outer array. *)
Theorem nested_and_is_flat (f : JsValue) (subs more : list JsValue) :
  parseFilter (JObj [("$and", JArr [f])]) = parseFilter f /\
  parseFilter (JObj [("$and", JArr (JObj [("$and", JArr subs)] :: more))])
  = parseFilter (JObj [("$and", JArr (subs ++ more))]).
Proof.
  rewrite !parseFilter_and. split.
  - rewrite flatMapM_cons.
    destruct (parseFilter f) as [e | cs]; simpl; [reflexivity |].
    rewrite app_nil_r. reflexivity.
  - rewrite flatMapM_cons, flatMapM_app, parseFilter_and. reflexivity.
Qed.

(** X4.  An [$all] with an empty list contributes no clause: the entry
    vanishes in normalization, whatever its tag (known or not), so
    [count] and [select] answer as for the filter without it. *)
Theorem empty_all_of_is_no_clause
    (MAPPED_FIELDS : list string) (MAPPED_TAGS : string -> option Entity)
    (loadedTags : list string) (db : Mirror)
    (t : string) (v : JsValue) (rest : list (string * JsValue))
    (obsolete : bool) :
  t <> "$and" -> getProp v "$all" = ok (JArr []) ->
  parseFilter (JObj ((t, v) :: rest)) = parseFilter (JObj rest) /\
  count MAPPED_FIELDS MAPPED_TAGS loadedTags db (JObj ((t, v) :: rest)) obsolete
  = count MAPPED_FIELDS MAPPED_TAGS loadedTags db (JObj rest) obsolete /\
  select MAPPED_FIELDS MAPPED_TAGS loadedTags db (JObj ((t, v) :: rest))
  = select MAPPED_FIELDS MAPPED_TAGS loadedTags db (JObj rest).
Proof.
  intros Ht Hall.
  assert (Hp : parseFilter (JObj ((t, v) :: rest)) = parseFilter (JObj rest)).
  { rewrite parseFilter_cons. unfold parseStep, parseEntry. cbn [fst snd].
    apply String.eqb_neq in Ht. rewrite Ht, Hall, rbind_ok.
    cbn [truthy iterate]. rewrite rbind_ok. cbn [map]. rewrite rbind_ok.
    destruct (parseFilter (JObj rest)); reflexivity. }
  split; [exact Hp |]. unfold count, select. simpl isNullish. cbv iota zeta.
  rewrite Hp. split; reflexivity.
Qed.

Lemma empty_all_of_is_no_clause_witness :
  count Sample.fields Sample.tags Sample.loaded Sample.mirror
    (JObj [("unknown_tags", JObj [("$all", JArr [])]); ("creator", JStr "ann")])
    false
  = count Sample.fields Sample.tags Sample.loaded Sample.mirror
      (JObj [("creator", JStr "ann")]) false.
Proof.
  apply (empty_all_of_is_no_clause Sample.fields Sample.tags Sample.loaded
           Sample.mirror "unknown_tags" (JObj [("$all", JArr [])])
           [("creator", JStr "ann")] false).
  - discriminate.
  - reflexivity.
Defined.

(** ** The two clause compilers *)

Section Compilers.

Variable MAPPED_FIELDS : list string.
Variable MAPPED_TAGS : string -> option Entity.
Variable loadedTags : list string.

Lemma getEntityAndColumn_calls (tag : string) :
  (flattened MAPPED_FIELDS tag = true ->
   trace (getEntityAndColumn MAPPED_FIELDS MAPPED_TAGS loadedTags tag) = []) /\
  Forall (eq GetLoadedTags)
         (trace (getEntityAndColumn MAPPED_FIELDS MAPPED_TAGS loadedTags tag)) /\
  (List.length (trace (getEntityAndColumn MAPPED_FIELDS MAPPED_TAGS
                         loadedTags tag)) <= 1)%nat.
Proof.
  unfold flattened, getEntityAndColumn.
  destruct ((tag =? "") || includes tag MAPPED_FIELDS).
  - repeat split; simpl; auto.
  - split; [discriminate |].
    destruct (MAPPED_TAGS tag) as [entity |]; [| split; simpl; auto].
    cbn. destruct (negb (includes tag loadedTags)); simpl; split; auto.
Qed.

(** X5.  [addMatches] calls nothing but the Loaded-Tag Registry, at
    most once per clause, and not at all when every tag of the filter
    is flattened onto [Product]. *)
Lemma addMatches_calls (filters : list Clause) (qb : QueryBuilder)
    (parentEntity : Entity) :
  (Forall (fun c => flattened MAPPED_FIELDS (fst c) = true) filters ->
   trace (addMatches MAPPED_FIELDS MAPPED_TAGS loadedTags
            filters qb parentEntity) = []) /\
  Forall (eq GetLoadedTags)
         (trace (addMatches MAPPED_FIELDS MAPPED_TAGS loadedTags
                   filters qb parentEntity)) /\
  (List.length (trace (addMatches MAPPED_FIELDS MAPPED_TAGS loadedTags
                         filters qb parentEntity))
   <= List.length filters)%nat.
Proof.
  revert qb. induction filters as [| f filters IH]; intros qb.
  - repeat split; simpl; auto.
  - simpl.
    pose proof (matchClause_trace MAPPED_FIELDS MAPPED_TAGS loadedTags f) as Ht.
    destruct (getEntityAndColumn_calls (fst f)) as (Hf & Hg & Hl).
    rewrite <- Ht in Hf, Hg, Hl.
    destruct (matchClause MAPPED_FIELDS MAPPED_TAGS loadedTags f)
      as [t [e | m]]; simpl in *.
    + split; [| split]; [| exact Hg | lia].
      intros HF. inversion HF; subst. auto.
    + destruct (IH (andWhere qb (WExists (existsClause parentEntity m))))
        as (IHf & IHg & IHl).
      destruct (addMatches MAPPED_FIELDS MAPPED_TAGS loadedTags filters _
                  parentEntity) as [t' [e | [qb' wl]]]; simpl in *;
        rewrite ?app_nil_r.
      * split; [| split].
        -- intros HF. inversion HF; subst. rewrite Hf, IHf by assumption.
           reflexivity.
        -- apply Forall_app. split; assumption.
        -- rewrite length_app. lia.
      * split; [| split].
        -- intros HF. inversion HF; subst. rewrite Hf, IHf by assumption.
           reflexivity.
        -- apply Forall_app. split; assumption.
        -- rewrite length_app. lia.
Qed.

(** X6.  [getFilterSql] runs the rounds of [addMatches]: on every
    clause list they make the same calls and raise the same exception,
    and on success [getFilterSql] writes one fragment per sub-query
    [addMatches] adds, in order, with the same quantifier, tables, join,
    column and value.  They part in what the value means: the query
    builder reads a [null] value as [IS NULL], while the fragment
    compares the column with a NULL parameter, which holds of no cell;
    so where the sub-query of [addMatches] finds the products whose
    column is NULL, the fragment of [getFilterSql] finds none.  And
    where the value is an object, the list [{ $in: [...] }], the
    fragment holds where the sub-query that compares the column with
    the string ["[object Object]"] does. *)
Lemma compilers_agree (filters : list Clause) (qb : QueryBuilder)
    (parentEntity : Entity) :
  trace (getFilterSql MAPPED_FIELDS MAPPED_TAGS loadedTags filters parentEntity)
  = trace (addMatches MAPPED_FIELDS MAPPED_TAGS loadedTags
             filters qb parentEntity) /\
  match outcome (getFilterSql MAPPED_FIELDS MAPPED_TAGS loadedTags
                   filters parentEntity) with
  | inr whereClause =>
      exists cs whereLog,
        whereClause = map fragmentOf cs /\
        outcome (addMatches MAPPED_FIELDS MAPPED_TAGS loadedTags
                   filters qb parentEntity)
        = ok (fold_left (fun qb c => andWhere qb (WExists c)) cs qb,
              whereLog)
  | inl e =>
      outcome (addMatches MAPPED_FIELDS MAPPED_TAGS loadedTags
                 filters qb parentEntity) = inl e
  end /\
  (forall (db : Mirror) (c : ExistsClause) (column : string) (pt : Row),
      ex_value c = Some (column, JNull) ->
      (forall pt2, In pt2 (db (ex_entity c)) -> hasColumn column pt2 = true) ->
      evalCond db (WExists c) pt
      = ok (xorb (ex_not c)
              (existsb (fun pt2 =>
                          sqlEq (lookup (ex_child_id c) pt2)
                                (lookup (ex_parent_id c) pt)
                          && isNullish (lookup column pt2))
                       (db (ex_entity c)))) /\
      fragmentHolds db (fragmentOf c) pt = ok (xorb (ex_not c) false)) /\
  (forall (db : Mirror) (c : ExistsClause) (column : string)
          (es : list (string * JsValue)) (pt : Row),
      ex_value c = Some (column, JObj es) ->
      fragmentHolds db (fragmentOf c) pt
      = evalCond db
          (WExists {| ex_not := ex_not c; ex_entity := ex_entity c;
                      ex_child_id := ex_child_id c;
                      ex_parent_id := ex_parent_id c;
                      ex_value := Some (column, JStr "[object Object]") |})
          pt).
Proof.
  assert (Hagree : forall qb,
             trace (getFilterSql MAPPED_FIELDS MAPPED_TAGS loadedTags
                      filters parentEntity)
             = trace (addMatches MAPPED_FIELDS MAPPED_TAGS loadedTags
                        filters qb parentEntity) /\
             match outcome (getFilterSql MAPPED_FIELDS MAPPED_TAGS loadedTags
                              filters parentEntity) with
             | inr whereClause =>
                 exists cs whereLog,
                   whereClause = map fragmentOf cs /\
                   outcome (addMatches MAPPED_FIELDS MAPPED_TAGS loadedTags
                              filters qb parentEntity)
                   = ok (fold_left (fun qb c => andWhere qb (WExists c)) cs qb,
                         whereLog)
             | inl e =>
                 outcome (addMatches MAPPED_FIELDS MAPPED_TAGS loadedTags
                            filters qb parentEntity) = inl e
             end).
  { clear qb. induction filters as [| f filters' IH]; intros qb.
    - split; [reflexivity |]. exists [], []. split; reflexivity.
    - simpl.
      destruct (matchClause MAPPED_FIELDS MAPPED_TAGS loadedTags f)
        as [t [e | m]]; [split; reflexivity |].
      simpl.
      destruct (IH (andWhere qb (WExists (existsClause parentEntity m))))
        as (IHt & IHo).
      destruct (getFilterSql MAPPED_FIELDS MAPPED_TAGS loadedTags filters'
                  parentEntity) as [tg [eg | fs]];
        destruct (addMatches MAPPED_FIELDS MAPPED_TAGS loadedTags filters' _
                    parentEntity) as [ta [ea | [qa la]]]; simpl in *;
        try destruct IHo as (cs & wl & Hfs & IHo); try discriminate; subst;
        rewrite ?app_nil_r.
      + split; [reflexivity | exact IHo].
      + split; [reflexivity |]. injection IHo as -> ->.
        exists (existsClause parentEntity m :: cs). eexists.
        split; reflexivity. }
  destruct (Hagree qb) as [Ht Ho].
  split; [exact Ht |]. split; [exact Ho |]. split.
  2: { intros db c column es pt Hv.
       unfold fragmentHolds, fragmentOf, evalCond, subRowMatches.
       cbn [fr_equals fr_child_id fr_parent_id fr_entity fr_not
            ex_value ex_child_id ex_parent_id ex_entity ex_not].
       rewrite Hv. reflexivity. }
  intros db c column pt Hv Hcol. split.
  - apply evalCond_exists. intros pt2 Hin. unfold subRowMatches.
    rewrite Hv. destruct (sqlEq _ _); [| reflexivity].
    rewrite (cell_lookup _ _ (Hcol pt2 Hin)). reflexivity.
  - unfold fragmentHolds, fragmentOf. cbn [fr_equals fr_child_id fr_parent_id
                                           fr_entity fr_not].
    rewrite Hv.
    rewrite (mapM_pure _ (fun _ => false)).
    + simpl. rewrite existsb_map_id.
      assert (existsb (fun _ : Row => false) (db (ex_entity c)) = false) as ->
          by (clear; induction (db (ex_entity c)) as [| x l IH]; simpl;
              [reflexivity | exact IH]).
      reflexivity.
    + intros pt2 Hin. destruct (sqlEq _ _); [| reflexivity].
      rewrite (cell_lookup _ _ (Hcol pt2 Hin)). reflexivity.
Qed.

End Compilers.

Lemma compilers_agree_witness :
  let c := absenceClause false Product Product "creator" in
  let pt := Sample.productRow 2 (JStr "002") JNull false in
  evalCond Sample.mirror (WExists c) pt = ok true /\
  fragmentHolds Sample.mirror (fragmentOf c) pt = ok false.
Proof.
  refine (proj1 (proj2 (proj2
            (compilers_agree Sample.fields Sample.tags Sample.loaded
               [] (createQueryBuilder Product) Product)))
            Sample.mirror (absenceClause false Product Product "creator")
            "creator" (Sample.productRow 2 (JStr "002") JNull false)
            eq_refl _).
  intros pt2 Hin. simpl in Hin.
  destruct Hin as [<- | [<- | [<- | []]]]; reflexivity.
Defined.

Lemma addMatches_calls_witness :
  trace (addMatches Sample.fields Sample.tags Sample.loaded
           [("creator", JStr "ann"); ("code", JStr "001")]
           (createQueryBuilder Product) Product) = [].
Proof.
  apply (addMatches_calls Sample.fields Sample.tags Sample.loaded
           [("creator", JStr "ann"); ("code", JStr "001")]
           (createQueryBuilder Product) Product).
  repeat constructor.
Defined.

Lemma addClauses_shape (parentEntity : Entity) (ms : list Match)
    (qb : QueryBuilder) :
  qb_orderBy (addClauses parentEntity ms qb) = qb_orderBy qb /\
  qb_limit (addClauses parentEntity ms qb) = qb_limit qb /\
  qb_offset (addClauses parentEntity ms qb) = qb_offset qb.
Proof.
  revert qb. induction ms as [| m ms IH]; intros qb; [repeat split |].
  unfold addClauses in *. simpl.
  destruct (IH (andWhere qb (WExists (existsClause parentEntity m))))
    as (H1 & H2 & H3).
  rewrite H1, H2, H3. repeat split.
Qed.

(** X7.  [addMatches] only ever adds to the conjunction: when it
    succeeds, the builder keeps its entity, selection, distinct flag,
    grouping, ordering, limit and offset, its conditions are the old
    ones followed by one [EXISTS] condition per clause, and the log has
    one entry per clause. *)
Theorem addMatches_only_adds_conditions
    (MAPPED_FIELDS : list string) (MAPPED_TAGS : string -> option Entity)
    (loadedTags : list string) (filters : list Clause)
    (qb qb' : QueryBuilder) (parentEntity : Entity)
    (whereLog : list WhereLog) :
  outcome (addMatches MAPPED_FIELDS MAPPED_TAGS loadedTags
             filters qb parentEntity) = ok (qb', whereLog) ->
  qb_entity qb' = qb_entity qb /\ qb_select qb' = qb_select qb /\
  qb_distinct qb' = qb_distinct qb /\ qb_groupBy qb' = qb_groupBy qb /\
  qb_orderBy qb' = qb_orderBy qb /\ qb_limit qb' = qb_limit qb /\
  qb_offset qb' = qb_offset qb /\
  (exists added,
      qb_where qb' = qb_where qb ++ added /\
      List.length added = List.length filters /\
      forallb isExists added = true) /\
  List.length whereLog = List.length filters.
Proof.
  intros H.
  destruct (addMatches_ok_inv _ _ _ _ _ _ _ _ H) as (ms & HF & -> & ->).
  destruct (addClauses_fields parentEntity ms qb) as (H1 & H2 & H3 & H4).
  destruct (addClauses_shape parentEntity ms qb) as (H5 & H6 & H7).
  pose proof (Forall2_length HF) as Hlen.
  repeat (split; [assumption |]). split.
  - exists (map (fun m => WExists (existsClause parentEntity m)) ms).
    split; [apply addClauses_where |]. split.
    + rewrite length_map. symmetry. exact Hlen.
    + clear. induction ms as [| m ms IH]; [reflexivity | exact IH].
  - unfold whereLogOf. rewrite length_map, length_combine. lia.
Qed.

Lemma addMatches_only_adds_conditions_witness :
  List.length [("creator", false, JStr "ann")] = List.length [("creator", JStr "ann")].
Proof.
  apply (addMatches_only_adds_conditions Sample.fields Sample.tags
           Sample.loaded [("creator", JStr "ann")]
           (andWhere (createQueryBuilder Product) (WRaw "not pt.obsolete"))
           (andWhere (andWhere (createQueryBuilder Product)
                                (WRaw "not pt.obsolete"))
                     (WExists (valueClause false Product Product "creator"
                                 (JStr "ann"))))
           Product [("creator", false, JStr "ann")]).
  reflexivity.
Defined.

(** ** Scalar, not-equal and list clauses *)

Lemma indexKey_not_ne (i : nat) : (indexKey i =? "$ne") = false.
Proof. unfold indexKey. destruct (Nat.to_uint i); reflexivity. Qed.

Lemma lookup_ne_indexed (l : list JsValue) (i : nat) :
  lookup "$ne" (indexedFrom i l) = JUndefined.
Proof.
  revert i. induction l as [| x l IH]; intros i; simpl; [reflexivity |].
  rewrite indexKey_not_ne. apply IH.
Qed.

Lemma matchValueOf_scalar (matchEntity : Entity) (v : JsValue) :
  isScalar v = true -> matchValueOf matchEntity v = ok (v, JUndefined).
Proof.
  unfold matchValueOf, getPropOpt.
  destruct v as [| | b | n | s | l | es]; try discriminate; intros _;
    try reflexivity.
  simpl. rewrite lookup_ne_indexed. reflexivity.
Qed.

Lemma matchValueOf_ne (matchEntity : Entity) (v : JsValue) :
  isObject v = false ->
  matchValueOf matchEntity (JObj [("$ne", v)])
  = if truthy v then ok (v, v)
    else throwUnprocessableException (UnableToProcess (JObj [("$ne", v)])).
Proof.
  intros Ho. unfold matchValueOf.
  change (getPropOpt (JObj [("$ne", v)]) "$ne") with v.
  destruct (truthy v) eqn:Ht.
  - rewrite Ho. reflexivity.
  - reflexivity.
Qed.

Section OneClause.

Variable MAPPED_FIELDS : list string.
Variable MAPPED_TAGS : string -> option Entity.
Variable loadedTags : list string.

(** A filter of one clause compiles as its round ends. *)
Lemma getFilterSql_single (c : Clause) (parentEntity : Entity) :
  getFilterSql MAPPED_FIELDS MAPPED_TAGS loadedTags [c] parentEntity
  = mapOutcome (fun m => [sqlFragment parentEntity m])
      (matchClause MAPPED_FIELDS MAPPED_TAGS loadedTags c).
Proof.
  simpl. destruct (matchClause MAPPED_FIELDS MAPPED_TAGS loadedTags c)
    as [t [e | m]]; [reflexivity |].
  unfold mapOutcome. simpl. rewrite app_nil_r. reflexivity.
Qed.

Lemma matchClause_resolved (t : string) (v : JsValue)
    (matchEntity : Entity) (matchColumn : string) :
  outcome (getEntityAndColumn MAPPED_FIELDS MAPPED_TAGS loadedTags t)
  = ok (matchEntity, matchColumn) ->
  outcome (matchClause MAPPED_FIELDS MAPPED_TAGS loadedTags (t, v))
  = match matchValueOf matchEntity v with
    | inl e => inl e
    | inr (whereValue, not) =>
        ok {| m_entity := matchEntity; m_column := matchColumn;
              m_whereValue := whereValue; m_not := not |}
    end.
Proof. intros H. rewrite matchClause_outcome. simpl fst. rewrite H. reflexivity. Qed.

End OneClause.

Section SingleClause.

Variable MAPPED_FIELDS : list string.
Variable MAPPED_TAGS : string -> option Entity.
Variable loadedTags : list string.
Variables (t : string) (matchEntity parentEntity : Entity) (matchColumn : string).
Variable qb : QueryBuilder.

Hypothesis resolves :
  outcome (getEntityAndColumn MAPPED_FIELDS MAPPED_TAGS loadedTags t)
  = ok (matchEntity, matchColumn).

Lemma single_clause_compiles (v whereValue not : JsValue) :
  matchValueOf matchEntity v = ok (whereValue, not) ->
  let m := {| m_entity := matchEntity; m_column := matchColumn;
              m_whereValue := whereValue; m_not := not |} in
  outcome (getFilterSql MAPPED_FIELDS MAPPED_TAGS loadedTags
             [(t, v)] parentEntity)
  = ok [fragmentOf (existsClause parentEntity m)] /\
  exists whereLog,
    outcome (addMatches MAPPED_FIELDS MAPPED_TAGS loadedTags
               [(t, v)] qb parentEntity)
    = ok (andWhere qb (WExists (existsClause parentEntity m)), whereLog).
Proof.
  intros Hv m.
  assert (Hm : outcome (matchClause MAPPED_FIELDS MAPPED_TAGS loadedTags (t, v))
               = ok m).
  { rewrite (matchClause_resolved _ _ _ _ _ _ _ resolves), Hv. reflexivity. }
  split.
  - rewrite getFilterSql_single. unfold mapOutcome, outcome in *. simpl.
    rewrite Hm. reflexivity.
  - eexists.
    rewrite (addMatches_ok _ _ _ [(t, v)] [m]) by (repeat constructor; exact Hm).
    reflexivity.
Qed.

Lemma single_clause_throws (v : JsValue) (e : Exn) :
  matchValueOf matchEntity v = throw e ->
  outcome (getFilterSql MAPPED_FIELDS MAPPED_TAGS loadedTags
             [(t, v)] parentEntity) = throw e /\
  outcome (addMatches MAPPED_FIELDS MAPPED_TAGS loadedTags
             [(t, v)] qb parentEntity) = throw e.
Proof.
  intros Hv.
  assert (Hm : outcome (matchClause MAPPED_FIELDS MAPPED_TAGS loadedTags (t, v))
               = throw e).
  { rewrite (matchClause_resolved _ _ _ _ _ _ _ resolves), Hv. reflexivity. }
  split.
  - rewrite getFilterSql_single. unfold mapOutcome, outcome in *. simpl.
    rewrite Hm. reflexivity.
  - apply (addMatches_throw _ _ _ [] [] [] (t, v) e qb parentEntity);
      [constructor | exact Hm].
Qed.

(** X8.  A clause with a scalar value (boolean, number or string) on a
    tag that resolves compiles, in both compilers, to one [EXISTS]
    sub-query that compares the resolved column with the value, never
    negated. *)
Lemma scalar_clause_compiles (v : JsValue) :
  isScalar v = true ->
  outcome (getFilterSql MAPPED_FIELDS MAPPED_TAGS loadedTags
             [(t, v)] parentEntity)
  = ok [fragmentOf (valueClause false matchEntity parentEntity matchColumn v)] /\
  exists whereLog,
    outcome (addMatches MAPPED_FIELDS MAPPED_TAGS loadedTags
               [(t, v)] qb parentEntity)
    = ok (andWhere qb (WExists (valueClause false matchEntity parentEntity
                                  matchColumn v)), whereLog).
Proof.
  intros Hs.
  pose proof (single_clause_compiles v v JUndefined
                (matchValueOf_scalar _ _ Hs)) as H.
  assert (E : existsClause parentEntity
                {| m_entity := matchEntity; m_column := matchColumn;
                   m_whereValue := v; m_not := JUndefined |}
              = valueClause false matchEntity parentEntity matchColumn v)
    by (destruct v; try discriminate; reflexivity).
  cbv zeta in H. rewrite E in H. exact H.
Qed.

(** X9.  A not-equal clause [{ $ne: v }] with a scalar [v] compiles to
    the negated sub-query ([NOT EXISTS] a row whose column equals [v])
    only when [v] is truthy.  With a falsy operand ([false], [0] or
    the empty string) the [$ne] is taken for absent, the object is left
    as the value, and both compilers raise the client-input error. *)
Lemma not_equal_clause_compiles (v : JsValue) :
  isScalar v = true ->
  (truthy v = true ->
   outcome (getFilterSql MAPPED_FIELDS MAPPED_TAGS loadedTags
              [(t, JObj [("$ne", v)])] parentEntity)
   = ok [fragmentOf (valueClause true matchEntity parentEntity matchColumn v)] /\
   exists whereLog,
     outcome (addMatches MAPPED_FIELDS MAPPED_TAGS loadedTags
                [(t, JObj [("$ne", v)])] qb parentEntity)
     = ok (andWhere qb (WExists (valueClause true matchEntity parentEntity
                                   matchColumn v)), whereLog)) /\
  (truthy v = false ->
   outcome (getFilterSql MAPPED_FIELDS MAPPED_TAGS loadedTags
              [(t, JObj [("$ne", v)])] parentEntity)
   = throw (UnprocessableEntityException
              (UnableToProcess (JObj [("$ne", v)]))) /\
   outcome (addMatches MAPPED_FIELDS MAPPED_TAGS loadedTags
              [(t, JObj [("$ne", v)])] qb parentEntity)
   = throw (UnprocessableEntityException
              (UnableToProcess (JObj [("$ne", v)])))).
Proof.
  intros Hs.
  assert (Ho : isObject v = false) by (destruct v; try discriminate; reflexivity).
  pose proof (matchValueOf_ne matchEntity v Ho) as Hne. split; intros Ht;
    rewrite Ht in Hne.
  - pose proof (single_clause_compiles _ v v Hne) as H.
    assert (E : existsClause parentEntity
                  {| m_entity := matchEntity; m_column := matchColumn;
                     m_whereValue := v; m_not := v |}
                = valueClause true matchEntity parentEntity matchColumn v).
    { unfold existsClause, valueClause. simpl. rewrite Ht.
      destruct v; try discriminate; reflexivity. }
    cbv zeta in H. rewrite E in H. exact H.
  - exact (single_clause_throws _ _ Hne).
Qed.

Lemma scanIn_same_quantifier (values : list JsValue)
    (whereValue not1 not2 : JsValue) :
  truthy not1 = truthy not2 ->
  match scanIn matchEntity values whereValue not1,
        scanIn matchEntity values whereValue not2 with
  | inr (w1, n1), inr (w2, n2) => w1 = w2 /\ truthy n1 = truthy n2
  | inl e1, inl e2 => e1 = e2
  | _, _ => False
  end.
Proof.
  intros H. induction values as [| value values IH]; simpl.
  - split; [reflexivity | exact H].
  - destruct (isSentinel value).
    + destruct (entity_eqb matchEntity Product); simpl.
      * split; [reflexivity | exact H].
      * rewrite H. split; reflexivity.
    + destruct (isObject value); [reflexivity | exact IH].
Qed.

Lemma same_round (v1 v2 : JsValue) :
  match matchValueOf matchEntity v1, matchValueOf matchEntity v2 with
  | inr (w1, n1), inr (w2, n2) => w1 = w2 /\ truthy n1 = truthy n2
  | inl e1, inl e2 => e1 = e2
  | _, _ => False
  end ->
  getFilterSql MAPPED_FIELDS MAPPED_TAGS loadedTags [(t, v1)] parentEntity
  = getFilterSql MAPPED_FIELDS MAPPED_TAGS loadedTags [(t, v2)] parentEntity.
Proof.
  intros H. rewrite !getFilterSql_single. unfold matchClause. cbn [fst snd].
  destruct (getEntityAndColumn MAPPED_FIELDS MAPPED_TAGS loadedTags t)
    as [tr [e | [ent col]]]; [reflexivity |].
  simpl in resolves. injection resolves as -> ->.
  cbn -[matchValueOf].
  destruct (matchValueOf matchEntity v1) as [e1 | [w1 n1]],
           (matchValueOf matchEntity v2) as [e2 | [w2 n2]];
    try contradiction.
  - subst. reflexivity.
  - destruct H as [-> Hn]. unfold mapOutcome, sqlFragment. simpl.
    rewrite Hn. reflexivity.
Qed.

(** X10.  Negations compose: for a non-empty list [L], the clause
    [{ $ne: { $nin: L } }] compiles exactly as [{ $in: L }] does, and
    [{ $ne: { $in: L } }] exactly as [{ $nin: L }] (same calls, same
    sub-query or same exception). *)
Lemma double_negation_compiles (L : list JsValue) :
  L <> [] ->
  getFilterSql MAPPED_FIELDS MAPPED_TAGS loadedTags
    [(t, JObj [("$ne", JObj [("$nin", JArr L)])])] parentEntity
  = getFilterSql MAPPED_FIELDS MAPPED_TAGS loadedTags
      [(t, JObj [("$in", JArr L)])] parentEntity /\
  getFilterSql MAPPED_FIELDS MAPPED_TAGS loadedTags
    [(t, JObj [("$ne", JObj [("$in", JArr L)])])] parentEntity
  = getFilterSql MAPPED_FIELDS MAPPED_TAGS loadedTags
      [(t, JObj [("$nin", JArr L)])] parentEntity.
Proof.
  intros Hne. destruct L as [| x L]; [contradiction |].
  split; apply same_round.
  - change (matchValueOf matchEntity
              (JObj [("$ne", JObj [("$nin", JArr (x :: L))])]))
      with (scanIn matchEntity (x :: L) (JObj [("$in", JArr (x :: L))])
              (JBool false)).
    change (matchValueOf matchEntity (JObj [("$in", JArr (x :: L))]))
      with (scanIn matchEntity (x :: L) (JObj [("$in", JArr (x :: L))])
              JUndefined).
    apply scanIn_same_quantifier. reflexivity.
  - change (matchValueOf matchEntity
              (JObj [("$ne", JObj [("$in", JArr (x :: L))])]))
      with (scanIn matchEntity (x :: L) (JObj [("$in", JArr (x :: L))])
              (JObj [("$in", JArr (x :: L))])).
    change (matchValueOf matchEntity (JObj [("$nin", JArr (x :: L))]))
      with (scanIn matchEntity (x :: L) (JObj [("$in", JArr (x :: L))])
              (JBool true)).
    apply scanIn_same_quantifier. reflexivity.
Qed.

(** X11.  The operand of [$in] / [$nin] that is not a list: [null]
    makes both compilers raise a raw [TypeError] (its [length] is read),
    a number or a boolean the client-input error. *)
Lemma list_operand_that_is_no_list (nin : bool) (operand : JsValue) :
  (isNullish operand = true ->
   outcome (getFilterSql MAPPED_FIELDS MAPPED_TAGS loadedTags
              [(t, JObj [(operatorKey nin, operand)])] parentEntity)
   = throw TypeError /\
   outcome (addMatches MAPPED_FIELDS MAPPED_TAGS loadedTags
              [(t, JObj [(operatorKey nin, operand)])] qb parentEntity)
   = throw TypeError) /\
  ((exists b, operand = JBool b) \/ (exists n, operand = JNum n) ->
   outcome (getFilterSql MAPPED_FIELDS MAPPED_TAGS loadedTags
              [(t, JObj [(operatorKey nin, operand)])] parentEntity)
   = throw (UnprocessableEntityException
              (UnableToProcess (JObj [(operatorKey nin, operand)]))) /\
   outcome (addMatches MAPPED_FIELDS MAPPED_TAGS loadedTags
              [(t, JObj [(operatorKey nin, operand)])] qb parentEntity)
   = throw (UnprocessableEntityException
              (UnableToProcess (JObj [(operatorKey nin, operand)])))).
Proof.
  split.
  - intros Hn. apply single_clause_throws.
    destruct nin, operand; try discriminate; reflexivity.
  - intros [[b ->] | [n ->]]; apply single_clause_throws;
      destruct nin; reflexivity.
Qed.

End SingleClause.

Lemma scalar_clause_compiles_witness :
  outcome (getFilterSql Sample.fields Sample.tags Sample.loaded
             [("brands_tags", JStr "acme")] Product)
  = ok [fragmentOf (valueClause false (TagEntity "product_brands_tag")
                      Product "value" (JStr "acme"))].
Proof.
  exact (proj1 (scalar_clause_compiles Sample.fields Sample.tags Sample.loaded
                  "brands_tags" (TagEntity "product_brands_tag") Product
                  "value" (createQueryBuilder Product) eq_refl
                  (JStr "acme") eq_refl)).
Defined.

Lemma not_equal_clause_compiles_witness :
  outcome (getFilterSql Sample.fields Sample.tags Sample.loaded
             [("creator", JObj [("$ne", JNum 0)])] Product)
  = throw (UnprocessableEntityException
             (UnableToProcess (JObj [("$ne", JNum 0)]))).
Proof.
  exact (proj1 (proj2 (not_equal_clause_compiles Sample.fields Sample.tags
                         Sample.loaded "creator" Product Product "creator"
                         (createQueryBuilder Product) eq_refl
                         (JNum 0) eq_refl) eq_refl)).
Defined.

Lemma double_negation_compiles_witness :
  getFilterSql Sample.fields Sample.tags Sample.loaded
    [("brands_tags", JObj [("$ne", JObj [("$nin", JArr [JStr "acme"])])])]
    Product
  = getFilterSql Sample.fields Sample.tags Sample.loaded
      [("brands_tags", JObj [("$in", JArr [JStr "acme"])])] Product.
Proof.
  refine (proj1 (double_negation_compiles Sample.fields Sample.tags
                   Sample.loaded "brands_tags"
                   (TagEntity "product_brands_tag") Product "value"
                   eq_refl [JStr "acme"] _)).
  discriminate.
Defined.

Lemma list_operand_that_is_no_list_witness :
  outcome (getFilterSql Sample.fields Sample.tags Sample.loaded
             [("creator", JObj [(operatorKey false, JNull)])] Product)
  = throw TypeError.
Proof.
  exact (proj1 (proj1 (list_operand_that_is_no_list Sample.fields Sample.tags
                         Sample.loaded "creator" Product Product "creator"
                         (createQueryBuilder Product) eq_refl false JNull)
                      eq_refl)).
Defined.

(** ** What [count] and [select] return *)

Lemma filterM_filter {A} (f : A -> Res bool) (l ys : list A) :
  filterM f l = ok ys ->
  ys = filter (fun x => match f x with inr b => b | inl _ => false end) l.
Proof.
  revert ys. induction l as [| x l IH]; simpl; intros ys H.
  - injection H as <-. reflexivity.
  - destruct (f x) as [e | b]; [discriminate |]. simpl in H.
    destruct (filterM f l) as [e | zs]; [discriminate |]. simpl in H.
    injection H as <-. rewrite (IH zs eq_refl). destruct b; reflexivity.
Qed.

Lemma filterM_pure {A} (f : A -> Res bool) (g : A -> bool) (l : list A) :
  (forall x, f x = ok (g x)) -> filterM f l = ok (filter g l).
Proof.
  intros H. induction l as [| x l IH]; simpl; [reflexivity |].
  rewrite H, IH. simpl. destruct (g x); reflexivity.
Qed.

Lemma filter_length_le {A} (g : A -> bool) (l : list A) :
  (List.length (filter g l) <= List.length l)%nat.
Proof.
  induction l as [| x l IH]; simpl; [lia |]. destruct (g x); simpl; lia.
Qed.

Lemma allM_app {A} (f : A -> Res bool) (l l' : list A) :
  allM f (l ++ l') = (b <- allM f l ;; b' <- allM f l' ;; ok (b && b')).
Proof.
  induction l as [| x l IH]; simpl.
  - destruct (allM f l'); reflexivity.
  - destruct (f x) as [e | bx]; simpl; [reflexivity |]. rewrite IH.
    destruct (allM f l) as [e | b]; simpl; [reflexivity |].
    destruct (allM f l') as [e | b']; simpl; [reflexivity |].
    rewrite andb_assoc. reflexivity.
Qed.

(** More conditions keep fewer rows. *)
Lemma rowsWhere_app (db : Mirror) (entity : Entity)
    (cs cs' : list Cond) (fewer rows : list Row) :
  rowsWhere db entity (cs ++ cs') = ok fewer ->
  rowsWhere db entity cs = ok rows ->
  fewer = filter (fun pt => match allM (fun c => evalCond db c pt) cs' with
                            | inr b => b
                            | inl _ => false
                            end) rows.
Proof.
  unfold rowsWhere. generalize (db entity) as l. intros l. revert fewer rows.
  induction l as [| pt l IH]; simpl; intros fewer rows H1 H2.
  - injection H1 as <-. injection H2 as <-. reflexivity.
  - rewrite allM_app in H1.
    destruct (allM (fun c => evalCond db c pt) cs) as [e | b];
      [discriminate |].
    simpl in H1, H2.
    destruct (allM (fun c => evalCond db c pt) cs') as [e | b'] eqn:Hc';
      [discriminate |].
    simpl in H1.
    destruct (filterM _ l) as [e | fewer'] eqn:Hs in H1; [discriminate |].
    destruct (filterM _ l) as [e | rows'] eqn:Ha in H2; [discriminate |].
    simpl in H1, H2. injection H1 as <-. injection H2 as <-.
    rewrite (IH _ _ Hs Ha).
    destruct b, b'; simpl; rewrite ?Hc'; reflexivity.
Qed.

Section Results.

Variable MAPPED_FIELDS : list string.
Variable MAPPED_TAGS : string -> option Entity.
Variable loadedTags : list string.
Variable db : Mirror.

(** [count] returns the number of rows its conjunction keeps. *)
Lemma count_returns (body : JsValue) (obsolete : bool) (filters : list Clause)
    (ms : list Match) (found : list Row) :
  parseFilter (if isNullish body then JObj [] else body) = ok filters ->
  Forall2 (fun f m => outcome (matchClause MAPPED_FIELDS MAPPED_TAGS loadedTags f)
                      = ok m) filters ms ->
  rowsWhere db Product (conditions Product obsolete ms) = ok found ->
  outcome (count MAPPED_FIELDS MAPPED_TAGS loadedTags db body obsolete)
  = ok (Int (Z.of_nat (List.length found))).
Proof.
  intros Hp Hms Hrows. unfold count. rewrite Hp, mbind_lift_ok. cbv zeta.
  rewrite (outcome_mbind_ok _ _ _ (addMatches_ok _ _ _ _ _ _ Product Hms)).
  unfold execute, runStatement, runQuery.
  rewrite matchingRows_addClauses. simpl qb_where. simpl qb_entity.
  unfold conditions in Hrows. simpl app. rewrite Hrows.
  destruct (addClauses_fields Product ms
              (andWhere (qbSelect (createQueryBuilder Product) SelCountStar)
                        (WRaw (obsoleteWhere obsolete))))
    as (_ & -> & -> & ->).
  cbn -[parseInt decimal]. rewrite parseInt_decimal. reflexivity.
Qed.

(** X12.  [count] takes a missing body ([null] or [undefined]) for the
    empty filter, where [select] raises a [TypeError] before any call;
    and on the empty filter [count] returns the number of products
    whose obsolete flag is the one asked for. *)
Theorem count_without_body (obsolete : bool) :
  count MAPPED_FIELDS MAPPED_TAGS loadedTags db JNull obsolete
  = count MAPPED_FIELDS MAPPED_TAGS loadedTags db (JObj []) obsolete /\
  count MAPPED_FIELDS MAPPED_TAGS loadedTags db JUndefined obsolete
  = count MAPPED_FIELDS MAPPED_TAGS loadedTags db (JObj []) obsolete /\
  select MAPPED_FIELDS MAPPED_TAGS loadedTags db JNull = ([], throw TypeError) /\
  outcome (count MAPPED_FIELDS MAPPED_TAGS loadedTags db (JObj []) obsolete)
  = ok (Int (Z.of_nat (List.length
                         (filter (fun pt => flagIs obsolete (JObj pt))
                                 (db Product))))).
Proof.
  repeat split.
  apply (count_returns (JObj []) obsolete [] []); [reflexivity | constructor |].
  unfold rowsWhere, conditions. apply filterM_pure. intros pt.
  cbn [map allM]. rewrite evalCond_obsolete. simpl.
  rewrite andb_true_r. reflexivity.
Qed.

(** X13.  What [count] returns is a number of products: it is an
    integer, never [NaN], and it lies between 0 and the number of rows
    of the [Product] table. *)
Theorem count_is_bounded (body : JsValue) (obsolete : bool) (n : Num) :
  outcome (count MAPPED_FIELDS MAPPED_TAGS loadedTags db body obsolete) = ok n ->
  exists k : Z,
    n = Int k /\ (0 <= k <= Z.of_nat (List.length (db Product)))%Z.
Proof.
  intros H.
  destruct (count_ok_inv _ _ _ _ _ _ _ H) as (filters & ms & found & _ & _ & Hf & ->).
  eexists. split; [reflexivity |].
  unfold rowsWhere in Hf. rewrite (filterM_filter _ _ _ Hf).
  pose proof (filter_length_le
                (fun x => match allM (fun c => evalCond db c x)
                                  (conditions Product obsolete ms) with
                          | inr b => b
                          | inl _ => false
                          end) (db Product)).
  lia.
Qed.

(** X14.  [select] returns rows of the [Product] table as they are:
    what it returns is, up to the order, which the statement leaves to
    the store, the table filtered; so each returned row is a row of
    the table, and there are no more of them than the table has. *)
Theorem select_returns_table_rows (body : JsValue) (rows : list JsValue) :
  outcome (select MAPPED_FIELDS MAPPED_TAGS loadedTags db body) = ok rows ->
  (exists keep : Row -> bool,
      Permutation rows (map JObj (filter keep (db Product)))) /\
  (forall r, In r rows -> exists pt, r = JObj pt /\ In pt (db Product)) /\
  (List.length rows <= List.length (db Product))%nat.
Proof.
  intros H.
  destruct (select_ok_inv _ _ _ _ _ _ H)
    as (filters & ms & found & _ & _ & Hf & Hperm).
  unfold rowsWhere in Hf. rewrite (filterM_filter _ _ _ Hf) in Hperm.
  split; [eexists; exact Hperm |]. split.
  - intros r Hr. apply (Permutation_in _ Hperm) in Hr.
    apply in_map_iff in Hr as (pt & <- & Hpt).
    exists pt. split; [reflexivity |]. apply filter_In in Hpt. apply Hpt.
  - rewrite (Permutation_length Hperm), length_map. apply filter_length_le.
Qed.

(** X15.  The two modes of [count] split what [select] returns: for the
    same filter, the count of the products that are not obsolete and
    the count of the obsolete ones add up to the number of returned
    rows whose flag is a boolean, hence to at most the number of
    returned rows. *)
Theorem count_modes_partition (body : JsValue) (rows : list JsValue)
    (kept gone : Num) :
  outcome (select MAPPED_FIELDS MAPPED_TAGS loadedTags db body) = ok rows ->
  outcome (count MAPPED_FIELDS MAPPED_TAGS loadedTags db body false) = ok kept ->
  outcome (count MAPPED_FIELDS MAPPED_TAGS loadedTags db body true) = ok gone ->
  exists k g : Z,
    kept = Int k /\ gone = Int g /\
    (k + g = Z.of_nat (List.length (filter hasFlag rows)))%Z /\
    (k + g <= Z.of_nat (List.length rows))%Z.
Proof.
  intros Hs Hl Hg.
  rewrite (count_of_selected _ _ _ _ _ _ _ _ Hs Hl).
  rewrite (count_of_selected _ _ _ _ _ _ _ _ Hs Hg).
  do 2 eexists. split; [reflexivity |]. split; [reflexivity |].
  assert (E : (List.length (filter (flagIs false) rows)
               + List.length (filter (flagIs true) rows)
               = List.length (filter hasFlag rows))%nat).
  { clear. induction rows as [| r rows IH]; [reflexivity |].
    assert (Hr : (flagIs false r = true /\ flagIs true r = false
                  /\ hasFlag r = true) \/
                 (flagIs false r = false /\ flagIs true r = true
                  /\ hasFlag r = true) \/
                 (flagIs false r = false /\ flagIs true r = false
                  /\ hasFlag r = false)).
    { unfold flagIs, hasFlag.
      destruct (getPropOpt r "obsolete") as [| | [|] | | | |]; simpl; auto. }
    simpl. destruct Hr as [(-> & -> & ->) | [(-> & -> & ->) | (-> & -> & ->)]];
      simpl; lia. }
  pose proof (filter_length_le hasFlag rows). split; lia.
Qed.

(** X16.  A filter with more entries counts no more products: for the
    same mode, [count] on a filter extended with further entries
    returns at most what it returns on the filter. *)
Theorem count_narrows (es es' : list (string * JsValue)) (obsolete : bool)
    (n n' : Num) :
  outcome (count MAPPED_FIELDS MAPPED_TAGS loadedTags db (JObj es) obsolete)
  = ok n ->
  outcome (count MAPPED_FIELDS MAPPED_TAGS loadedTags db (JObj (es ++ es'))
             obsolete) = ok n' ->
  exists k k' : Z, n = Int k /\ n' = Int k' /\ (k' <= k)%Z.
Proof.
  intros H H'.
  destruct (count_ok_inv _ _ _ _ _ _ _ H)
    as (filters & ms & found & Hp & Hms & Hf & ->).
  destruct (count_ok_inv _ _ _ _ _ _ _ H')
    as (filters' & ms' & found' & Hp' & Hms' & Hf' & ->).
  cbn [isNullish] in Hp, Hp'. rewrite parseFilter_app, Hp, rbind_ok in Hp'.
  destruct (parseFilter (JObj es')) as [e | more]; [discriminate |].
  rewrite rbind_ok in Hp'. injection Hp' as <-.
  apply Forall2_app_inv_l in Hms' as (ms1 & ms2 & Hms1 & Hms2 & ->).
  rewrite <- (Forall2_functional _ _ _ _ Hms Hms1) in Hf'.
  unfold conditions in Hf'. rewrite map_app in Hf'.
  change (WRaw (obsoleteWhere obsolete)
          :: map (fun m => WExists (existsClause Product m)) ms
             ++ map (fun m => WExists (existsClause Product m)) ms2)
    with (conditions Product obsolete ms
          ++ map (fun m => WExists (existsClause Product m)) ms2) in Hf'.
  rewrite (rowsWhere_app _ _ _ _ _ _ Hf' Hf).
  pose proof (filter_length_le
                (fun pt => match allM (fun c => evalCond db c pt)
                                   (map (fun m => WExists (existsClause Product m))
                                        ms2) with
                           | inr b => b
                           | inl _ => false
                           end) found).
  do 2 eexists. split; [reflexivity |]. split; [reflexivity |]. lia.
Qed.

End Results.

Lemma count_is_bounded_witness :
  exists k : Z,
    Int 2 = Int k /\
    (0 <= k <= Z.of_nat (List.length (Sample.mirror Product)))%Z.
Proof.
  apply (count_is_bounded Sample.fields Sample.tags Sample.loaded Sample.mirror
           (JObj []) false (Int 2)).
  reflexivity.
Defined.

Lemma select_returns_table_rows_witness :
  let rows := [JObj (Sample.productRow 1 (JStr "001") (JStr "ann") false);
               JObj (Sample.productRow 3 (JStr "003") (JStr "ann") true)] in
  (exists keep : Row -> bool,
      Permutation rows (map JObj (filter keep (Sample.mirror Product)))) /\
  (forall r, In r rows ->
             exists pt, r = JObj pt /\ In pt (Sample.mirror Product)) /\
  (List.length rows <= List.length (Sample.mirror Product))%nat.
Proof.
  apply (select_returns_table_rows Sample.fields Sample.tags Sample.loaded
           Sample.mirror (JObj [("creator", JStr "ann")])).
  reflexivity.
Defined.

Lemma count_modes_partition_witness :
  let rows := [JObj (Sample.productRow 1 (JStr "001") (JStr "ann") false);
               JObj (Sample.productRow 3 (JStr "003") (JStr "ann") true)] in
  exists k g : Z,
    Int 1 = Int k /\ Int 1 = Int g /\
    (k + g = Z.of_nat (List.length (filter hasFlag rows)))%Z /\
    (k + g <= Z.of_nat (List.length rows))%Z.
Proof.
  apply (count_modes_partition Sample.fields Sample.tags Sample.loaded
           Sample.mirror (JObj [("creator", JStr "ann")])); reflexivity.
Defined.

Lemma count_narrows_witness :
  exists k k' : Z, Int 2 = Int k /\ Int 1 = Int k' /\ (k' <= k)%Z.
Proof.
  apply (count_narrows Sample.fields Sample.tags Sample.loaded Sample.mirror
           [] [("creator", JStr "ann")] false (Int 2) (Int 1)); reflexivity.
Defined.

(** ** The stages of a pipeline *)

Lemma findStage_skip (pre post : list JsValue) (o v : JsValue) (key : string) :
  getProp o key = ok v -> truthy v = false ->
  findStage (JArr (pre ++ o :: post)) key = findStage (JArr (pre ++ post)) key.
Proof.
  intros Ho Hv. induction pre as [| p pre IH]; simpl in *.
  - rewrite Ho. simpl. rewrite Hv. reflexivity.
  - destruct (getProp p key) as [e | w]; simpl; [reflexivity |].
    destruct (truthy w); [reflexivity | exact IH].
Qed.

Lemma findStage_first (stages more : list JsValue) (v : JsValue) (key : string) :
  findStage (JArr stages) key = ok v -> truthy v = true ->
  findStage (JArr (stages ++ more)) key = ok v.
Proof.
  intros H Hv. induction stages as [| p stages IH]; simpl in *.
  - injection H as <-. discriminate.
  - destruct (getProp p key) as [e | w]; simpl in *; [discriminate |].
    destruct (truthy w); [exact H | exact (IH H)].
Qed.

(** [aggregate] sees a pipeline through the five keys only. *)
Lemma aggregate_ext
    (MAPPED_FIELDS : list string) (MAPPED_TAGS : string -> option Entity)
    (loadedTags : list string) (db : Mirror)
    (body body' : JsValue) (obsolete : bool) :
  (forall key, In key stageKeys -> findStage body key = findStage body' key) ->
  aggregate MAPPED_FIELDS MAPPED_TAGS loadedTags db body obsolete
  = aggregate MAPPED_FIELDS MAPPED_TAGS loadedTags db body' obsolete.
Proof.
  intros H. unfold aggregate, someStage.
  rewrite (H "$match"), (H "$group"), (H "$count"), (H "$limit"), (H "$skip");
    simpl; auto 6.
Qed.

Lemma idleStage_prop (o : JsValue) (key : string) :
  idleStage o = true -> In key stageKeys ->
  exists v, getProp o key = ok v /\ truthy v = false.
Proof.
  unfold idleStage. intros H Hin. apply andb_true_iff in H as [Hn Hall].
  rewrite forallb_forall in Hall. specialize (Hall key Hin).
  apply negb_true_iff in Hall. exists (getPropOpt o key). split; [| exact Hall].
  unfold getPropOpt. destruct (getProp o key) as [e | v] eqn:Hg; [| reflexivity].
  destruct o; simpl in *; try discriminate;
    destruct (key =? "length"); discriminate.
Qed.

(** X17.  A stage without a truthy [$match], [$group], [$count],
    [$limit] or [$skip] is ignored wherever it stands in the pipeline:
    an unknown stage such as [{ $sort: ... }], an empty stage, and also
    [{ $limit: 0 }] or [{ $skip: 0 }], which therefore put no limit and
    no offset. *)
Theorem idle_stage_is_ignored
    (MAPPED_FIELDS : list string) (MAPPED_TAGS : string -> option Entity)
    (loadedTags : list string) (db : Mirror)
    (pre post : list JsValue) (o : JsValue) (obsolete : bool) :
  idleStage o = true ->
  aggregate MAPPED_FIELDS MAPPED_TAGS loadedTags db
    (JArr (pre ++ o :: post)) obsolete
  = aggregate MAPPED_FIELDS MAPPED_TAGS loadedTags db
      (JArr (pre ++ post)) obsolete.
Proof.
  intros Hi. apply aggregate_ext. intros key Hin.
  destruct (idleStage_prop o key Hi Hin) as (v & Hg & Hv).
  exact (findStage_skip pre post o v key Hg Hv).
Qed.

Lemma idle_stage_is_ignored_witness :
  aggregate Sample.fields Sample.tags Sample.loaded Sample.mirror
    (JArr ([JObj [("$match", JObj [])]]
           ++ JObj [("$limit", JNum 0)]
           :: [JObj [("$group", JObj [("_id", JStr "$brands_tags")])]]))
    false
  = aggregate Sample.fields Sample.tags Sample.loaded Sample.mirror
      (JArr ([JObj [("$match", JObj [])]]
             ++ [JObj [("$group", JObj [("_id", JStr "$brands_tags")])]]))
      false.
Proof.
  apply (idle_stage_is_ignored Sample.fields Sample.tags Sample.loaded
           Sample.mirror). reflexivity.
Defined.

(** X18.  The first stage of a kind wins: once a pipeline has a stage
    with a truthy value for one of the five keys, a further stage
    [{ key: v }] appended to it changes nothing. *)
Theorem repeated_stage_is_ignored
    (MAPPED_FIELDS : list string) (MAPPED_TAGS : string -> option Entity)
    (loadedTags : list string) (db : Mirror)
    (stages : list JsValue) (key : string) (v v' : JsValue) (obsolete : bool) :
  findStage (JArr stages) key = ok v -> truthy v = true ->
  aggregate MAPPED_FIELDS MAPPED_TAGS loadedTags db
    (JArr (stages ++ [JObj [(key, v')]])) obsolete
  = aggregate MAPPED_FIELDS MAPPED_TAGS loadedTags db (JArr stages) obsolete.
Proof.
  intros Hf Hv. apply aggregate_ext. intros k Hin.
  destruct (key =? k) eqn:Hk.
  - apply String.eqb_eq in Hk. subst k.
    rewrite Hf. exact (findStage_first _ _ _ _ Hf Hv).
  - rewrite (findStage_skip stages [] (JObj [(key, v')]) JUndefined k).
    + rewrite app_nil_r. reflexivity.
    + simpl. rewrite Hk. reflexivity.
    + reflexivity.
Qed.

Lemma repeated_stage_is_ignored_witness :
  aggregate Sample.fields Sample.tags Sample.loaded Sample.mirror
    (JArr ([JObj [("$match", JObj [])];
            JObj [("$group", JObj [("_id", JStr "$brands_tags")])]]
           ++ [JObj [("$match", JObj [("creator", JStr "ann")])]])) false
  = aggregate Sample.fields Sample.tags Sample.loaded Sample.mirror
      (JArr [JObj [("$match", JObj [])];
             JObj [("$group", JObj [("_id", JStr "$brands_tags")])]]) false.
Proof.
  apply (repeated_stage_is_ignored Sample.fields Sample.tags Sample.loaded
           Sample.mirror _ "$match" (JObj [])); reflexivity.
Defined.

Section Pipelines.

Variable MAPPED_FIELDS : list string.
Variable MAPPED_TAGS : string -> option Entity.
Variable loadedTags : list string.
Variable db : Mirror.

(** X19.  A match stage is an unstated precondition of [aggregate] as
    well: for a pipeline that has a group stage whose tag resolves but
    no match stage, the filter to normalize is [undefined] and
    [aggregate] raises a [TypeError], after the tag is resolved and
    before any statement is run. *)
Theorem aggregate_without_match (body : JsValue) (obsolete : bool)
    (st : Stages) (tag : string) (resolved : Entity * string) :
  readStages body = ok st ->
  st_match st = JUndefined ->
  groupTag (st_group st) = ok tag ->
  outcome (getEntityAndColumn MAPPED_FIELDS MAPPED_TAGS loadedTags tag)
  = ok resolved ->
  outcome (aggregate MAPPED_FIELDS MAPPED_TAGS loadedTags db body obsolete)
  = throw TypeError /\
  existsb isExecute
    (trace (aggregate MAPPED_FIELDS MAPPED_TAGS loadedTags db body obsolete))
  = false.
Proof.
  intros Hst Hm Htag Hres.
  rewrite (aggregate_stages _ _ _ _ _ _ _ _ Hst Htag). unfold aggregateFrom.
  pose proof (getEntityAndColumn_quiet MAPPED_FIELDS MAPPED_TAGS loadedTags tag)
    as Hq.
  destruct (getEntityAndColumn MAPPED_FIELDS MAPPED_TAGS loadedTags tag)
    as [tr [e | [entity column]]]; [discriminate |].
  unfold mbind at 1. cbv zeta. rewrite Hm.
  change (parseFilter JUndefined) with (@throw (list Clause) TypeError).
  rewrite mbind_lift_throw. simpl in *. rewrite app_nil_r.
  split; [reflexivity | exact Hq].
Qed.

(** X20.  In count mode the limit and skip stages play no part:
    two pipelines with the same match and group stages and a count
    stage get the same answer from [aggregate], whatever their limit
    and skip stages. *)
Theorem count_mode_ignores_paging (body body' : JsValue) (obsolete : bool)
    (st st' : Stages) :
  readStages body = ok st -> readStages body' = ok st' ->
  st_count st = true -> st_count st' = true ->
  st_match st' = st_match st -> st_group st' = st_group st ->
  aggregate MAPPED_FIELDS MAPPED_TAGS loadedTags db body obsolete
  = aggregate MAPPED_FIELDS MAPPED_TAGS loadedTags db body' obsolete.
Proof.
  intros Hst Hst' Hc Hc' Hm Hg.
  rewrite !aggregate_unfold, Hst, Hst', !mbind_lift_ok.
  destruct st as [m g c l s], st' as [m' g' c' l' s']. simpl in *. subst.
  destruct (groupTag g) as [e | tag]; reflexivity.
Qed.

(** X21.  A group stage whose [_id] is not a string (a number, an
    object, or no [_id] at all) makes [aggregate] raise a [TypeError]
    before any call to a store. *)
Theorem group_id_must_be_a_string (body : JsValue) (obsolete : bool)
    (st : Stages) (id : JsValue) :
  readStages body = ok st ->
  getProp (st_group st) "_id" = ok id ->
  isString id = false ->
  aggregate MAPPED_FIELDS MAPPED_TAGS loadedTags db body obsolete
  = ([], throw TypeError).
Proof.
  intros Hst Hid Hs. rewrite aggregate_unfold, Hst, mbind_lift_ok.
  unfold groupTag. rewrite Hid.
  destruct id; try discriminate; reflexivity.
Qed.

End Pipelines.

Lemma aggregate_without_match_witness :
  outcome (aggregate Sample.fields Sample.tags Sample.loaded Sample.mirror
             (JArr [JObj [("$group", JObj [("_id", JStr "$brands_tags")])]])
             false)
  = throw TypeError.
Proof.
  apply (aggregate_without_match Sample.fields Sample.tags
           Sample.loaded Sample.mirror
           (JArr [JObj [("$group", JObj [("_id", JStr "$brands_tags")])]])
           false
           {| st_match := JUndefined;
              st_group := JObj [("_id", JStr "$brands_tags")];
              st_count := false; st_limit := JUndefined;
              st_skip := JUndefined |}
           "brands_tags"
           (TagEntity "product_brands_tag", "value"%string));
    reflexivity.
Defined.

Lemma count_mode_ignores_paging_witness :
  aggregate Sample.fields Sample.tags Sample.loaded Sample.mirror
    Sample.countBrands false
  = aggregate Sample.fields Sample.tags Sample.loaded Sample.mirror
      (JArr [JObj [("$match", JObj [])];
             JObj [("$group", JObj [("_id", JStr "$brands_tags")])];
             JObj [("$count", JNum 1)]; JObj [("$limit", JNum 1)]]) false.
Proof.
  apply (count_mode_ignores_paging Sample.fields Sample.tags Sample.loaded
           Sample.mirror Sample.countBrands
           (JArr [JObj [("$match", JObj [])];
                  JObj [("$group", JObj [("_id", JStr "$brands_tags")])];
                  JObj [("$count", JNum 1)]; JObj [("$limit", JNum 1)]])
           false
           {| st_match := JObj [];
              st_group := JObj [("_id", JStr "$brands_tags")];
              st_count := true; st_limit := JUndefined;
              st_skip := JUndefined |}
           {| st_match := JObj [];
              st_group := JObj [("_id", JStr "$brands_tags")];
              st_count := true; st_limit := JNum 1;
              st_skip := JUndefined |});
    reflexivity.
Defined.

Lemma group_id_must_be_a_string_witness :
  aggregate Sample.fields Sample.tags Sample.loaded Sample.mirror
    (JArr [JObj [("$match", JObj [])];
           JObj [("$group", JObj [("_id", JNum 5)])]]) false
  = ([], throw TypeError).
Proof.
  apply (group_id_must_be_a_string Sample.fields Sample.tags Sample.loaded
           Sample.mirror
           (JArr [JObj [("$match", JObj [])];
                  JObj [("$group", JObj [("_id", JNum 5)])]])
           false
           {| st_match := JObj []; st_group := JObj [("_id", JNum 5)];
              st_count := false; st_limit := JUndefined;
              st_skip := JUndefined |}
           (JNum 5));
    reflexivity.
Defined.

(** ** The gates and the calls of [find] *)

Lemma entry_elements (entry : list JsValue) :
  getProp (JArr entry) "0" = ok (nth 0 entry JUndefined) /\
  getProp (JArr entry) "1" = ok (nth 1 entry JUndefined).
Proof. destruct entry as [| x [| y more]]; split; reflexivity. Qed.

Lemma unsupportedSort_spec (body sort : JsValue) :
  getProp body "sort" = ok sort -> UnsupportedSort sort ->
  unsupportedSort body = ok true.
Proof.
  intros Hb Hs. unfold unsupportedSort. rewrite Hb, rbind_ok.
  destruct Hs as [sort Hn | l Hl | entry Hk | entry Hd].
  - destruct sort; try discriminate; reflexivity.
  - change (getPropOpt (JArr l) "length")
      with (JNum (Z.of_nat (List.length l))).
    cbn [strictEq].
    replace (Z.of_nat (List.length l) =? 1)%Z with false; [reflexivity |].
    symmetry. apply Z.eqb_neq. lia.
  - change (getPropOpt (JArr [JArr entry]) "length") with (JNum 1).
    change (getProp (JArr [JArr entry]) "0") with (@ok JsValue (JArr entry)).
    cbn [strictEq Z.eqb Pos.eqb negb]. rewrite rbind_ok.
    rewrite (proj1 (entry_elements entry)), rbind_ok, Hk. reflexivity.
  - change (getPropOpt (JArr [JArr entry]) "length") with (JNum 1).
    change (getProp (JArr [JArr entry]) "0") with (@ok JsValue (JArr entry)).
    cbn [strictEq Z.eqb Pos.eqb negb]. rewrite rbind_ok.
    rewrite (proj1 (entry_elements entry)), rbind_ok.
    destruct (negb (strictEq (nth 0 entry JUndefined) (JStr "popularity_key")));
      [reflexivity |].
    rewrite (proj2 (entry_elements entry)), rbind_ok, Hd. reflexivity.
Qed.

Section Find.

Variable MAPPED_FIELDS : list string.
Variable MAPPED_TAGS : string -> option Entity.
Variable ProductCountry_TAG : string.
Variable loadedTags : list string.
Variable countryRows : JsValue -> list JsValue.
Variable rankedRows : RankQuery -> list JsValue.
Variable mongoFind : list JsValue -> JsValue -> list JsValue.

Local Abbreviation find' :=
  (find MAPPED_FIELDS MAPPED_TAGS ProductCountry_TAG loadedTags
     countryRows rankedRows mongoFind).

(** X22.  [find] turns down, with the client-input error and before any
    call to a store, every request without a sort, with a sort list
    that has not exactly one entry, or whose single entry is not
    [['popularity_key', -1]]; the one sort it lets through is a single
    entry that starts with ['popularity_key', -1]. *)
Theorem find_sort_gate (body sort : JsValue) (obsolete : bool) :
  getProp body "sort" = ok sort ->
  (UnsupportedSort sort ->
   find' body obsolete
   = ([], throw (UnprocessableEntityException OnlyDescendingPopularity))) /\
  (forall more,
      sort = JArr [JArr (JStr "popularity_key" :: JNum (-1) :: more)] ->
      unsupportedSort body = ok false).
Proof.
  intros Hb. split.
  - intros Hs. unfold find. rewrite (unsupportedSort_spec _ _ Hb Hs).
    reflexivity.
  - intros more ->. unfold unsupportedSort. rewrite Hb. reflexivity.
Qed.

(** X23.  Past the sort gate, [find] consults the Loaded-Tag Registry
    once and makes no call to the mirror or the document store when the
    tag of the per-country statistics is not loaded, or when the
    [countries_tags] of the filter is present and not a string
    ([null] included): it raises the client-input error. *)
Theorem find_gates_before_sql (body : JsValue) (obsolete : bool) :
  unsupportedSort body = ok false ->
  (includes ProductCountry_TAG loadedTags = false ->
   find' body obsolete
   = ([GetLoadedTags], throw (UnprocessableEntityException ScansNotLoaded))) /\
  (forall filter countryTag,
      includes ProductCountry_TAG loadedTags = true ->
      getProp body "filter" = ok filter ->
      getProp filter "countries_tags" = ok countryTag ->
      strictEq countryTag JUndefined = false ->
      isString countryTag = false ->
      find' body obsolete
      = ([GetLoadedTags],
         throw (UnprocessableEntityException MultipleCountries))).
Proof.
  intros Hs. split.
  - intros Hl. unfold find. rewrite Hs, mbind_lift_ok. cbn. rewrite Hl.
    reflexivity.
  - intros filter countryTag Hl Hf Hc Hu Hstr. unfold find.
    rewrite Hs, mbind_lift_ok. cbn -[parseFilter getFilterSql].
    rewrite Hl. cbn -[parseFilter getFilterSql].
    rewrite Hf. cbn -[parseFilter getFilterSql].
    rewrite Hc. cbn -[parseFilter getFilterSql].
    rewrite Hu, Hstr. reflexivity.
Qed.

End Find.

Lemma find_sort_gate_witness :
  find Sample.fields Sample.tags "countries_tags" ["countries_tags"]
    Sample.countries Sample.ranking Sample.documents
    (JObj [("filter", JObj []);
           ("sort", JArr [JArr [JStr "popularity_key"; JNum 1]])]) false
  = ([], throw (UnprocessableEntityException OnlyDescendingPopularity)).
Proof.
  apply (find_sort_gate Sample.fields Sample.tags "countries_tags"
           ["countries_tags"] Sample.countries Sample.ranking Sample.documents
           (JObj [("filter", JObj []);
                  ("sort", JArr [JArr [JStr "popularity_key"; JNum 1]])])
           (JArr [JArr [JStr "popularity_key"; JNum 1]]) false).
  - reflexivity.
  - apply SortOtherDirection. reflexivity.
Defined.

Lemma find_gates_before_sql_witness :
  find Sample.fields Sample.tags "countries_tags" ["countries_tags"]
    Sample.countries Sample.ranking Sample.documents
    (JObj [("filter", JObj [("countries_tags", JNull)]);
           ("sort", JArr [JArr [JStr "popularity_key"; JNum (-1)]])]) false
  = ([GetLoadedTags], throw (UnprocessableEntityException MultipleCountries)).
Proof.
  apply (proj2 (find_gates_before_sql Sample.fields Sample.tags
                  "countries_tags" ["countries_tags"] Sample.countries
                  Sample.ranking Sample.documents
                  (JObj [("filter", JObj [("countries_tags", JNull)]);
                         ("sort",
                          JArr [JArr [JStr "popularity_key"; JNum (-1)]])])
                  false eq_refl)
           (JObj [("countries_tags", JNull)]) JNull);
    reflexivity.
Defined.

Lemma deleteProp_not_nullish (o value : JsValue) (key key' : string) :
  getProp o key = ok value -> isNullish (deleteProp o key') = false.
Proof. destruct o; simpl; try discriminate; reflexivity. Qed.

Lemma mbind_pair_inv {A B} (m : M A) (k : A -> M B) (t : list Effect) (b : B) :
  mbind m k = (t, ok b) ->
  exists t1 a t2, m = (t1, ok a) /\ k a = (t2, ok b) /\ t = t1 ++ t2.
Proof.
  destruct m as [t1 [e | a]]; simpl; [discriminate |].
  destruct (k a) as [t2 r] eqn:Hk. intros H. injection H as <- ->.
  exists t1, a, t2. repeat split. exact Hk.
Qed.

Lemma getFilterSql_calls (MAPPED_FIELDS : list string)
    (MAPPED_TAGS : string -> option Entity) (loadedTags : list string)
    (filters : list Clause) (parentEntity : Entity) :
  Forall (eq GetLoadedTags)
    (trace (getFilterSql MAPPED_FIELDS MAPPED_TAGS loadedTags
              filters parentEntity)).
Proof.
  induction filters as [| f filters IH]; [constructor |].
  simpl.
  pose proof (matchClause_trace MAPPED_FIELDS MAPPED_TAGS loadedTags f) as Ht.
  destruct (getEntityAndColumn_calls MAPPED_FIELDS MAPPED_TAGS loadedTags
              (fst f)) as (_ & Hg & _).
  rewrite <- Ht in Hg.
  destruct (matchClause MAPPED_FIELDS MAPPED_TAGS loadedTags f)
    as [t [e | m]]; simpl in *; [exact Hg |].
  destruct (getFilterSql MAPPED_FIELDS MAPPED_TAGS loadedTags filters
              parentEntity) as [t' [e | cs]]; simpl in *;
    rewrite ?app_nil_r; apply Forall_app; split; assumption.
Qed.

Ltac invert_lift H :=
  let t1 := fresh "t" in
  let x := fresh "x" in
  let t2 := fresh "t" in
  let Hx := fresh "Hx" in
  apply mbind_pair_inv in H as (t1 & x & t2 & Hx & H & ->);
  unfold lift in Hx; injection Hx as <- Hx; cbn [app].

Ltac invert_perform H :=
  let t1 := fresh "t" in
  let x := fresh "x" in
  let t2 := fresh "t" in
  let Hx := fresh "Hx" in
  apply mbind_pair_inv in H as (t1 & x & t2 & Hx & H & ->);
  unfold getLoadedTags, perform, ok in Hx; injection Hx as <- <-; cbn [app].

Section FindCalls.

Variable MAPPED_FIELDS : list string.
Variable MAPPED_TAGS : string -> option Entity.
Variable ProductCountry_TAG : string.
Variable loadedTags : list string.
Variable countryRows : JsValue -> list JsValue.
Variable rankedRows : RankQuery -> list JsValue.
Variable mongoFind : list JsValue -> JsValue -> list JsValue.

Local Abbreviation find' :=
  (find MAPPED_FIELDS MAPPED_TAGS ProductCountry_TAG loadedTags
     countryRows rankedRows mongoFind).

(** X24.  A country the mirror does not know is no client-input error:
    when the gates are passed and the filter normalizes, but the
    country table has no row for the country of the filter (the world
    when the filter names none), [find] raises a [TypeError], after the
    country lookup and before the ranking statement and the document
    store are called. *)
Theorem find_unknown_country (body filter countryTag : JsValue)
    (filters : list Clause) (obsolete : bool) :
  unsupportedSort body = ok false ->
  includes ProductCountry_TAG loadedTags = true ->
  getProp body "filter" = ok filter ->
  getProp filter "countries_tags" = ok countryTag ->
  countryTag = JUndefined \/ isString countryTag = true ->
  parseFilter (deleteProp filter "countries_tags") = ok filters ->
  countryRows (countryOf countryTag) = [] ->
  find' body obsolete
  = ([GetLoadedTags; SqlCountryId (countryOf countryTag)], throw TypeError).
Proof.
  intros Hs Hl Hf Hc Hgate Hp Hrows. unfold find.
  rewrite Hs, mbind_lift_ok. cbn -[parseFilter getFilterSql].
  rewrite Hl. cbn -[parseFilter getFilterSql].
  rewrite Hf. cbn -[parseFilter getFilterSql].
  rewrite Hc. cbn -[parseFilter getFilterSql].
  replace (negb (strictEq countryTag JUndefined) && negb (isString countryTag))
    with false
    by (destruct Hgate as [-> | ->]; [reflexivity | now rewrite andb_false_r]).
  rewrite (deleteProp_not_nullish _ _ _ "countries_tags" Hc), Hp.
  fold (countryOf countryTag). rewrite Hrows. reflexivity.
Qed.

(** X25.  The calls of a [find] that returns, in order: the Loaded-Tag
    Registry once, the country lookup once (for the country of the
    filter, the world by default), the registry again for the clauses
    that need it, the ranking statement once, and the document store
    once, asked for exactly the codes the ranking statement answered.
    The clauses compiled into the ranking statement are those of the
    filter without its top-level [countries_tags], on the per-country
    statistics. *)
Theorem find_call_sequence (body : JsValue) (obsolete : bool)
    (res : list (option JsValue)) :
  outcome (find' body obsolete) = ok res ->
  exists filter countryTag filters q productCodes projection,
    getProp body "filter" = ok filter /\
    getProp filter "countries_tags" = ok countryTag /\
    parseFilter (deleteProp filter "countries_tags") = ok filters /\
    outcome (getFilterSql MAPPED_FIELDS MAPPED_TAGS loadedTags
               filters ProductCountry) = ok (rq_whereClause q) /\
    mapM (fun r => getProp r "code") (rankedRows q) = ok productCodes /\
    Forall (eq GetLoadedTags)
      (trace (getFilterSql MAPPED_FIELDS MAPPED_TAGS loadedTags
                filters ProductCountry)) /\
    trace (find' body obsolete)
    = [GetLoadedTags; SqlCountryId (countryOf countryTag)]
        ++ trace (getFilterSql MAPPED_FIELDS MAPPED_TAGS loadedTags
                    filters ProductCountry)
        ++ [SqlRankedCodes q; MongoFind productCodes projection].
Proof.
  destruct (find' body obsolete) as [t r] eqn:H. simpl. intros ->.
  unfold find in H.
  invert_lift H. destruct x; [discriminate |].
  invert_perform H.
  destruct (negb (includes ProductCountry_TAG loadedTags)); [discriminate |].
  invert_lift H. invert_lift H.
  destruct (negb (strictEq x0 JUndefined) && negb (isString x0));
    [discriminate |].
  cbv zeta in H. fold (countryOf x0) in H.
  rewrite (deleteProp_not_nullish _ _ _ "countries_tags" Hx1) in H.
  invert_lift H. invert_perform H. invert_lift H. invert_lift H. invert_lift H.
  apply mbind_pair_inv in H as (tf & whereClause & t2 & Hw & H & ->).
  invert_perform H. invert_lift H. invert_lift H. invert_perform H.
  unfold lift in H. injection H as <- H.
  exists x, x0, x1,
    {| rq_countryId := x2; rq_obsolete := obsolete;
       rq_whereClause := whereClause;
       rq_limit := if truthy x3 then Some x3 else None;
       rq_offset := if truthy x4 then Some x4 else None |}, x5, x6.
  split; [exact Hx0 |]. split; [exact Hx1 |]. split; [exact Hx2 |].
  rewrite Hw. simpl.
  split; [reflexivity |]. split; [exact Hx6 |].
  split; [| reflexivity].
  pose proof (getFilterSql_calls MAPPED_FIELDS MAPPED_TAGS loadedTags x1
                ProductCountry) as Hcalls.
  rewrite Hw in Hcalls. exact Hcalls.
Qed.

End FindCalls.

Lemma find_unknown_country_witness :
  find Sample.fields Sample.tags "countries_tags" ["countries_tags"]
    (fun _ => []) Sample.ranking Sample.documents Sample.popular false
  = ([GetLoadedTags; SqlCountryId (JStr "en:world")], throw TypeError).
Proof.
  apply (find_unknown_country Sample.fields Sample.tags "countries_tags"
           ["countries_tags"] (fun _ => []) Sample.ranking Sample.documents
           Sample.popular (JObj []) JUndefined [] false);
    try reflexivity.
  left. reflexivity.
Defined.

Lemma find_call_sequence_witness :
  exists filter countryTag filters q productCodes projection,
    getProp Sample.popular "filter" = ok filter /\
    getProp filter "countries_tags" = ok countryTag /\
    parseFilter (deleteProp filter "countries_tags") = ok filters /\
    outcome (getFilterSql Sample.fields Sample.tags ["countries_tags"]
               filters ProductCountry) = ok (rq_whereClause q) /\
    mapM (fun r => getProp r "code") (Sample.ranking q) = ok productCodes /\
    Forall (eq GetLoadedTags)
      (trace (getFilterSql Sample.fields Sample.tags ["countries_tags"]
                filters ProductCountry)) /\
    trace (find Sample.fields Sample.tags "countries_tags" ["countries_tags"]
             Sample.countries Sample.ranking Sample.documents
             Sample.popular false)
    = [GetLoadedTags; SqlCountryId (countryOf countryTag)]
        ++ trace (getFilterSql Sample.fields Sample.tags ["countries_tags"]
                    filters ProductCountry)
        ++ [SqlRankedCodes q; MongoFind productCodes projection].
Proof.
  apply (find_call_sequence Sample.fields Sample.tags "countries_tags"
           ["countries_tags"] Sample.countries Sample.ranking Sample.documents
           Sample.popular false
           [None; Some (Sample.document "002"); Some (Sample.document "003")]).
  reflexivity.
Defined.

(** ** When the array [find] returns has no gap *)

Lemma slot_some_lt {A} (arr : list (option A)) (i : nat) :
  slot arr i <> None -> (i < List.length arr)%nat.
Proof.
  unfold slot. intros H. apply nth_error_Some.
  destruct (nth_error arr i); [discriminate | contradiction].
Qed.

Lemma slot_nth_error {A} (arr : list (option A)) (i : nat) :
  slot arr i <> None -> nth_error arr i = Some (slot arr i).
Proof.
  unfold slot. destruct (nth_error arr i) as [[x |] |];
    [reflexivity | contradiction | contradiction].
Qed.

(** X26.  When every record the document store yields carries a code
    of the rank list and a record is fetched for every rank, the array
    the loop over the cursor leaves has one slot per rank, no empty
    slot, and at each rank the record fetched for it: only then is the
    result of [find] a plain list in rank order. *)
Theorem complete_fetch_leaves_no_gap (productCodes cursor : list JsValue)
    (res : list (option JsValue)) :
  Forall (ranked productCodes) cursor ->
  (forall i, (i < List.length productCodes)%nat ->
             fetchedAt productCodes cursor i <> None) ->
  collect productCodes cursor [] = ok res ->
  List.length res = List.length productCodes /\
  ~ hasGap res /\
  (forall i, (i < List.length productCodes)%nat ->
             nth_error res i = Some (fetchedAt productCodes cursor i)).
Proof.
  intros Hranked Hall Hres.
  destruct (collect_slots _ _ _ _ Hranked Hres) as [Hs Hl].
  assert (Hslot : forall i, slot res i = fetchedAt productCodes cursor i).
  { intros i. rewrite Hs, slot_nil. reflexivity. }
  assert (Hle : (List.length res <= List.length productCodes)%nat).
  { apply Hl. simpl. lia. }
  assert (Hge : (List.length productCodes <= List.length res)%nat).
  { destruct (Nat.le_gt_cases (List.length productCodes) (List.length res))
      as [H | H]; [exact H |].
    specialize (Hall _ H). rewrite <- Hslot in Hall.
    apply slot_some_lt in Hall. lia. }
  split; [lia |]. split.
  - intros Hgap. unfold hasGap in Hgap.
    apply In_nth_error in Hgap as [i Hi].
    assert (Hlt : (i < List.length productCodes)%nat).
    { assert (nth_error res i <> None) by congruence.
      apply nth_error_Some in H. lia. }
    specialize (Hall _ Hlt). rewrite <- Hslot in Hall.
    unfold slot in Hall. rewrite Hi in Hall. contradiction.
  - intros i Hi. rewrite <- Hslot. apply slot_nth_error.
    rewrite Hslot. apply Hall. exact Hi.
Qed.

Lemma complete_fetch_leaves_no_gap_witness :
  List.length [Some (Sample.document "001"); Some (Sample.document "002")]
  = List.length [JStr "001"; JStr "002"] /\
  ~ hasGap [Some (Sample.document "001"); Some (Sample.document "002")] /\
  (forall i, (i < List.length [JStr "001"; JStr "002"])%nat ->
             nth_error [Some (Sample.document "001");
                        Some (Sample.document "002")] i
             = Some (fetchedAt [JStr "001"; JStr "002"]
                       [Sample.document "002"; Sample.document "001"] i)).
Proof.
  apply (complete_fetch_leaves_no_gap [JStr "001"; JStr "002"]
           [Sample.document "002"; Sample.document "001"]
           [Some (Sample.document "001"); Some (Sample.document "002")]).
  - repeat constructor; discriminate.
  - intros [| [| i]] Hi; simpl in Hi; try lia; discriminate.
  - reflexivity.
Defined.

(** ** The list mode of [aggregate] *)

Lemma insertDesc_In (g h : JsValue * nat) (l : list (JsValue * nat)) :
  In h (insertDesc g l) -> h = g \/ In h l.
Proof.
  induction l as [| x l IH]; simpl.
  - intros [H | []]. left. congruence.
  - destruct (snd x <=? snd g)%nat; simpl.
    + intros [H | H]; [left; congruence | right; exact H].
    + intros [H | H]; [right; left; exact H |].
      destruct (IH H) as [H' | H']; [left; exact H' | right; right; exact H'].
Qed.

Lemma insertDesc_length (g : JsValue * nat) (l : list (JsValue * nat)) :
  List.length (insertDesc g l) = S (List.length l).
Proof.
  induction l as [| x l IH]; simpl; [reflexivity |].
  destruct (snd x <=? snd g)%nat; simpl; [reflexivity | now rewrite IH].
Qed.

Lemma insertDesc_sorted (g : JsValue * nat) (l : list (JsValue * nat)) :
  StronglySorted countDesc l -> StronglySorted countDesc (insertDesc g l).
Proof.
  induction 1 as [| x l Hs IH Hx]; simpl.
  - constructor; constructor.
  - destruct (snd x <=? snd g)%nat eqn:Hle.
    + apply Nat.leb_le in Hle. constructor; [constructor; assumption |].
      constructor; [exact Hle |].
      rewrite Forall_forall in *. intros h Hh. specialize (Hx h Hh).
      unfold countDesc in *. lia.
    + apply Nat.leb_gt in Hle. constructor; [exact IH |].
      rewrite Forall_forall in *. intros h Hh.
      destruct (insertDesc_In _ _ _ Hh) as [-> | Hh'].
      * unfold countDesc. lia.
      * apply Hx. exact Hh'.
Qed.

Lemma sortDesc_sorted (l : list (JsValue * nat)) :
  StronglySorted countDesc (sortDesc l).
Proof.
  induction l as [| g l IH]; simpl; [constructor |].
  apply insertDesc_sorted. exact IH.
Qed.

Lemma sortDesc_length (l : list (JsValue * nat)) :
  List.length (sortDesc l) = List.length l.
Proof.
  induction l as [| g l IH]; simpl; [reflexivity |].
  rewrite insertDesc_length, IH. reflexivity.
Qed.

Lemma In_firstn {A} (k : nat) (l : list A) (x : A) :
  In x (firstn k l) -> In x l.
Proof.
  revert l. induction k as [| k IH]; intros [| y l]; simpl; try tauto.
  intros [H | H]; [left; exact H | right; apply IH; exact H].
Qed.

Lemma sorted_firstn {A} (R : A -> A -> Prop) (k : nat) (l : list A) :
  StronglySorted R l -> StronglySorted R (firstn k l).
Proof.
  intros H. revert k. induction H as [| x l Hs IH Hx]; intros [| k]; simpl;
    try constructor.
  - apply IH.
  - rewrite Forall_forall in *. intros y Hy. apply Hx.
    apply (In_firstn k). exact Hy.
Qed.

Lemma sorted_skipn {A} (R : A -> A -> Prop) (k : nat) (l : list A) :
  StronglySorted R l -> StronglySorted R (skipn k l).
Proof.
  intros H. revert k. induction H as [| x l Hs IH Hx]; intros [| k]; simpl;
    try constructor; try assumption.
  apply IH.
Qed.

Lemma page_sorted {A} (R : A -> A -> Prop) (limit offset : option nat)
    (l : list A) :
  StronglySorted R l -> StronglySorted R (page limit offset l).
Proof.
  intros H. unfold page.
  destruct offset as [o |], limit as [k |];
    repeat (apply sorted_firstn || apply sorted_skipn); exact H.
Qed.

Lemma insertDesc_perm (g : JsValue * nat) (l : list (JsValue * nat)) :
  Permutation (insertDesc g l) (g :: l).
Proof.
  induction l as [| h l IH]; simpl; [apply Permutation_refl |].
  destruct (snd h <=? snd g)%nat; [apply Permutation_refl |].
  apply (perm_trans (perm_skip h IH)). apply perm_swap.
Qed.

Lemma sortDesc_perm (l : list (JsValue * nat)) : Permutation (sortDesc l) l.
Proof.
  induction l as [| g l IH]; simpl; [constructor |].
  apply (perm_trans (insertDesc_perm g (sortDesc l))).
  apply perm_skip. exact IH.
Qed.

(** X27.  The list mode of [aggregate].  For a pipeline without a count
    stage whose stages can be read, whose group tag resolves to
    [(entity, column)] and whose match filter compiles, when the rows
    of [entity] that satisfy the obsolete predicate and every clause
    all have the column, [aggregate] returns one [{_id, count}] row per
    group of these rows, the count as the numeral the driver hands
    over, in an order of descending counts (the order among groups of
    equal count is the store's), cut to the page the limit and skip
    stages ask for, read as the query builder reads them: never more
    rows than the limit, and, without limit and skip stages, as many
    rows as [column] has distinct values among the matching rows. *)
Theorem aggregate_lists_groups_by_count
    (MAPPED_FIELDS : list string) (MAPPED_TAGS : string -> option Entity)
    (loadedTags : list string) (db : Mirror)
    (body : JsValue) (obsolete : bool) (st : Stages) (tag : string)
    (entity : Entity) (column : string) (filters : list Clause)
    (ms : list Match) (rows : list Row) (cells : list JsValue)
    (limit offset : option nat) :
  readStages body = ok st ->
  st_count st = false ->
  groupTag (st_group st) = ok tag ->
  outcome (getEntityAndColumn MAPPED_FIELDS MAPPED_TAGS loadedTags tag)
  = ok (entity, column) ->
  parseFilter (st_match st) = ok filters ->
  Forall2 (fun f m => outcome (matchClause MAPPED_FIELDS MAPPED_TAGS loadedTags f)
                      = ok m) filters ms ->
  rowsWhere db entity (conditions entity obsolete ms) = ok rows ->
  mapM (cell column) rows = ok cells ->
  asCount (pageOf (st_limit st)) = ok limit ->
  asCount (pageOf (st_skip st)) = ok offset ->
  exists ordered groups,
    Permutation ordered (facets cells) /\
    StronglySorted countDesc ordered /\
    groups = page limit offset ordered /\
    outcome (aggregate MAPPED_FIELDS MAPPED_TAGS loadedTags db body obsolete)
    = ok (JArr (map facetRow groups)) /\
    StronglySorted countDesc groups /\
    (forall k, limit = Some k -> (List.length groups <= k)%nat) /\
    (limit = None -> offset = None ->
     List.length groups = List.length (distinct cells)).
Proof.
  intros Hst Hc Htag Hres Hp Hms Hrows Hcells Hlimit Hoffset.
  assert (exists qb,
             outcome (aggregate MAPPED_FIELDS MAPPED_TAGS loadedTags db body
                        obsolete)
             = ok (JArr (map facetRow
                           (page limit offset
                              (sortDesc (groupOrder db qb (facets cells)))))))
    as (qb & Hout).
  { rewrite (aggregate_stages _ _ _ _ _ _ _ _ Hst Htag). unfold aggregateFrom.
    rewrite (outcome_mbind_ok _ _ _ Hres). cbv zeta. rewrite Hc. simpl negb.
    cbv iota. rewrite Hp, mbind_lift_ok.
    rewrite (outcome_mbind_ok _ _ _ (addMatches_ok _ _ _ _ _ _ entity Hms)).
    unfold pageOf in Hlimit, Hoffset.
    unfold execute, runStatement, runQuery.
    pose proof (matchingRows_addClauses db entity ms
                  (andWhere (qbSelect (createQueryBuilder entity)
                               (SelFacet column))
                            (WRaw (obsoleteWhere obsolete)))) as Hm.
    simpl qb_where in Hm. simpl qb_entity in Hm.
    unfold conditions in Hrows. simpl app in Hm. rewrite Hrows in Hm.
    destruct (addClauses_fields entity ms
                (andWhere (qbSelect (createQueryBuilder entity)
                             (SelFacet column))
                          (WRaw (obsoleteWhere obsolete))))
      as (He & Hsel & Hd & _).
    destruct (addClauses_shape entity ms
                (andWhere (qbSelect (createQueryBuilder entity)
                             (SelFacet column))
                          (WRaw (obsoleteWhere obsolete))))
      as (_ & Hl & Ho).
    simpl in He, Hsel, Hd, Hl, Ho.
    unfold matchingRows in *.
    destruct (truthy (st_limit st)), (truthy (st_skip st));
      eexists;
      cbn [qb_where qb_entity qb_select qb_distinct qb_groupBy qb_limit
           qb_offset qbGroupOrder qbLimit qbOffset];
      rewrite Hm, Hsel, Hd, ?Hl, ?Ho;
      change (@inr Exn (list Row) rows) with (@ok (list Row) rows);
      rewrite rbind_ok, String.eqb_refl, Hcells, rbind_ok;
      change (asCount None) with (@ok (option nat) None) in *;
      rewrite ?Hlimit, ?Hoffset; unfold ok in *;
      repeat match goal with
             | E : inr None = inr ?y |- _ => is_var y; injection E as <-
             end;
      reflexivity. }
  exists (sortDesc (groupOrder db qb (facets cells))).
  exists (page limit offset (sortDesc (groupOrder db qb (facets cells)))).
  assert (Hperm : Permutation (sortDesc (groupOrder db qb (facets cells)))
                              (facets cells))
    by (apply (perm_trans (sortDesc_perm _)), groupOrder_perm).
  repeat split.
  - exact Hperm.
  - apply sortDesc_sorted.
  - exact Hout.
  - apply page_sorted, sortDesc_sorted.
  - intros k ->. unfold page. apply firstn_le_length.
  - intros -> ->. unfold page. rewrite (Permutation_length Hperm).
    unfold facets. apply length_map.
Qed.

Lemma aggregate_lists_groups_by_count_witness :
  let cells := [JStr "acme"; JStr "acme"; JStr "bolt"] in
  exists ordered groups,
    Permutation ordered (facets cells) /\
    StronglySorted countDesc ordered /\
    groups = page (Some 1%nat) None ordered /\
    outcome (aggregate Sample.fields Sample.tags Sample.loaded Sample.mirror
               (JArr [JObj [("$match", JObj [])];
                      JObj [("$group", JObj [("_id", JStr "$brands_tags")])];
                      JObj [("$limit", JStr "1")]]) false)
    = ok (JArr (map facetRow groups)) /\
    StronglySorted countDesc groups /\
    (forall k, Some 1%nat = Some k -> (List.length groups <= k)%nat) /\
    (Some 1%nat = None -> @None nat = None ->
     List.length groups = List.length (distinct cells)).
Proof.
  apply (aggregate_lists_groups_by_count
           Sample.fields Sample.tags Sample.loaded Sample.mirror
           (JArr [JObj [("$match", JObj [])];
                  JObj [("$group", JObj [("_id", JStr "$brands_tags")])];
                  JObj [("$limit", JStr "1")]]) false
           {| st_match := JObj [];
              st_group := JObj [("_id", JStr "$brands_tags")];
              st_count := false; st_limit := JStr "1"; st_skip := JUndefined |}
           "brands_tags" (TagEntity "product_brands_tag") "value" [] []
           [Sample.brandRow 1 "acme" false; Sample.brandRow 2 "acme" false;
            Sample.brandRow 2 "bolt" false]
           [JStr "acme"; JStr "acme"; JStr "bolt"] (Some 1%nat) None);
    try reflexivity.
  constructor.
Defined.
